(** * libap lock files: a shallow embedding of [src/libap/lockfile.c]

    The file implements the liblockfile protocol: a temporary file is
    hard-linked onto the lock path, ownership is confirmed by comparing
    [lstat] results, stale locks are detected by a [kill(pid, 0)] probe or
    by age, and the whole attempt is retried with a linear backoff.

    The C functions are embedded as functions of a small state-and-fault
    monad over an abstract operating system: every system call is a field
    of the record [OS], so that the theorems hold for every behaviour of
    the file system and of the other processes.  A concrete single-host
    file system, [MiniFS], is used to run the code on explicit inputs. *)

From Stdlib Require Import ZArith Lia Ascii String List.
From stdpp Require Import base option gmap strings list.

Local Open Scope string_scope.
Local Open Scope list_scope.
Local Open Scope Z_scope.

(** ** Constants of [lockfile.h] and of the C library *)

Definition LOCK_ERR_TMPLOCK : Z := 2.
Definition LOCK_ERR_TMPWRITE : Z := 3.
Definition LOCK_ERR_MAXRETRIES : Z := 4.
Definition LOCK_ERR_GENERIC : Z := 5.
Definition LOCK_ERR_ORPHANED : Z := 7.
Definition LOCK_ERR_RMSTALE : Z := 8.
Definition UNLOCK_ERR_GENERIC : Z := -1.

Definition TMPLOCK_EXT : string := ".lk".
Definition TMPLOCK_EXT_SIZE : Z := Z.of_nat (String.length TMPLOCK_EXT).
Definition TMPLOCK_PID_SIZE : Z := 5.
Definition TMPLOCK_TIME_SIZE : Z := 1.
Definition TMPLOCK_SUFFIX_SIZE : Z :=
  TMPLOCK_EXT_SIZE + TMPLOCK_PID_SIZE + TMPLOCK_TIME_SIZE.

(** [errno.h] and [fcntl.h] of Linux; only their being distinct matters. *)
Definition EPERM : Z := 1.
Definition ENOENT : Z := 2.
Definition ESRCH : Z := 3.
Definition EBADF : Z := 9.
Definition EEXIST : Z := 17.

Definition O_RDONLY : Z := 0.
Definition O_WRONLY : Z := 1.
Definition O_CREAT : Z := 64.
Definition O_EXCL : Z := 128.
Definition O_CLOEXEC : Z := 524288.

(** ** Machine integers

    [int] is 32 bits wide, [time_t] and [long] are 64 bits wide (s390x).
    Conversions to a signed type keep the value modulo the width; signed
    overflow of [+], undefined in ISO C, is given the same wrap-around. *)

Definition INT_MAX : Z := 2147483647.
Definition INT_MIN : Z := -2147483648.
Definition LONG_MAX : Z := 9223372036854775807.
Definition LONG_MIN : Z := -9223372036854775808.

Definition to_int (z : Z) : Z := (z + 2 ^ 31) mod 2 ^ 32 - 2 ^ 31.
Definition to_long (z : Z) : Z := (z + 2 ^ 63) mod 2 ^ 64 - 2 ^ 63.

Definition int_add (a b : Z) : Z := to_int (a + b).
Definition time_add (a b : Z) : Z := to_long (a + b).

(** ** [printf] conversions used by the code *)

Definition digit_char (d : Z) : ascii :=
  ascii_of_nat (Z.to_nat (if d <? 10 then 48 + d else 87 + d)).

Fixpoint fmt_digits (fuel : nat) (base n : Z) (acc : string) : string :=
  match fuel with
  | O => acc
  | S fuel' =>
      let acc' := String (digit_char (n mod base)) acc in
      if n / base =? 0 then acc' else fmt_digits fuel' base (n / base) acc'
  end.

(** Digits of a natural number below [2 ^ 64]. *)
Definition fmt_u (base n : Z) : string := fmt_digits 64 base n "".

Fixpoint zeros (n : nat) : string :=
  match n with O => "" | S n' => String "0"%char (zeros n') end.

Definition zero_pad (width : Z) (s : string) : string :=
  zeros (Z.to_nat width - String.length s) +:+ s.

(** ["%d"] *)
Definition fmt_d (n : Z) : string :=
  if n <? 0 then "-" +:+ fmt_u 10 (- n) else fmt_u 10 n.

(** ["%0*d"]: zeros are inserted after the sign up to the field width; a
    longer number is never cut. *)
Definition fmt_0d (width n : Z) : string :=
  if n <? 0 then "-" +:+ zero_pad (width - 1) (fmt_u 10 (- n))
  else zero_pad width (fmt_u 10 n).

(** ["%0*x"], the argument read as [unsigned int]. *)
Definition fmt_0x (width n : Z) : string :=
  zero_pad width (fmt_u 16 (n mod 2 ^ 32)).

(** [snprintf(buf, size, ...)] for [size > 0], given the complete output
    [out]: at most [size - 1] characters are stored, and the result is the
    length of the complete output, or negative when that length does not
    fit an [int]. *)
Definition snprintf (size : Z) (out : string) : Z * string :=
  let n := Z.of_nat (String.length out) in
  (if INT_MAX <? n then -1 else n, substring 0 (Z.to_nat (size - 1)) out).

(** ** [atoi], as [(int) strtol(s, NULL, 10)] *)

Definition isspace (c : ascii) : bool :=
  let n := nat_of_ascii c in
  (Nat.eqb n 32 || (Nat.leb 9 n && Nat.leb n 13))%bool.

Definition isdigit (c : ascii) : bool :=
  let n := nat_of_ascii c in (Nat.leb 48 n && Nat.leb n 57)%bool.

Fixpoint skip_space (s : list ascii) : list ascii :=
  match s with
  | c :: s' => if isspace c then skip_space s' else s
  | [] => []
  end.

Fixpoint digits_val (s : list ascii) (acc : Z) : Z :=
  match s with
  | c :: s' =>
      if isdigit c then digits_val s' (acc * 10 + (Z.of_nat (nat_of_ascii c) - 48))
      else acc
  | [] => acc
  end.

Definition strtol10 (s : list ascii) : Z :=
  let s := skip_space s in
  let v :=
    match s with
    | "-"%char :: s' => - digits_val s' 0
    | "+"%char :: s' => digits_val s' 0
    | _ => digits_val s 0
    end in
  Z.max LONG_MIN (Z.min LONG_MAX v).

Definition atoi (s : list ascii) : Z := to_int (strtol10 s).

(** ** [struct stat]

    The fields the code reads, and [st_dev], which with [st_ino]
    identifies a file. [st_rdev] is the device a special file stands for. *)

Record struct_stat := {
  st_dev : Z;
  st_ino : Z;
  st_rdev : Z;
  st_atime : Z;
  st_mtime : Z
}.

(** ** The operating system *)

Record OS := {
  W : Type;
  sys_errno : W -> Z;
  sys_getpid : W -> Z * W;
  sys_time : W -> Z * W;
  sys_malloc : Z -> W -> bool * W;
  sys_open : string -> Z -> Z -> W -> Z * W;
  sys_write : Z -> list ascii -> Z -> W -> Z * W;
  sys_read : Z -> Z -> W -> (Z * list ascii) * W;
  sys_close : Z -> W -> Z * W;
  sys_stat : string -> W -> (Z * struct_stat) * W;
  sys_lstat : string -> W -> (Z * struct_stat) * W;
  sys_fstat : Z -> W -> (Z * struct_stat) * W;
  sys_link : string -> string -> W -> Z * W;
  sys_unlink : string -> W -> Z * W;
  sys_kill : Z -> Z -> W -> Z * W;
  sys_sleep : Z -> W -> Z * W
}.

(** The calls a run makes are recorded, with their results. *)
Inductive call :=
| Getpid
| Time
| Malloc (size : Z)
| Open (path : string) (flags mode : Z)
| Write (fd : Z) (data : list ascii) (count : Z)
| Read (fd count : Z)
| Close (fd : Z)
| Stat (path : string)
| Lstat (path : string)
| Fstat (fd : Z)
| Link (oldpath newpath : string)
| Unlink (path : string)
| Kill (pid sig : Z)
| Sleep (seconds : Z).

Record event := Ev {
  ev_call : call;
  ev_ret : Z;
  ev_stat : option struct_stat
}.

(** ** The monad: state, trace and undefined behaviour *)

Inductive fault :=
| OutOfBounds   (* a store outside of an array *)
| BadString     (* a string read that meets no NUL inside initialised memory *)
| NoFuel.       (* the iteration budget of the model ran out *)

Inductive res (A : Type) :=
| Val (a : A)
| Fault (f : fault).
Arguments Val {A} a.
Arguments Fault {A} f.

Section Program.

Variable os : OS.

Record state := St {
  world : W os;
  trace : list event
}.

Definition M (A : Type) : Type := state -> res A * state.

Definition ret {A} (a : A) : M A := fun s => (Val a, s).

Definition bind {A B} (m : M A) (f : A -> M B) : M B :=
  fun s =>
    match m s with
    | (Val a, s') => f a s'
    | (Fault e, s') => (Fault e, s')
    end.

Definition fail {A} (e : fault) : M A := fun s => (Fault e, s).

Notation "'let*' x ':=' m1 'in' m2" := (bind m1 (fun x => m2))
  (at level 10, x pattern, m1 at level 100, m2 at level 200).

Definition syscall {A} (c : call) (h : W os -> A * W os)
    (code : A -> Z) (st : A -> option struct_stat) : M A :=
  fun s =>
    let '(a, w) := h (world s) in
    (Val a, St w (trace s ++ [Ev c (code a) (st a)])).

Definition plain (r : Z) : option struct_stat := None.
Definition with_stat (r : Z * struct_stat) : option struct_stat := Some (snd r).

Definition errno : M Z := fun s => (Val (sys_errno os (world s)), s).

Definition getpid : M Z := syscall Getpid (sys_getpid os) id plain.
Definition time : M Z := syscall Time (sys_time os) id plain.
Definition malloc (n : Z) : M bool :=
  syscall (Malloc n) (sys_malloc os n) (fun b : bool => if b then 1 else 0) (fun _ => None).
Definition open (path : string) (flags mode : Z) : M Z :=
  syscall (Open path flags mode) (sys_open os path flags mode) id plain.
Definition write (fd : Z) (data : list ascii) (count : Z) : M Z :=
  syscall (Write fd data count) (sys_write os fd data count) id plain.
Definition read (fd count : Z) : M (Z * list ascii) :=
  syscall (Read fd count) (sys_read os fd count) fst (fun _ => None).
Definition close (fd : Z) : M Z := syscall (Close fd) (sys_close os fd) id plain.
Definition stat (path : string) : M (Z * struct_stat) :=
  syscall (Stat path) (sys_stat os path) fst with_stat.
Definition lstat (path : string) : M (Z * struct_stat) :=
  syscall (Lstat path) (sys_lstat os path) fst with_stat.
Definition fstat (fd : Z) : M (Z * struct_stat) :=
  syscall (Fstat fd) (sys_fstat os fd) fst with_stat.
Definition link (oldpath newpath : string) : M Z :=
  syscall (Link oldpath newpath) (sys_link os oldpath newpath) id plain.
Definition unlink (path : string) : M Z :=
  syscall (Unlink path) (sys_unlink os path) id plain.
Definition kill (pid sig : Z) : M Z :=
  syscall (Kill pid sig) (sys_kill os pid sig) id plain.
Definition sleep (seconds : Z) : M Z :=
  syscall (Sleep seconds) (sys_sleep os seconds) id plain.

(** ** [tmplock_filename]

    [lockfile] and [tmplock_buf] are [None] for a null pointer; the
    second component of the result is the string the buffer holds.  The
    store of line 47, [tmplock_buf[tmplock_bufsize - 1] = 0], is inside of
    the buffer and behind the NUL that [snprintf] wrote: it leaves that
    string as it is. *)

Definition tmplock_name (lockfile : string) (pid now : Z) : string :=
  lockfile +:+ TMPLOCK_EXT +:+ fmt_0d TMPLOCK_PID_SIZE (to_int pid)
    +:+ fmt_0x TMPLOCK_TIME_SIZE (Z.land (to_int now) 15).

Definition tmplock_filename (lockfile : option string)
    (tmplock_buf : option string) (tmplock_bufsize : Z)
    : M (Z * option string) :=
  match lockfile, tmplock_buf with
  | Some lockfile, Some _ =>
      if tmplock_bufsize =? 0 then ret (LOCK_ERR_GENERIC, tmplock_buf)
      else
        let* pid := getpid in
        let* now := time in
        let '(r, out) := snprintf tmplock_bufsize (tmplock_name lockfile pid now) in
        if r <? 0 then ret (LOCK_ERR_GENERIC, Some out)
        else ret (0, Some out)
  | _, _ => ret (LOCK_ERR_GENERIC, tmplock_buf)
  end.

(** ** [lockfile_check_valid]

    [char buf[16]] starts uninitialised; [read] stores the bytes it
    returns at its beginning. *)

Definition NUL : ascii := ascii_of_nat 0.

Definition buf_fill (data : list ascii) (buf : list (option ascii))
    : list (option ascii) :=
  (Some <$> data) ++ drop (length data) buf.

(** [buf[i] = c]: defined inside of the array only. *)
Definition buf_store (buf : list (option ascii)) (i : Z) (c : ascii)
    : option (list (option ascii)) :=
  if (0 <=? i) && (i <? Z.of_nat (length buf))
  then Some (<[Z.to_nat i := Some c]> buf) else None.

(** The string that starts the array, up to its first NUL. *)
Fixpoint buf_string (buf : list (option ascii)) : option (list ascii) :=
  match buf with
  | Some c :: buf' =>
      if Ascii.eqb c NUL then Some [] else cons c <$> buf_string buf'
  | _ => None
  end.

(** Lines 66 to 89: the reference time, the [stat] buffer and the pid
    read from the lock file. [st] holds the result of [stat(lockfile)];
    a failing [fstat] leaves it as it is. *)
Definition check_valid_read (lockfile : string) (st : struct_stat)
    : M (Z * struct_stat * Z) :=
  let buf := replicate 16 (@None ascii) in
  let* now := time in
  let pid := 0 in
  let* fd := open lockfile O_RDONLY 0 in
  if 0 <=? fd then
    let len := 0 in
    let* (r, st') := fstat fd in
    let st := if r =? 0 then st' else st in
    let* (now, len, buf) :=
      (if r =? 0 then
         let* (len, data) := read fd 16 in
         let buf := buf_fill (take 16 data) buf in
         if 0 <=? len then
           let* (r2, st2) := fstat fd in
           if (r2 =? 0) && negb (st_atime st =? st_atime st2)
           then ret (st_atime st, len, buf)
           else ret (now, len, buf)
         else ret (now, len, buf)
       else ret (now, len, buf)) in
    let* _ := close fd in
    if 0 <? len then
      match buf_store buf len NUL with
      | None => fail OutOfBounds
      | Some buf =>
          match buf_string buf with
          | None => fail BadString
          | Some s => ret (now, st, atoi s)
          end
      end
    else ret (now, st, pid)
  else ret (now, st, pid).

(** Lines 91 to 112: the liveness probe, then the age of the file. *)
Definition check_valid_decide (now : Z) (st : struct_stat) (pid : Z) : M bool :=
  let* probe :=
    (if 0 <? pid then
       let* r := kill pid 0 in
       let* e := errno in
       if (r =? 0) || ((r <? 0) && (e =? EPERM)) then ret (Some true)
       else if (r <? 0) && (e =? ESRCH) then ret (Some false)
       else ret None
     else ret None) in
  match probe with
  | Some b => ret b
  | None => ret (now <? time_add (st_mtime st) 300)
  end.

Definition lockfile_check_valid (lockfile : option string) : M bool :=
  match lockfile with
  | None => ret false
  | Some lockfile =>
      let* (r, st) := stat lockfile in
      if r <? 0 then ret false
      else
        let* (now, st, pid) := check_valid_read lockfile st in
        check_valid_decide now st pid
  end.

(** ** [lockfile_try_create]

    The [int] variables of the function.  Their increments stay far from
    overflow and are plain additions: [i] is below [tries], [statfailed]
    is at most 6, [sleeptime] at most 60, and [tries] is raised from 1
    to 2 only. *)

Record locals := Locals {
  i : Z;
  tries : Z;
  sleeptime : Z;
  statfailed : Z;
  dontsleep : Z
}.

(** What an iteration of the [for] loop ends in: a [return], or the
    increment of [i] (at the end of the body or by [continue]). *)
Inductive ctl :=
| Return (r : Z)
| Next (l : locals).

Definition try_body (lockfile tmplock_buf : string) (l : locals) : M ctl :=
  let* sleeptime :=
    (if dontsleep l =? 0 then
       let sleeptime := sleeptime l + 5 in
       let sleeptime := if 60 <? sleeptime then 60 else sleeptime in
       let* _ := sleep sleeptime in
       ret sleeptime
     else ret (sleeptime l)) in
  let dontsleep := 0 in
  let* _ := link tmplock_buf lockfile in
  let* (r1, st1) := lstat tmplock_buf in
  if r1 <? 0 then ret (Return LOCK_ERR_GENERIC)
  else
    let* (r, st) := lstat lockfile in
    if r <? 0 then
      if 5 <? statfailed l then
        let* _ := unlink tmplock_buf in
        ret (Return LOCK_ERR_MAXRETRIES)
      else
        ret (Next (Locals (i l) (tries l) sleeptime (statfailed l + 1) dontsleep))
    else if (st_rdev st =? st_rdev st1) && (st_ino st =? st_ino st1) then
      let* _ := unlink tmplock_buf in
      ret (Return 0)
    else
      let statfailed := 0 in
      let* valid := lockfile_check_valid (Some lockfile) in
      if negb valid then
        let* r := unlink lockfile in
        let* e := errno in
        if (r <? 0) && negb (e =? ENOENT) then ret (Return LOCK_ERR_RMSTALE)
        else
          let dontsleep := 1 in
          let tries := if tries l =? 1 then tries l + 1 else tries l in
          ret (Next (Locals (i l) tries sleeptime statfailed dontsleep))
      else ret (Next (Locals (i l) (tries l) sleeptime statfailed dontsleep)).

(** [for (i = 0; i < tries && tries > 0; i++)]; [None] when the loop is
    left by its condition. *)
Fixpoint try_loop (fuel : nat) (lockfile tmplock_buf : string) (l : locals)
    : M (option Z) :=
  if (i l <? tries l) && (0 <? tries l) then
    match fuel with
    | O => fail NoFuel
    | S fuel' =>
        let* c := try_body lockfile tmplock_buf l in
        match c with
        | Return r => ret (Some r)
        | Next l' =>
            try_loop fuel' lockfile tmplock_buf
              (Locals (i l' + 1) (tries l') (sleeptime l') (statfailed l') (dontsleep l'))
        end
    end
  else ret None.

(** The loop is entered with [i = 0] and runs [tries] times, or twice when
    [tries] is 1 and is raised to 2. *)
Definition try_fuel (tries : Z) : nat := Z.to_nat (Z.max tries 2).

Definition lockfile_try_create (lockfile : option string) (pid : Z)
    (tmplock_buf : option string) (tmplock_bufsize : Z) (retries : Z) : M Z :=
  let sleeptime := 0 in
  let statfailed := 0 in
  let dontsleep := 1 in
  let tries := int_add retries 1 in
  let '(pidlen, pidbuf) := snprintf 40 (fmt_d pid +:+ String (ascii_of_nat 10) "") in
  if (pidlen <? 0) || (40 - 1 <? pidlen) then ret LOCK_ERR_GENERIC
  else
    let* (r, tmplock_buf) := tmplock_filename lockfile tmplock_buf tmplock_bufsize in
    if negb (r =? 0) then ret r
    else
      match lockfile, tmplock_buf with
      | Some lockfile, Some tmplock_buf =>
          let* fd := open tmplock_buf
                       (Z.lor (Z.lor (Z.lor O_WRONLY O_CREAT) O_EXCL) O_CLOEXEC) 420 in
          if fd <? 0 then ret LOCK_ERR_TMPLOCK
          else
            let* written := write fd (list_ascii_of_string pidbuf) pidlen in
            let* r := close fd in
            if negb (r =? 0) || negb (written =? pidlen) then
              let* _ := unlink tmplock_buf in
              ret LOCK_ERR_TMPWRITE
            else
              let* out :=
                try_loop (try_fuel tries) lockfile tmplock_buf
                  (Locals 0 tries sleeptime statfailed dontsleep) in
              match out with
              | Some r => ret r
              | None =>
                  let* _ := unlink tmplock_buf in
                  ret LOCK_ERR_MAXRETRIES
              end
      | _, _ => ret LOCK_ERR_GENERIC
      end.

(** ** [ap_lockfile_create] and [ap_lockfile_release]

    [retries] is an [unsigned int], converted to the [int] parameter of
    [lockfile_try_create].  [malloc] answers whether the buffer was
    allocated; [free] has no effect that could be observed here. *)

Definition ap_lockfile_create (lockfile : option string) (pid : Z) (retries : Z)
    : M Z :=
  match lockfile with
  | None => ret LOCK_ERR_GENERIC
  | Some path =>
      if retries =? 0 then ret LOCK_ERR_GENERIC
      else
        let tmplock_bufsize :=
          Z.of_nat (String.length path) + TMPLOCK_SUFFIX_SIZE + 1 in
        let* allocated := malloc tmplock_bufsize in
        if negb allocated then ret LOCK_ERR_GENERIC
        else
          let tmplock_buf := Some "" in
          lockfile_try_create lockfile pid tmplock_buf tmplock_bufsize (to_int retries)
  end.

Definition ap_lockfile_release (lockfile : option string) : M Z :=
  match lockfile with
  | None => ret UNLOCK_ERR_GENERIC
  | Some lockfile =>
      let* r := unlink lockfile in
      let* e := errno in
      if (r <? 0) && negb (e =? ENOENT) then ret UNLOCK_ERR_GENERIC
      else ret 0
  end.

End Program.

Arguments St {os} world trace.
Arguments world {os} s.
Arguments trace {os} s.

(** ** A concrete operating system

    One host, one file system of hard links and inodes, a clock that only
    [sleep] advances, and a table of the other processes.  No other
    process runs while the code does. *)

Module MiniFS.

Record inode := Inode {
  i_rdev : Z;
  i_atime : Z;
  i_mtime : Z;
  i_data : list ascii
}.

Record fs := Fs {
  dir : gmap string (Z * Z);       (* path to (device, inode number) *)
  inodes : gmap (Z * Z) inode;
  fds : gmap Z (Z * Z * nat);      (* descriptor to (device, inode number, offset) *)
  next_fd : Z;
  next_ino : Z;
  dev : Z;                         (* the device new files are created on *)
  clock : Z;
  pid : Z;
  procs : gmap Z bool;             (* the other processes: may we signal them? *)
  protected : gset string;         (* entries we are not allowed to remove *)
  atime_updates : bool;            (* false for a noatime mount *)
  err : Z                          (* errno *)
}.

Definition set_err (e : Z) (w : fs) : fs :=
  Fs (dir w) (inodes w) (fds w) (next_fd w) (next_ino w) (dev w) (clock w)
     (pid w) (procs w) (protected w) (atime_updates w) e.
Definition set_dir (d : gmap string (Z * Z)) (w : fs) : fs :=
  Fs d (inodes w) (fds w) (next_fd w) (next_ino w) (dev w) (clock w)
     (pid w) (procs w) (protected w) (atime_updates w) (err w).
Definition set_inodes (m : gmap (Z * Z) inode) (w : fs) : fs :=
  Fs (dir w) m (fds w) (next_fd w) (next_ino w) (dev w) (clock w)
     (pid w) (procs w) (protected w) (atime_updates w) (err w).
Definition set_fds (m : gmap Z (Z * Z * nat)) (w : fs) : fs :=
  Fs (dir w) (inodes w) m (next_fd w) (next_ino w) (dev w) (clock w)
     (pid w) (procs w) (protected w) (atime_updates w) (err w).
Definition set_next (fd ino : Z) (w : fs) : fs :=
  Fs (dir w) (inodes w) (fds w) fd ino (dev w) (clock w)
     (pid w) (procs w) (protected w) (atime_updates w) (err w).
Definition set_clock (t : Z) (w : fs) : fs :=
  Fs (dir w) (inodes w) (fds w) (next_fd w) (next_ino w) (dev w) t
     (pid w) (procs w) (protected w) (atime_updates w) (err w).

Definition failing {A} (a : A) (e : Z) (w : fs) : A * fs := (a, set_err e w).

Definition no_stat : struct_stat := Build_struct_stat 0 0 0 0 0.

Definition stat_of (f : Z * Z) (n : inode) : struct_stat :=
  Build_struct_stat (fst f) (snd f) (i_rdev n) (i_atime n) (i_mtime n).

Definition mini_open (path : string) (flags mode : Z) (w : fs) : Z * fs :=
  match dir w !! path with
  | Some f =>
      if Z.land flags O_CREAT =? 0 then
        (next_fd w,
         set_next (next_fd w + 1) (next_ino w)
           (set_fds (<[next_fd w := (f, 0%nat)]> (fds w)) w))
      else failing (-1) EEXIST w
  | None =>
      if Z.land flags O_CREAT =? 0 then failing (-1) ENOENT w
      else
        let f := (dev w, next_ino w) in
        (next_fd w,
         set_next (next_fd w + 1) (next_ino w + 1)
           (set_fds (<[next_fd w := (f, 0%nat)]> (fds w))
              (set_inodes (<[f := Inode 0 (clock w) (clock w) []]> (inodes w))
                 (set_dir (<[path := f]> (dir w)) w))))
  end.

Definition mini_write (fd : Z) (data : list ascii) (count : Z) (w : fs) : Z * fs :=
  match fds w !! fd with
  | Some (f, _) =>
      match inodes w !! f with
      | Some n =>
          let n' := Inode (i_rdev n) (i_atime n) (clock w)
                      (i_data n ++ take (Z.to_nat count) data) in
          (count, set_inodes (<[f := n']> (inodes w)) w)
      | None => failing (-1) EBADF w
      end
  | None => failing (-1) EBADF w
  end.

Definition mini_read (fd count : Z) (w : fs) : (Z * list ascii) * fs :=
  match fds w !! fd with
  | Some (f, off) =>
      match inodes w !! f with
      | Some n =>
          let bytes := take (Z.to_nat count) (drop off (i_data n)) in
          let n' := Inode (i_rdev n)
                      (if atime_updates w then clock w else i_atime n)
                      (i_mtime n) (i_data n) in
          ((Z.of_nat (length bytes), bytes),
           set_fds (<[fd := (f, (off + length bytes)%nat)]> (fds w))
             (set_inodes (<[f := n']> (inodes w)) w))
      | None => failing (-1, []) EBADF w
      end
  | None => failing (-1, []) EBADF w
  end.

Definition mini_close (fd : Z) (w : fs) : Z * fs :=
  match fds w !! fd with
  | Some _ => (0, set_fds (delete fd (fds w)) w)
  | None => failing (-1) EBADF w
  end.

Definition mini_lstat (path : string) (w : fs) : (Z * struct_stat) * fs :=
  match dir w !! path with
  | Some f =>
      match inodes w !! f with
      | Some n => ((0, stat_of f n), w)
      | None => failing (-1, no_stat) ENOENT w
      end
  | None => failing (-1, no_stat) ENOENT w
  end.

Definition mini_fstat (fd : Z) (w : fs) : (Z * struct_stat) * fs :=
  match fds w !! fd with
  | Some (f, _) =>
      match inodes w !! f with
      | Some n => ((0, stat_of f n), w)
      | None => failing (-1, no_stat) EBADF w
      end
  | None => failing (-1, no_stat) EBADF w
  end.

Definition mini_link (oldpath newpath : string) (w : fs) : Z * fs :=
  match dir w !! oldpath, dir w !! newpath with
  | None, _ => failing (-1) ENOENT w
  | Some _, Some _ => failing (-1) EEXIST w
  | Some f, None => (0, set_dir (<[newpath := f]> (dir w)) w)
  end.

Definition mini_unlink (path : string) (w : fs) : Z * fs :=
  match dir w !! path with
  | None => failing (-1) ENOENT w
  | Some _ =>
      if decide (path ∈ protected w) then failing (-1) EPERM w
      else (0, set_dir (delete path (dir w)) w)
  end.

Definition mini_kill (p sig : Z) (w : fs) : Z * fs :=
  if p =? pid w then (0, w)
  else
    match procs w !! p with
    | Some true => (0, w)
    | Some false => failing (-1) EPERM w
    | None => failing (-1) ESRCH w
    end.

Definition mini_sleep (seconds : Z) (w : fs) : Z * fs :=
  (0, set_clock (clock w + seconds) w).

Definition mini : OS := {|
  W := fs;
  sys_errno := err;
  sys_getpid := fun w => (pid w, w);
  sys_time := fun w => (clock w, w);
  sys_malloc := fun _ w => (true, w);
  sys_open := mini_open;
  sys_write := mini_write;
  sys_read := mini_read;
  sys_close := mini_close;
  sys_stat := mini_lstat;
  sys_lstat := mini_lstat;
  sys_fstat := mini_fstat;
  sys_link := mini_link;
  sys_unlink := mini_unlink;
  sys_kill := mini_kill;
  sys_sleep := mini_sleep
|}.

(** A file system that holds the given files, each with its own inode. *)
Record file := File {
  f_path : string;
  f_dev : Z;
  f_ino : Z;
  f_atime : Z;
  f_mtime : Z;
  f_data : string
}.

Definition boot (files : list file) (now self : Z) (others : list (Z * bool))
    (locked : list string) (atime : bool) : fs :=
  Fs (list_to_map ((fun f => (f_path f, (f_dev f, f_ino f))) <$> files))
     (list_to_map ((fun f => ((f_dev f, f_ino f),
                              Inode 0 (f_atime f) (f_mtime f)
                                (list_ascii_of_string (f_data f)))) <$> files))
     ∅ 3 1000 1 now self (list_to_map others) (list_to_set locked) atime 0.

Definition start (w : fs) : state mini := St (os := mini) w [].

(** The calls of a run, without their results. *)
Definition calls (s : state mini) : list call := ev_call <$> trace s.

(** What [unlink] depends on: the directory and the protected entries. *)
Definition view (w : fs) : gmap string (Z * Z) * gset string := (dir w, protected w).

End MiniFS.

(** ** Observations on runs *)

Arguments ret {os A} a.
Arguments bind {os A B} m f.
Arguments fail {os A} e.
Arguments to_int : simpl never.
Arguments to_long : simpl never.
Arguments time_add : simpl never.
Arguments int_add : simpl never.

(** [lockfile_check_valid] up to line 89: [None] when [stat] fails, else
    the reference time, the [stat] buffer and the pid. *)
Definition check_valid_front (os : OS) (lockfile : string)
    : M os (option (Z * struct_stat * Z)) :=
  bind (stat os lockfile) (fun x =>
    if fst x <? 0 then ret None
    else bind (check_valid_read os lockfile (snd x)) (fun y => ret (Some y))).

(** The calls [lockfile_check_valid] makes. *)
Definition checker_call (c : call) : bool :=
  match c with
  | Stat _ | Time | Open _ _ _ | Fstat _ | Read _ _ | Close _ | Kill _ _ => true
  | _ => false
  end.

Definition is_link (e : event) : bool :=
  match ev_call e with Link _ _ => true | _ => false end.

Definition is_sleep (e : event) : bool :=
  match ev_call e with Sleep _ => true | _ => false end.

(** Every iteration of the claim loop calls [link] once, and nothing else
    does: the iterations of a run are the [link] calls of its trace. *)
Definition iterations (t : list event) : Z :=
  Z.of_nat (length (filter (fun e => is_link e = true) t)).

Definition UINT_MAX : Z := 4294967295.

(** A computation that only makes calls satisfying [P], and that never
    runs out of fuel. *)
Definition extends {os : OS} {A : Type} (P : call -> bool) (m : M os A) : Prop :=
  forall s, exists evs,
    trace (snd (m s)) = trace s ++ evs /\
    Forall (fun e => P (ev_call e) = true) evs /\
    fst (m s) <> Fault NoFuel.

(** *** One iteration of the claim loop, as seen from outside

    [slept l] is [sleeptime] after the backoff at the head of the body;
    [iteration lockfile tmp l evs out] lists the ways through the body:
    the events [evs] it adds to the trace and what it ends in. *)

Definition slept (l : locals) : Z :=
  if dontsleep l =? 0 then
    (if 60 <? sleeptime l + 5 then 60 else sleeptime l + 5)
  else sleeptime l.

Inductive body_head (lockfile tmp : string) (l : locals) : list event -> Prop :=
| head_sleep rs rl :
    dontsleep l = 0 ->
    body_head lockfile tmp l
      [Ev (Sleep (slept l)) rs None; Ev (Link tmp lockfile) rl None]
| head_nosleep rl :
    dontsleep l <> 0 ->
    body_head lockfile tmp l [Ev (Link tmp lockfile) rl None].

Inductive iteration (lockfile tmp : string) (l : locals)
    : list event -> res ctl -> Prop :=
| it_tmp_gone hd r1 st1 :
    body_head lockfile tmp l hd -> r1 < 0 ->
    iteration lockfile tmp l
      (hd ++ [Ev (Lstat tmp) r1 (Some st1)])
      (Val (Return LOCK_ERR_GENERIC))
| it_nostat_giveup hd r1 st1 r st ru :
    body_head lockfile tmp l hd -> 0 <= r1 -> r < 0 -> 5 < statfailed l ->
    iteration lockfile tmp l
      (hd ++ [Ev (Lstat tmp) r1 (Some st1); Ev (Lstat lockfile) r (Some st);
              Ev (Unlink tmp) ru None])
      (Val (Return LOCK_ERR_MAXRETRIES))
| it_nostat_retry hd r1 st1 r st :
    body_head lockfile tmp l hd -> 0 <= r1 -> r < 0 -> statfailed l <= 5 ->
    iteration lockfile tmp l
      (hd ++ [Ev (Lstat tmp) r1 (Some st1); Ev (Lstat lockfile) r (Some st)])
      (Val (Next (Locals (i l) (tries l) (slept l) (statfailed l + 1) 0)))
| it_acquired hd r1 st1 r st ru :
    body_head lockfile tmp l hd -> 0 <= r1 -> 0 <= r ->
    st_rdev st = st_rdev st1 -> st_ino st = st_ino st1 ->
    iteration lockfile tmp l
      (hd ++ [Ev (Lstat tmp) r1 (Some st1); Ev (Lstat lockfile) r (Some st);
              Ev (Unlink tmp) ru None])
      (Val (Return 0))
| it_held hd r1 st1 r st cv :
    body_head lockfile tmp l hd -> 0 <= r1 -> 0 <= r ->
    ~ (st_rdev st = st_rdev st1 /\ st_ino st = st_ino st1) ->
    Forall (fun e => checker_call (ev_call e) = true) cv ->
    iteration lockfile tmp l
      (hd ++ [Ev (Lstat tmp) r1 (Some st1); Ev (Lstat lockfile) r (Some st)] ++ cv)
      (Val (Next (Locals (i l) (tries l) (slept l) 0 0)))
| it_check_fault hd r1 st1 r st cv f :
    body_head lockfile tmp l hd -> 0 <= r1 -> 0 <= r ->
    ~ (st_rdev st = st_rdev st1 /\ st_ino st = st_ino st1) ->
    Forall (fun e => checker_call (ev_call e) = true) cv ->
    f <> NoFuel ->
    iteration lockfile tmp l
      (hd ++ [Ev (Lstat tmp) r1 (Some st1); Ev (Lstat lockfile) r (Some st)] ++ cv)
      (Fault f)
| it_rmstale hd r1 st1 r st cv ru :
    body_head lockfile tmp l hd -> 0 <= r1 -> 0 <= r ->
    ~ (st_rdev st = st_rdev st1 /\ st_ino st = st_ino st1) ->
    Forall (fun e => checker_call (ev_call e) = true) cv ->
    ru < 0 ->
    iteration lockfile tmp l
      (hd ++ [Ev (Lstat tmp) r1 (Some st1); Ev (Lstat lockfile) r (Some st)] ++ cv
          ++ [Ev (Unlink lockfile) ru None])
      (Val (Return LOCK_ERR_RMSTALE))
| it_reclaimed hd r1 st1 r st cv ru :
    body_head lockfile tmp l hd -> 0 <= r1 -> 0 <= r ->
    ~ (st_rdev st = st_rdev st1 /\ st_ino st = st_ino st1) ->
    Forall (fun e => checker_call (ev_call e) = true) cv ->
    iteration lockfile tmp l
      (hd ++ [Ev (Lstat tmp) r1 (Some st1); Ev (Lstat lockfile) r (Some st)] ++ cv
          ++ [Ev (Unlink lockfile) ru None])
      (Val (Next (Locals (i l) (if tries l =? 1 then tries l + 1 else tries l)
                         (slept l) 0 1))).

(** [i++] *)
Definition incr (l : locals) : locals :=
  Locals (i l + 1) (tries l) (sleeptime l) (statfailed l) (dontsleep l).

(** The iterations the loop can still make from [l]. *)
Definition remaining (l : locals) : Z :=
  Z.max 0 ((if tries l =? 1 then 2 else tries l) - i l).

(** *** The claim loop, as seen from outside *)

Definition guard (l : locals) : Prop := i l < tries l /\ 0 < tries l.

Inductive loop_run (lockfile tmp : string) : locals -> list event -> res (option Z) -> Prop :=
| run_exit l :
    ~ guard l ->
    loop_run lockfile tmp l [] (Val None)
| run_return l evs v :
    guard l -> iteration lockfile tmp l evs (Val (Return v)) ->
    loop_run lockfile tmp l evs (Val (Some v))
| run_fault l evs f :
    guard l -> iteration lockfile tmp l evs (Fault f) ->
    loop_run lockfile tmp l evs (Fault f)
| run_next l evs l' evs' out :
    guard l -> iteration lockfile tmp l evs (Val (Next l')) ->
    loop_run lockfile tmp (incr l') evs' out ->
    loop_run lockfile tmp l (evs ++ evs') out.

(** A trace that ends in the confirmation of ownership: the two [lstat]
    calls succeed and agree on [st_rdev] and [st_ino], and the temporary
    file is removed. *)
Definition ends_confirmed (lockfile tmp : string) (evs : list event) : Prop :=
  exists pre r1 st1 r st ru,
    evs = pre ++ [Ev (Lstat tmp) r1 (Some st1); Ev (Lstat lockfile) r (Some st);
                  Ev (Unlink tmp) ru None] /\
    0 <= r1 /\ 0 <= r /\ st_rdev st = st_rdev st1 /\ st_ino st = st_ino st1.

Definition ends_with (c : call) (evs : list event) : Prop :=
  exists pre r, evs = pre ++ [Ev c r None].

(** *** [lockfile_try_create], as seen from outside *)

(** The loop is entered with these locals. *)
Definition entry (tries : Z) : locals := Locals 0 tries 0 0 1.

(** The calls that create the temporary file. *)
Definition setup (tmp : string) (pre : list event) : Prop :=
  exists rp rt flags fd data n rw rc,
    pre = [Ev Getpid rp None; Ev Time rt None; Ev (Open tmp flags 420) fd None;
           Ev (Write fd data n) rw None; Ev (Close fd) rc None].

Inductive create_run (lockfile : option string) (tries : Z)
    : list event -> res Z -> Prop :=
| cr_generic evs :
    Forall (fun e => ev_call e = Getpid \/ ev_call e = Time) evs ->
    create_run lockfile tries evs (Val LOCK_ERR_GENERIC)
| cr_tmplock tmp rp rt flags fd :
    fd < 0 ->
    create_run lockfile tries
      [Ev Getpid rp None; Ev Time rt None; Ev (Open tmp flags 420) fd None]
      (Val LOCK_ERR_TMPLOCK)
| cr_tmpwrite tmp pre ru :
    setup tmp pre ->
    create_run lockfile tries (pre ++ [Ev (Unlink tmp) ru None]) (Val LOCK_ERR_TMPWRITE)
| cr_returned lf tmp pre evs v :
    lockfile = Some lf -> setup tmp pre ->
    loop_run lf tmp (entry tries) evs (Val (Some v)) ->
    create_run lockfile tries (pre ++ evs) (Val v)
| cr_exhausted lf tmp pre evs ru :
    lockfile = Some lf -> setup tmp pre ->
    loop_run lf tmp (entry tries) evs (Val None) ->
    create_run lockfile tries (pre ++ evs ++ [Ev (Unlink tmp) ru None])
      (Val LOCK_ERR_MAXRETRIES)
| cr_fault lf tmp pre evs f :
    lockfile = Some lf -> setup tmp pre ->
    loop_run lf tmp (entry tries) evs (Fault f) ->
    create_run lockfile tries (pre ++ evs) (Fault f).

(** *** Further observations *)

(** The record written to the temporary file, line 132: ["%d\n"]. *)
Definition pid_record (pid : Z) : string :=
  fmt_d pid +:+ String (ascii_of_nat 10) "".

(** What lines 84 to 88 make of the bytes [read] returned. *)
Definition parse_record (data : list ascii) : option Z :=
  match buf_store (buf_fill (take 16 data) (replicate 16 None))
          (Z.of_nat (length data)) NUL with
  | Some buf => atoi <$> buf_string buf
  | None => None
  end.

(** The seconds slept, in order. *)
Definition sleeps (t : list event) : list Z :=
  omap (fun e => match ev_call e with Sleep n => Some n | _ => None end) t.

(** The linear backoff: 5, 10, ..., 55, 60, 60, ... *)
Definition backoff (k : nat) : Z := Z.min (5 * Z.of_nat k) 60.

Definition schedule (from n : nat) : list Z := backoff <$> seq from n.

Definition total (l : list Z) : Z := foldr Z.add 0 l.

(** Every descriptor that [open] returned is closed later on. *)
Definition is_close (fd : Z) (e : event) : bool :=
  match ev_call e with Close fd' => fd' =? fd | _ => false end.

Fixpoint leak_free (t : list event) : bool :=
  match t with
  | [] => true
  | e :: t' =>
      match ev_call e with
      | Open _ _ _ => (ev_ret e <? 0) || existsb (is_close (ev_ret e)) t'
      | _ => true
      end && leak_free t'
  end.

(** A computation whose events satisfy [P]. *)
Definition emits {os : OS} {A : Type} (P : list event -> Prop) (m : M os A) : Prop :=
  forall s, exists evs, trace (snd (m s)) = trace s ++ evs /\ P evs.

(** The calls [lockfile_check_valid] may make on [lockfile]: it reads, and
    it probes with signal 0 a process, never a process group. *)
Definition probe_call (lockfile : string) (c : call) : bool :=
  match c with
  | Stat p => String.eqb p lockfile
  | Time => true
  | Open p flags _ => String.eqb p lockfile && (flags =? O_RDONLY)
  | Fstat _ => true
  | Read _ n => n =? 16
  | Close _ => true
  | Kill pid sig => (0 <? pid) && (sig =? 0)
  | _ => false
  end.

(** The calls a run of [ap_lockfile_create] may make for [lockfile] when
    its temporary file is [tmp] and its pid record is [record]: beside
    the probes of [lockfile_check_valid], the exclusive creation of
    [tmp], the write of the record, [link] from [tmp] to [lockfile],
    [lstat] and [unlink] of the two paths. *)
Definition own_call (lockfile tmp : string) (record : list ascii) (c : call) : Prop :=
  match c with
  | Getpid | Malloc _ | Sleep _ => True
  | Open p flags mode =>
      (p = tmp /\ flags = Z.lor (Z.lor (Z.lor O_WRONLY O_CREAT) O_EXCL) O_CLOEXEC /\
       mode = 420) \/
      probe_call lockfile c = true
  | Write _ data count => data = record /\ count = Z.of_nat (length record)
  | Lstat p => p = tmp \/ p = lockfile
  | Link oldpath newpath => oldpath = tmp /\ newpath = lockfile
  | Unlink p => p = tmp \/ p = lockfile
  | _ => probe_call lockfile c = true
  end.

(** A probe that found the process: [kill] returned 0. *)
Definition alive (e : event) : bool :=
  match ev_call e with Kill _ _ => ev_ret e =? 0 | _ => false end.

Definition removes (path : string) (e : event) : bool :=
  match ev_call e with Unlink p => String.eqb p path | _ => false end.

(** No probe that found the process is followed at once by the removal
    of [lockfile]. *)
Fixpoint spares_live (lockfile : string) (t : list event) : bool :=
  match t with
  | e :: t' =>
      match t' with
      | e' :: _ => negb (alive e && removes lockfile e')
      | [] => true
      end && spares_live lockfile t'
  | [] => true
  end.

(** [spares_live], for a piece of a trace that does not start with the
    removal. *)
Definition sparing (lockfile : string) (t : list event) : Prop :=
  spares_live lockfile t = true /\
  forall e, head t = Some e -> removes lockfile e = false.

(** [lstat] of [path] never fails more than seven times in a row; [cur]
    is the number of failures in a row so far, [streak_after] what it is
    after [t]. *)
Fixpoint streak_ok (path : string) (cur : Z) (t : list event) : bool :=
  match t with
  | [] => true
  | e :: t' =>
      match ev_call e with
      | Lstat p =>
          if String.eqb p path then
            if ev_ret e <? 0 then (cur <? 7) && streak_ok path (cur + 1) t'
            else streak_ok path 0 t'
          else streak_ok path cur t'
      | _ => streak_ok path cur t'
      end
  end.

Fixpoint streak_after (path : string) (cur : Z) (t : list event) : Z :=
  match t with
  | [] => cur
  | e :: t' =>
      match ev_call e with
      | Lstat p =>
          if String.eqb p path then
            if ev_ret e <? 0 then streak_after path (cur + 1) t'
            else streak_after path 0 t'
          else streak_after path cur t'
      | _ => streak_after path cur t'
      end
  end.

Definition lstat_on (path : string) (e : event) : bool :=
  match ev_call e with Lstat p => String.eqb p path | _ => false end.

(** A file system of hard links in which [lockfile] is the file [g] that
    holds the record of process [q], and [tmp] is the file [f] with the
    inode [nf]. *)
Definition names (lockfile tmp : string) (g f : Z * Z) (nf : MiniFS.inode) (q : Z)
    (w : MiniFS.fs) : Prop :=
  MiniFS.dir w !! lockfile = Some g /\
  MiniFS.dir w !! tmp = Some f /\
  (exists ng, MiniFS.inodes w !! g = Some ng /\
     MiniFS.i_data ng = list_ascii_of_string (pid_record q)) /\
  MiniFS.inodes w !! f = Some nf /\
  0 <= MiniFS.next_fd w.

(** Whether [kill(q, 0)] finds a process: it returns 0, or fails with
    EPERM. *)
Definition probes (q : Z) (w : MiniFS.fs) : bool :=
  (q =? MiniFS.pid w) ||
  match MiniFS.procs w !! q with Some _ => true | None => false end.

(** ** Scenarios

    Process 4242 wants the lock "/run/lock/ap". *)

Module Scenario.
Import MiniFS.

Definition lock : string := "/run/lock/ap".
Definition LF : string := String (ascii_of_nat 10) "".

(** Nothing holds the lock. *)
Definition free : fs := boot [] 100 4242 [] [] true.

(** The lock is held by the running process 77. *)
Definition held : fs :=
  boot [File lock 1 7 50 50 ("77" +:+ LF)] 100 4242 [(77, true)] [] true.

(** The lock is held by process 77 of another user: [kill] is refused. *)
Definition foreign : fs :=
  boot [File lock 1 7 50 50 ("77" +:+ LF)] 100 4242 [(77, false)] [] true.

(** The lock names process 88, which is gone. *)
Definition dead : fs :=
  boot [File lock 1 7 50 50 ("88" +:+ LF)] 100 4242 [] [] true.

(** The same, in a directory where we may not remove the entry. *)
Definition sticky : fs :=
  boot [File lock 1 7 50 50 ("88" +:+ LF)] 100 4242 [] [lock] true.

(** An empty lock file written 297 seconds ago, on a noatime mount. *)
Definition aging : fs := boot [File lock 1 7 1000 1000 ""] 1297 4242 [] [] false.

(** An empty lock file written 10 seconds ago, and one 301 seconds ago. *)
Definition fresh10 : fs := boot [File lock 1 7 1000 1000 ""] 1010 4242 [] [] false.
Definition old301 : fs := boot [File lock 1 7 1000 1000 ""] 1301 4242 [] [] false.

(** The empty lock file written 301 seconds ago, where reading updates
    the access time. *)
Definition lapsed : fs := boot [File lock 1 7 1000 1000 ""] 1301 4242 [] [] true.

(** An empty lock file written at 1000 and last read at 1200; it is now
    1400 and reading updates the access time. *)
Definition reread : fs := boot [File lock 1 7 1200 1000 ""] 1400 4242 [] [] true.

(** A lock file of sixteen bytes. *)
Definition sixteen : fs :=
  boot [File lock 1 7 50 50 "1234567890123456"] 100 4242 [] [] true.

(** The lock path is an entry of another device (a file mounted over it, or
    a lower layer of a union mount) whose inode number, 1000, is the one
    the next file created beside it receives; process 77 holds it. *)
Definition twin : fs :=
  boot [File lock 2 1000 50 50 ("77" +:+ LF)] 100 4242 [(77, true)] [] true.

(** Nothing holds the lock; our process id has seven digits, as Linux
    allows (pid_max up to 4194304). *)
Definition bigpid : fs := boot [] 27 4194303 [] [] true.

(** Process 88 is gone, and our temporary file is in place. *)
Definition claiming : fs :=
  boot [File lock 1 7 50 50 ("88" +:+ LF);
        File "/run/lock/ap.lk042424" 1 8 100 100 ("4242" +:+ LF)]
       100 4242 [] [] true.

End Scenario.

(** * Properties *)

(** ** Running the monad *)

Ltac mred :=
  cbv beta iota zeta delta
    [bind ret fail syscall errno getpid time malloc open write read close stat
     lstat fstat link unlink kill sleep id plain with_stat];
  cbn [world trace fst snd].

(** ** Integers and strings *)

Lemma to_int_small (z : Z) : INT_MIN <= z <= INT_MAX -> to_int z = z.
Proof.
  unfold to_int, INT_MIN, INT_MAX. intros H.
  rewrite Z.mod_small by lia. lia.
Qed.

Lemma to_long_small (z : Z) : LONG_MIN <= z <= LONG_MAX -> to_long z = z.
Proof.
  unfold to_long, LONG_MIN, LONG_MAX. intros H.
  rewrite Z.mod_small by lia. lia.
Qed.

Lemma to_int_range (z : Z) : INT_MIN <= to_int z <= INT_MAX.
Proof.
  unfold to_int, INT_MIN, INT_MAX.
  pose proof (Z.mod_pos_bound (z + 2 ^ 31) (2 ^ 32) ltac:(lia)). lia.
Qed.

(** The last character of the temporary name is the hexadecimal digit of
    the time modulo 16. *)
Lemma time_digit_mod16 (now : Z) : Z.land (to_int now) 15 = now mod 16.
Proof.
  change 15 with (Z.ones 4). rewrite Z.land_ones by lia.
  unfold to_int. change (2 ^ 4) with 16.
  Z.to_euclidean_division_equations. lia.
Qed.

Lemma substring_all (s : string) (n : nat) :
  (String.length s <= n)%nat -> substring 0 n s = s.
Proof.
  revert n. induction s as [|c s IH]; intros [|n] H; simpl in *; try lia; auto.
  f_equal. apply IH. lia.
Qed.

Lemma substring_length (s : string) (n : nat) :
  String.length (substring 0 n s) = Nat.min n (String.length s).
Proof.
  revert n. induction s as [|c s IH]; intros [|n]; simpl; auto.
Qed.

(** ** [tmplock_filename] *)

Example tmplock_name_ex : tmplock_name "/run/lock/ap" 4242 100 = "/run/lock/ap.lk042424".
Proof. reflexivity. Qed.

(** A process id of more than five digits is printed in full. *)
Example tmplock_name_long_pid :
  tmplock_name "/run/lock/ap" 4194303 27 = "/run/lock/ap.lk4194303b".
Proof. reflexivity. Qed.

Lemma tmplock_filename_run (os : OS) (lockfile buf : string) (size : Z) (s : state os) :
  size <> 0 ->
  let pid := fst (sys_getpid os (world s)) in
  let now := fst (sys_time os (snd (sys_getpid os (world s)))) in
  let name := tmplock_name lockfile pid now in
  fst (tmplock_filename os (Some lockfile) (Some buf) size s) =
    Val (if INT_MAX <? Z.of_nat (String.length name) then LOCK_ERR_GENERIC else 0,
         Some (substring 0 (Z.to_nat (size - 1)) name)).
Proof.
  intros Hsize pid now name. unfold tmplock_filename.
  destruct (Z.eqb_spec size 0) as [|_]; [contradiction|].
  unfold bind, getpid, time, syscall, snprintf. subst name now pid.
  destruct (sys_getpid os (world s)) as [pid w1]; simpl.
  destruct (sys_time os w1) as [now w2]; simpl.
  destruct (INT_MAX <? _) eqn:E; simpl; [reflexivity|].
  destruct (Z.ltb_spec (Z.of_nat (String.length (tmplock_name lockfile pid now))) 0);
    [lia | reflexivity].
Qed.

(** The only failures: a null pointer, an empty buffer, or a name whose
    length is no [int]. *)
Lemma tmplock_filename_generic (os : OS) (lockfile buf : option string) (size : Z)
    (s : state os) :
  lockfile = None \/ buf = None \/ size = 0 ->
  fst (tmplock_filename os lockfile buf size s) = Val (LOCK_ERR_GENERIC, buf).
Proof.
  intros H. unfold tmplock_filename.
  destruct lockfile as [l|], buf as [b|]; try reflexivity.
  destruct H as [H|[H|H]]; try discriminate. subst size. reflexivity.
Qed.

(** What the code does for a buffer of at least one byte: it returns
    success with the first [size - 1] characters of the name, which is
    the full name exactly when the name is shorter than the buffer. *)
Lemma tmplock_filename_cuts (os : OS) (lockfile buf : string) (size : Z)
    (s : state os) :
  let pid := fst (sys_getpid os (world s)) in
  let now := fst (sys_time os (snd (sys_getpid os (world s)))) in
  let name := tmplock_name lockfile pid now in
  0 < size ->
  Z.of_nat (String.length name) <= INT_MAX ->
  exists out,
    fst (tmplock_filename os (Some lockfile) (Some buf) size s) = Val (0, Some out) /\
    out = substring 0 (Z.to_nat (size - 1)) name /\
    (Z.of_nat (String.length name) < size -> out = name) /\
    (size <= Z.of_nat (String.length name) ->
     Z.of_nat (String.length out) = size - 1 /\ out <> name).
Proof.
  intros pid now name Hsize Hlen.
  exists (substring 0 (Z.to_nat (size - 1)) name). split; [|split; [reflexivity|split]].
  - pose proof (tmplock_filename_run os lockfile buf size s ltac:(lia)) as H.
    cbv zeta in H. fold pid now name in H. rewrite H.
    destruct (Z.ltb_spec INT_MAX (Z.of_nat (String.length name))); [lia|reflexivity].
  - intros Hfit. apply substring_all. lia.
  - intros Hbig.
    assert (Hl : Z.of_nat (String.length (substring 0 (Z.to_nat (size - 1)) name)) = size - 1).
    { rewrite substring_length. lia. }
    split; [exact Hl|]. intros Heq. rewrite Heq in Hl. lia.
Qed.

Example tmplock_filename_fits :
  fst (tmplock_filename MiniFS.mini (Some Scenario.lock) (Some "") 22
         (MiniFS.start Scenario.free))
  = Val (0, Some "/run/lock/ap.lk042424").
Proof. vm_compute. reflexivity. Qed.

(** C8 asks that [tmplock_filename] either produce the full name or
    return LOCK_ERR_GENERIC, and never succeed with a truncated name, as
    the [snprintf] into [pidbuf] at line 133 is checked to do.  The code
    departs from it: for process 4194303 the name has 23 characters,
    [ap_lockfile_create] provides 22 bytes, and the call succeeds with
    the name cut to 21 characters, under which the temporary file is
    then created. *)
Lemma tmplock_filename_truncated :
  let s := MiniFS.start Scenario.bigpid in
  tmplock_name Scenario.lock 4194303 27 = "/run/lock/ap.lk4194303b" /\
  Z.of_nat (String.length Scenario.lock) + TMPLOCK_SUFFIX_SIZE + 1 = 22 /\
  fst (tmplock_filename MiniFS.mini (Some Scenario.lock) (Some "") 22 s)
    = Val (0, Some "/run/lock/ap.lk419430") /\
  fst (ap_lockfile_create MiniFS.mini (Some Scenario.lock) 4194303 1 s) = Val 0 /\
  In (Open "/run/lock/ap.lk419430" 524481 420)
     (MiniFS.calls (snd (ap_lockfile_create MiniFS.mini (Some Scenario.lock) 4194303 1 s))).
Proof.
  cbv zeta. repeat split; try (vm_compute; reflexivity).
  vm_compute. do 3 right. left. reflexivity.
Qed.

(** ** [lockfile_check_valid] *)

Lemma check_valid_split (os : OS) (lockfile : string) (s : state os) :
  lockfile_check_valid os (Some lockfile) s =
  bind (check_valid_front os lockfile) (fun x =>
    match x with
    | None => ret false
    | Some (now, st, pid) => check_valid_decide os now st pid
    end) s.
Proof.
  unfold lockfile_check_valid, check_valid_front, bind, stat, syscall.
  destruct (sys_stat os lockfile (world s)) as [[r st] w]; simpl.
  destruct (r <? 0); [reflexivity|].
  destruct (check_valid_read os lockfile st _) as [[[[now st'] pid]|f] s']; reflexivity.
Qed.

Lemma check_valid_decide_run (os : OS) (now : Z) (st : struct_stat) (pid : Z)
    (s : state os) :
  let r := fst (sys_kill os pid 0 (world s)) in
  let e := sys_errno os (snd (sys_kill os pid 0 (world s))) in
  fst (check_valid_decide os now st pid s) =
  Val (if 0 <? pid then
         if (r =? 0) || ((r <? 0) && (e =? EPERM)) then true
         else if (r <? 0) && (e =? ESRCH) then false
         else now <? time_add (st_mtime st) 300
       else now <? time_add (st_mtime st) 300).
Proof.
  unfold check_valid_decide, bind, kill, errno, syscall, ret.
  destruct (0 <? pid); [|reflexivity].
  destruct (sys_kill os pid 0 (world s)) as [r w]; simpl.
  destruct ((r =? 0) || _); [reflexivity|].
  destruct ((r <? 0) && _); reflexivity.
Qed.

Lemma check_valid_after_front (os : OS) (lockfile : string) (s : state os)
    (now : Z) (st : struct_stat) (pid : Z) :
  fst (check_valid_front os lockfile s) = Val (Some (now, st, pid)) ->
  let s2 := snd (check_valid_front os lockfile s) in
  let r := fst (sys_kill os pid 0 (world s2)) in
  let e := sys_errno os (snd (sys_kill os pid 0 (world s2))) in
  fst (lockfile_check_valid os (Some lockfile) s) =
  Val (if 0 <? pid then
         if (r =? 0) || ((r <? 0) && (e =? EPERM)) then true
         else if (r <? 0) && (e =? ESRCH) then false
         else now <? time_add (st_mtime st) 300
       else now <? time_add (st_mtime st) 300).
Proof.
  intros Hfront s2 r e. rewrite check_valid_split. unfold bind at 1.
  subst r e s2. destruct (check_valid_front os lockfile s) as [x s2].
  simpl in Hfront. subst x. apply check_valid_decide_run.
Qed.

Lemma probe_cases (r e : Z) :
  ((r =? 0) || ((r <? 0) && (e =? EPERM)) = true <-> r = 0 \/ (r < 0 /\ e = EPERM)) /\
  ((r <? 0) && (e =? ESRCH) = true <-> r < 0 /\ e = ESRCH).
Proof.
  rewrite orb_true_iff, !andb_true_iff, !Z.eqb_eq, !Z.ltb_lt. tauto.
Qed.

(** C4: when a positive pid was read from the lock file, a probe that
    succeeds or is refused with EPERM makes the lock valid, a probe that
    fails with ESRCH makes it stale, and every other outcome of the probe
    leaves the decision to the age of the file. *)
Theorem check_valid_probe (os : OS) (lockfile : string) (s : state os)
    (now : Z) (st : struct_stat) (pid : Z) :
  fst (check_valid_front os lockfile s) = Val (Some (now, st, pid)) ->
  0 < pid ->
  let s2 := snd (check_valid_front os lockfile s) in
  let r := fst (sys_kill os pid 0 (world s2)) in
  let e := sys_errno os (snd (sys_kill os pid 0 (world s2))) in
  let valid := fst (lockfile_check_valid os (Some lockfile) s) in
  (r = 0 \/ (r < 0 /\ e = EPERM) -> valid = Val true) /\
  (r < 0 /\ e = ESRCH -> valid = Val false) /\
  (~ (r = 0 \/ (r < 0 /\ e = EPERM)) -> ~ (r < 0 /\ e = ESRCH) ->
   valid = Val (now <? time_add (st_mtime st) 300)).
Proof.
  intros Hfront Hpid s2 r e valid.
  pose proof (check_valid_after_front os lockfile s now st pid Hfront) as Hv.
  cbv zeta in Hv. fold s2 in Hv. fold r e valid in Hv. rewrite Hv.
  destruct (Z.ltb_spec 0 pid); [|lia].
  destruct (probe_cases r e) as [Hlive Hdead].
  destruct ((r =? 0) || ((r <? 0) && (e =? EPERM))) eqn:E1;
    destruct ((r <? 0) && (e =? ESRCH)) eqn:E2; repeat split; intros;
    try reflexivity;
    repeat match goal with
           | H : true = true <-> _ |- _ => apply proj1 in H; specialize (H eq_refl)
           | H : false = true <-> _ |- _ => apply proj2 in H
           end;
    try tauto; try (exfalso; unfold EPERM, ESRCH in *; lia);
    try (exfalso; assert (false = true) by tauto; discriminate).
Qed.

Lemma check_valid_probe_witness :
  fst (lockfile_check_valid MiniFS.mini (Some Scenario.lock) (MiniFS.start Scenario.held))
    = Val true /\
  fst (lockfile_check_valid MiniFS.mini (Some Scenario.lock) (MiniFS.start Scenario.foreign))
    = Val true /\
  fst (lockfile_check_valid MiniFS.mini (Some Scenario.lock) (MiniFS.start Scenario.dead))
    = Val false.
Proof.
  split; [|split].
  - epose proof (check_valid_probe MiniFS.mini Scenario.lock
                   (MiniFS.start Scenario.held) _ _ 77
                   ltac:(vm_compute; reflexivity) ltac:(reflexivity)) as H.
    cbv zeta in H. destruct H as (H & _ & _).
    refine (H _). left. vm_compute. reflexivity.
  - epose proof (check_valid_probe MiniFS.mini Scenario.lock
                   (MiniFS.start Scenario.foreign) _ _ 77
                   ltac:(vm_compute; reflexivity) ltac:(reflexivity)) as H.
    cbv zeta in H. destruct H as (H & _ & _).
    refine (H _). right. split; vm_compute; reflexivity.
  - epose proof (check_valid_probe MiniFS.mini Scenario.lock
                   (MiniFS.start Scenario.dead) _ _ 88
                   ltac:(vm_compute; reflexivity) ltac:(reflexivity)) as H.
    cbv zeta in H. destruct H as (_ & H & _).
    refine (H _). split; vm_compute; reflexivity.
Defined.

(** The age rule, relative to the reference time that the code has
    computed: when no positive pid was read, or the probe decided
    nothing, the lock is valid exactly when it was modified less than 300
    seconds before that time. *)
Lemma check_valid_age (os : OS) (lockfile : string) (s : state os)
    (now : Z) (st : struct_stat) (pid : Z) :
  fst (check_valid_front os lockfile s) = Val (Some (now, st, pid)) ->
  LONG_MIN <= st_mtime st + 300 <= LONG_MAX ->
  let s2 := snd (check_valid_front os lockfile s) in
  let r := fst (sys_kill os pid 0 (world s2)) in
  let e := sys_errno os (snd (sys_kill os pid 0 (world s2))) in
  pid <= 0 \/ (~ (r = 0 \/ (r < 0 /\ e = EPERM)) /\ ~ (r < 0 /\ e = ESRCH)) ->
  exists valid : bool,
    fst (lockfile_check_valid os (Some lockfile) s) = Val valid /\
    (valid = true <-> now - st_mtime st < 300) /\
    (300 < now - st_mtime st -> valid = false) /\
    (now - st_mtime st = 10 -> valid = true).
Proof.
  intros Hfront Hrange s2 r e Hcase.
  assert (Hv : fst (lockfile_check_valid os (Some lockfile) s) =
               Val (now <? st_mtime st + 300)).
  { rewrite <- (to_long_small _ Hrange). change (to_long (st_mtime st + 300))
      with (time_add (st_mtime st) 300).
    pose proof (check_valid_after_front os lockfile s now st pid Hfront) as Hv.
    cbv zeta in Hv. fold s2 in Hv. fold r e in Hv. rewrite Hv.
    destruct (Z.ltb_spec 0 pid); [|reflexivity].
    destruct Hcase as [?|[H1 H2]]; [lia|].
    destruct (probe_cases r e) as [Hlive Hdead].
    destruct ((r =? 0) || ((r <? 0) && (e =? EPERM))); [tauto|].
    destruct ((r <? 0) && (e =? ESRCH)); [tauto|reflexivity]. }
  exists (now <? st_mtime st + 300). split; [exact Hv|].
  destruct (Z.ltb_spec now (st_mtime st + 300)); repeat split; intros; try lia; try reflexivity.
Qed.

Lemma check_valid_age_witness :
  fst (lockfile_check_valid MiniFS.mini (Some Scenario.lock) (MiniFS.start Scenario.fresh10))
    = Val true /\
  fst (lockfile_check_valid MiniFS.mini (Some Scenario.lock) (MiniFS.start Scenario.old301))
    = Val false.
Proof.
  split.
  - epose proof (check_valid_age MiniFS.mini Scenario.lock
                   (MiniFS.start Scenario.fresh10) 1010 (Build_struct_stat 1 7 0 1000 1000) 0
                   ltac:(vm_compute; reflexivity)
                   ltac:(vm_compute; split; discriminate)) as H.
    cbv zeta in H. destruct H as (v & Hv & _ & _ & H10); [left; lia|].
    rewrite Hv, H10; reflexivity.
  - epose proof (check_valid_age MiniFS.mini Scenario.lock
                   (MiniFS.start Scenario.old301) 1301 (Build_struct_stat 1 7 0 1000 1000) 0
                   ltac:(vm_compute; reflexivity)
                   ltac:(vm_compute; split; discriminate)) as H.
    cbv zeta in H. destruct H as (v & Hv & _ & H301 & _); [left; lia|].
    rewrite Hv, H301; [reflexivity | vm_compute; reflexivity].
Defined.

Lemma buf_fill_length (data : list ascii) (buf : list (option ascii)) :
  (length data <= length buf)%nat -> length (buf_fill data buf) = length buf.
Proof.
  intros H. unfold buf_fill.
  rewrite length_app, length_fmap, length_drop. lia.
Qed.

(** The store of line 86 is inside [buf] for the indices 0 to 15 only. *)
Lemma buf_store_defined (buf : list (option ascii)) (len : Z) (c : ascii) :
  length buf = 16%nat ->
  (is_Some (buf_store buf len c) <-> 0 <= len <= 15).
Proof.
  intros Hlen. unfold buf_store. rewrite Hlen.
  destruct (Z.leb_spec 0 len) as [Ha|Ha], (Z.ltb_spec len (Z.of_nat 16)) as [Hb|Hb];
    cbv beta iota delta [andb];
    split; intros H; try lia; try (eexists; reflexivity);
    destruct H as [? H]; discriminate.
Qed.

(** Whenever the access time changed over the read, the reference time is
    the access time found before the read. *)
Lemma check_valid_read_now (os : OS) (lockfile : string) (st0 : struct_stat)
    (s : state os) t w1 fd w2 st1 w3 len data w4 st2 w5 :
  sys_time os (world s) = (t, w1) ->
  sys_open os lockfile O_RDONLY 0 w1 = (fd, w2) -> 0 <= fd ->
  sys_fstat os fd w2 = ((0, st1), w3) ->
  sys_read os fd 16 w3 = ((len, data), w4) -> 0 <= len ->
  sys_fstat os fd w4 = ((0, st2), w5) ->
  st_atime st1 <> st_atime st2 ->
  forall now st pid s',
    check_valid_read os lockfile st0 s = (Val (now, st, pid), s') ->
    now = st_atime st1 /\ now <> st_atime st2.
Proof.
  intros Ht Ho Hfd Hf1 Hr Hlen Hf2 Hne now st pid s'.
  unfold check_valid_read. mred. rewrite Ht. mred. rewrite Ho. mred.
  destruct (Z.leb_spec 0 fd); [|lia]. mred.
  rewrite Hf1. mred. change (0 =? 0) with true. mred. rewrite Hr. mred.
  destruct (Z.leb_spec 0 len); [|lia]. mred.
  rewrite Hf2. mred. change (0 =? 0) with true.
  destruct (Z.eqb_spec (st_atime st1) (st_atime st2)); [contradiction|].
  cbv beta iota delta [negb andb]. mred.
  destruct (sys_close os fd w5) as [rc w6]. mred.
  destruct (0 <? len).
  - destruct (buf_store _ len NUL); [|discriminate].
    destruct (buf_string _); [|discriminate].
    intros [= <- _ _ _]. auto.
  - intros [= <- _ _ _]. auto.
Qed.

(** Whenever [read] fills the sixteen bytes, the store of the NUL is
    undefined. *)
Lemma check_valid_read_full (os : OS) (lockfile : string) (st0 : struct_stat)
    (s : state os) t w1 fd w2 st1 w3 len data w4 :
  sys_time os (world s) = (t, w1) ->
  sys_open os lockfile O_RDONLY 0 w1 = (fd, w2) -> 0 <= fd ->
  sys_fstat os fd w2 = ((0, st1), w3) ->
  sys_read os fd 16 w3 = ((len, data), w4) -> 16 <= len ->
  fst (check_valid_read os lockfile st0 s) = Fault OutOfBounds.
Proof.
  intros Ht Ho Hfd Hf1 Hr Hlen.
  unfold check_valid_read. mred. rewrite Ht. mred. rewrite Ho. mred.
  destruct (Z.leb_spec 0 fd); [|lia]. mred.
  rewrite Hf1. mred. change (0 =? 0) with true. mred. rewrite Hr. mred.
  destruct (Z.leb_spec 0 len); [|lia]. mred.
  destruct (sys_fstat os fd w4) as [[r2 st2] w5]. mred.
  assert (Hstore : buf_store (buf_fill (take 16 data) (replicate 16 None)) len NUL = None).
  { destruct (buf_store _ len NUL) eqn:E; [|reflexivity].
    assert (is_Some (buf_store (buf_fill (take 16 data) (replicate 16 None)) len NUL))
      as Hs by (rewrite E; eauto).
    apply buf_store_defined in Hs; [lia|].
    rewrite buf_fill_length; rewrite ?length_replicate, ?length_take; lia. }
  destruct ((r2 =? 0) && _); mred;
    destruct (sys_close os fd w5) as [rc w6]; mred;
    (destruct (Z.ltb_spec 0 len); [|lia]); rewrite Hstore; reflexivity.
Qed.

(** With an empty lock file on a file system that updates the access
    time, the verdict compares the access time from before the read with
    the modification time: neither the clock nor the access time after
    the read takes part. *)
Lemma check_valid_age_reference (os : OS) (lockfile : string) (s : state os)
    r0 st0 w0 t w1 fd w2 st1 w3 data w4 st2 w5 :
  sys_stat os lockfile (world s) = ((r0, st0), w0) -> 0 <= r0 ->
  sys_time os w0 = (t, w1) ->
  sys_open os lockfile O_RDONLY 0 w1 = (fd, w2) -> 0 <= fd ->
  sys_fstat os fd w2 = ((0, st1), w3) ->
  sys_read os fd 16 w3 = ((0, data), w4) ->
  sys_fstat os fd w4 = ((0, st2), w5) ->
  st_atime st1 <> st_atime st2 ->
  fst (lockfile_check_valid os (Some lockfile) s)
  = Val (st_atime st1 <? time_add (st_mtime st1) 300).
Proof.
  intros Hs Hr0 Ht Ho Hfd Hf1 Hr Hf2 Hne.
  unfold lockfile_check_valid, check_valid_read, check_valid_decide. mred.
  rewrite Hs. mred. destruct (Z.ltb_spec r0 0); [lia|]. mred.
  rewrite Ht. mred. rewrite Ho. mred.
  destruct (Z.leb_spec 0 fd); [|lia]. mred.
  rewrite Hf1. mred. change (0 =? 0) with true. mred. rewrite Hr. mred.
  change (0 <=? 0) with true. mred.
  rewrite Hf2. mred. change (0 =? 0) with true.
  destruct (Z.eqb_spec (st_atime st1) (st_atime st2)); [contradiction|].
  cbv beta iota delta [negb andb]. mred.
  destruct (sys_close os fd w5) as [rc w6]. mred.
  change (0 <? 0) with false. mred. reflexivity.
Qed.

(** C5 asks that a lock file without a pid that was modified more than
    300 seconds ago be reported stale.  The code departs from it where
    reading updates the access time: the empty lock file was written and
    last read at 1000, and it is now 1301.  The read moves the access
    time to 1301, the reference time becomes 1000, the access time from
    before the read (line 81), and the lock, 301 seconds old, passes for
    valid.  On a mount that leaves the access time alone the clock is
    the reference time and the same file is stale. *)
Lemma check_valid_age_pre_read :
  let s := MiniFS.start Scenario.lapsed in
  MiniFS.clock Scenario.lapsed - 1000 = 301 /\
  fst (check_valid_front MiniFS.mini Scenario.lock s)
    = Val (Some (1000, Build_struct_stat 1 7 0 1000 1000, 0)) /\
  (fun e => (ev_call e, st_atime <$> ev_stat e)) <$>
    filter (fun e => is_Some (ev_stat e))
      (trace (snd (check_valid_front MiniFS.mini Scenario.lock s)))
    = [(Stat Scenario.lock, Some 1000); (Fstat 3, Some 1000); (Fstat 3, Some 1301)] /\
  fst (lockfile_check_valid MiniFS.mini (Some Scenario.lock) s) = Val true /\
  (1301 <? time_add 1000 300) = false /\
  fst (lockfile_check_valid MiniFS.mini (Some Scenario.lock)
         (MiniFS.start Scenario.old301)) = Val false.
Proof. vm_compute. repeat split; reflexivity. Qed.

(** C6 asks that, when the access time changes over the read, the
    reference time be the access time found after the read, as the
    comment of lines 71 to 75 announces.  The code departs from it: the
    lock file was written at 1000 and read at 1200; this read, at 1400,
    moves the access time to 1400, and the reference time becomes 1200,
    the access time from before the read.  The lock passes for valid;
    with the access time after the read, 400 seconds after the
    modification, it would be stale. *)
Lemma check_valid_reference_time :
  let s := MiniFS.start Scenario.reread in
  fst (check_valid_front MiniFS.mini Scenario.lock s)
    = Val (Some (1200, Build_struct_stat 1 7 0 1200 1000, 0)) /\
  (fun e => (ev_call e, st_atime <$> ev_stat e)) <$>
    filter (fun e => is_Some (ev_stat e))
      (trace (snd (check_valid_front MiniFS.mini Scenario.lock s)))
    = [(Stat Scenario.lock, Some 1200); (Fstat 3, Some 1200); (Fstat 3, Some 1400)] /\
  fst (lockfile_check_valid MiniFS.mini (Some Scenario.lock) s) = Val true /\
  (1400 <? time_add 1000 300) = false.
Proof. vm_compute. repeat split; reflexivity. Qed.

(** C10 asks that the NUL of line 86 be stored inside of [buf], at an
    index of at most 15, for every length [read] can return.  The code
    departs from it: [read] returns 16 for a lock file of sixteen bytes,
    and the NUL is stored at index 16 of [buf[16]]. *)
Lemma check_valid_store_out_of_bounds :
  let s := MiniFS.start Scenario.sixteen in
  fst (lockfile_check_valid MiniFS.mini (Some Scenario.lock) s) = Fault OutOfBounds /\
  In (Ev (Read 3 16) 16 None)
     (trace (snd (lockfile_check_valid MiniFS.mini (Some Scenario.lock) s))) /\
  buf_store (buf_fill (list_ascii_of_string "1234567890123456") (replicate 16 None))
            16 NUL = None /\
  ~ (16 <= 15).
Proof.
  cbv zeta. split; [vm_compute; reflexivity|].
  split; [vm_compute; do 4 right; left; reflexivity|].
  split; [vm_compute; reflexivity | lia].
Qed.

(** ** The calls of [lockfile_check_valid] *)

Section Extends.

Context {os : OS}.

Lemma extends_ret {A} (P : call -> bool) (a : A) : extends (os := os) P (ret a).
Proof.
  intros s. exists []. cbn. rewrite app_nil_r. repeat split; [constructor | discriminate].
Qed.

Lemma extends_fail {A} (P : call -> bool) (f : fault) :
  f <> NoFuel -> extends (os := os) (A := A) P (fail f).
Proof.
  intros Hf s. exists []. cbn. rewrite app_nil_r.
  repeat split; [constructor | congruence].
Qed.

Lemma extends_bind {A B} (P : call -> bool) (m : M os A) (f : A -> M os B) :
  extends P m -> (forall a, extends P (f a)) -> extends P (bind m f).
Proof.
  intros Hm Hf s. destruct (Hm s) as (e1 & Ht1 & Hp1 & Hn1).
  unfold bind. destruct (m s) as [[a|e] s1]; cbn in *.
  - destruct (Hf a s1) as (e2 & Ht2 & Hp2 & Hn2).
    exists (e1 ++ e2). rewrite Ht2, Ht1, app_assoc.
    split; [reflexivity|]. split; [apply Forall_app; auto | exact Hn2].
  - exists e1. split; [exact Ht1|]. split; [exact Hp1 | congruence].
Qed.

Lemma extends_syscall {A} (P : call -> bool) (c : call) (h : W os -> A * W os)
    (code : A -> Z) (st : A -> option struct_stat) :
  P c = true -> extends P (syscall os c h code st).
Proof.
  intros Hc s. unfold syscall. destruct (h (world s)) as [a w]. cbn.
  eexists. repeat split; [repeat constructor; exact Hc | discriminate].
Qed.

Lemma extends_errno (P : call -> bool) : extends P (errno os).
Proof.
  intros s. exists []. cbn. rewrite app_nil_r. repeat split; [constructor | discriminate].
Qed.

Lemma check_valid_read_extends (lockfile : string) (st : struct_stat) :
  extends checker_call (check_valid_read os lockfile st).
Proof.
  unfold check_valid_read.
  repeat first
    [ apply extends_ret
    | apply extends_fail; discriminate
    | apply extends_syscall; reflexivity
    | apply extends_bind; [|intros]
    | match goal with
      | |- extends _ (if ?b then _ else _) => destruct b
      | |- extends _ (match ?x with Some _ => _ | None => _ end) => destruct x
      | |- extends _ (match ?x with pair _ _ => _ end) => destruct x
      | |- extends _ (let '(_, _) := ?x in _) => destruct x
      end ].
Qed.

Lemma check_valid_decide_extends (now : Z) (st : struct_stat) (pid : Z) :
  extends checker_call (check_valid_decide os now st pid).
Proof.
  unfold check_valid_decide.
  repeat first
    [ apply extends_ret
    | apply extends_errno
    | apply extends_syscall; reflexivity
    | apply extends_bind; [|intros]
    | match goal with
      | |- extends _ (if ?b then _ else _) => destruct b
      | |- extends _ (match ?x with Some _ => _ | None => _ end) => destruct x
      end ].
Qed.

Lemma check_valid_extends (lockfile : option string) :
  extends checker_call (lockfile_check_valid os lockfile).
Proof.
  unfold lockfile_check_valid. destruct lockfile as [p|]; [|apply extends_ret].
  apply extends_bind; [apply extends_syscall; reflexivity|].
  intros [r st]. destruct (r <? 0); [apply extends_ret|].
  apply extends_bind; [apply check_valid_read_extends|].
  intros [[now st'] pid]. apply check_valid_decide_extends.
Qed.

End Extends.

(** ** One iteration *)

Section Iteration.

Context {os : OS}.

Lemma slept_sleep (l : locals) :
  dontsleep l = 0 ->
  (if 60 <? sleeptime l + 5 then 60 else sleeptime l + 5) = slept l.
Proof. intros H. unfold slept. rewrite H. reflexivity. Qed.

Lemma slept_nosleep (l : locals) : dontsleep l <> 0 -> sleeptime l = slept l.
Proof.
  intros H. unfold slept. destruct (Z.eqb_spec (dontsleep l) 0); [contradiction|reflexivity].
Qed.

Ltac leaf lockfile tmp l :=
  rewrite <- ?app_assoc; cbn [app]; eexists; (split; [reflexivity|]);
  first
    [ eapply (it_tmp_gone lockfile tmp l [_; _]); [apply head_sleep; assumption | ..]
    | eapply (it_tmp_gone lockfile tmp l [_]); [apply head_nosleep; assumption | ..]
    | eapply (it_nostat_giveup lockfile tmp l [_; _]); [apply head_sleep; assumption | ..]
    | eapply (it_nostat_giveup lockfile tmp l [_]); [apply head_nosleep; assumption | ..]
    | eapply (it_nostat_retry lockfile tmp l [_; _]); [apply head_sleep; assumption | ..]
    | eapply (it_nostat_retry lockfile tmp l [_]); [apply head_nosleep; assumption | ..]
    | eapply (it_acquired lockfile tmp l [_; _]); [apply head_sleep; assumption | ..]
    | eapply (it_acquired lockfile tmp l [_]); [apply head_nosleep; assumption | ..]
    | eapply (it_held lockfile tmp l [_; _]); [apply head_sleep; assumption | ..]
    | eapply (it_held lockfile tmp l [_]); [apply head_nosleep; assumption | ..]
    | eapply (it_check_fault lockfile tmp l [_; _]); [apply head_sleep; assumption | ..]
    | eapply (it_check_fault lockfile tmp l [_]); [apply head_nosleep; assumption | ..]
    | eapply (it_rmstale lockfile tmp l [_; _]); [apply head_sleep; assumption | ..]
    | eapply (it_rmstale lockfile tmp l [_]); [apply head_nosleep; assumption | ..]
    | eapply (it_reclaimed lockfile tmp l [_; _]); [apply head_sleep; assumption | ..]
    | eapply (it_reclaimed lockfile tmp l [_]); [apply head_nosleep; assumption | ..] ];
  first [eassumption | congruence].

Lemma try_body_spec (lockfile tmp : string) (l : locals) (s : state os) :
  exists evs,
    trace (snd (try_body os lockfile tmp l s)) = trace s ++ evs /\
    iteration lockfile tmp l evs (fst (try_body os lockfile tmp l s)).
Proof.
  unfold try_body. mred.
  destruct (Z.eqb_spec (dontsleep l) 0) as [Hd|Hd]; mred;
    [ rewrite (slept_sleep l Hd); destruct (sys_sleep os (slept l) (world s)) as [rs w0]
    | rewrite (slept_nosleep l Hd) ]; mred.
  all: match goal with
       | |- context [sys_link os ?a ?b ?w] =>
           destruct (sys_link os a b w) as [rl w1]
       end; mred.
  all: destruct (sys_lstat os tmp w1) as [[r1 st1] w2]; mred.
  all: destruct (Z.ltb_spec r1 0) as [Hr1|Hr1]; mred.
  all: try (leaf lockfile tmp l; fail).
  all: destruct (sys_lstat os lockfile w2) as [[r st] w3]; mred.
  all: destruct (Z.ltb_spec r 0) as [Hr|Hr]; mred.
  all: try (destruct (Z.ltb_spec 5 (statfailed l)) as [Hsf|Hsf]; mred;
            [destruct (sys_unlink os tmp w3) as [ru w4]; mred|];
            leaf lockfile tmp l; fail).
  all: destruct (Z.eqb_spec (st_rdev st) (st_rdev st1)) as [Hdev|Hdev];
    [destruct (Z.eqb_spec (st_ino st) (st_ino st1)) as [Hino|Hino]|];
    cbn [andb]; mred.
  all: try (destruct (sys_unlink os tmp w3) as [ru w4]; mred; leaf lockfile tmp l; fail).
  all: assert (Hne : ~ (st_rdev st = st_rdev st1 /\ st_ino st = st_ino st1)) by tauto.
  all: match goal with
       | |- context [lockfile_check_valid os (Some ?lf) ?sx] =>
           destruct (check_valid_extends (Some lf) sx) as (cv & Hcv & Hall & Hnf);
           destruct (lockfile_check_valid os (Some lf) sx) as [[valid|f] s3]
       end; cbn [fst snd trace] in Hcv, Hnf; mred.
  all: try (rewrite Hcv; leaf lockfile tmp l; fail).
  all: destruct valid; cbn [negb]; mred.
  all: try (rewrite Hcv; leaf lockfile tmp l; fail).
  all: destruct (sys_unlink os lockfile (world s3)) as [ru w4]; mred.
  all: destruct (Z.ltb_spec ru 0) as [Hru|Hru]; cbn [andb]; mred.
  all: try destruct (sys_errno os w4 =? ENOENT); cbn [negb]; mred.
  all: rewrite Hcv; leaf lockfile tmp l.
Qed.

End Iteration.

(** ** The claim loop *)

Section Loop.

Context {os : OS}.

Lemma guard_dec (l : locals) :
  (i l <? tries l) && (0 <? tries l) = true <-> guard l.
Proof. unfold guard. rewrite andb_true_iff, !Z.ltb_lt. tauto. Qed.

(** An iteration that goes on leaves [i] alone and raises [tries] from 1
    to 2 at most. *)
Lemma iteration_next (lockfile tmp : string) (l l' : locals) (evs : list event) :
  iteration lockfile tmp l evs (Val (Next l')) ->
  i l' = i l /\ (tries l' = tries l \/ (tries l = 1 /\ tries l' = 2)).
Proof.
  intros H. inversion H; subst; cbn; split; auto.
  destruct (Z.eqb_spec (tries l) 1) as [->|]; auto.
Qed.

Lemma remaining_next (lockfile tmp : string) (l l' : locals) (evs : list event) :
  guard l -> iteration lockfile tmp l evs (Val (Next l')) ->
  remaining (incr l') <= remaining l - 1.
Proof.
  intros [Hi Ht] H. apply iteration_next in H as [Hi' Ht'].
  unfold remaining, incr. cbn.
  destruct (Z.eqb_spec (tries l) 1), (Z.eqb_spec (tries l') 1); lia.
Qed.

(** With fuel for the remaining iterations the loop runs to its end. *)
Lemma try_loop_spec (lockfile tmp : string) (fuel : nat) :
  forall (l : locals) (s : state os),
    remaining l <= Z.of_nat fuel ->
    exists evs,
      trace (snd (try_loop os fuel lockfile tmp l s)) = trace s ++ evs /\
      loop_run lockfile tmp l evs (fst (try_loop os fuel lockfile tmp l s)).
Proof.
  induction fuel as [|fuel IH]; intros l s Hfuel.
  - cbn [try_loop]. destruct ((i l <? tries l) && (0 <? tries l)) eqn:G.
    + apply guard_dec in G. destruct G. unfold remaining in Hfuel.
      destruct (Z.eqb_spec (tries l) 1); lia.
    + exists []. rewrite app_nil_r. split; [reflexivity|].
      apply run_exit. rewrite <- guard_dec, G. discriminate.
  - cbn [try_loop]. destruct ((i l <? tries l) && (0 <? tries l)) eqn:G.
    + apply guard_dec in G.
      destruct (try_body_spec lockfile tmp l s) as (evs & Ht & Hit).
      unfold bind. destruct (try_body os lockfile tmp l s) as [[[v|l']|f] s1];
        cbn [fst snd] in *.
      * exists evs. split; [exact Ht|]. apply run_return; assumption.
      * pose proof (remaining_next _ _ _ _ _ G Hit) as Hrem.
        destruct (IH (incr l') s1 ltac:(lia)) as (evs' & Ht' & Hrun).
        exists (evs ++ evs'). fold (incr l'). rewrite Ht', Ht, app_assoc.
        split; [reflexivity|]. eapply run_next; eassumption.
      * exists evs. split; [exact Ht|]. apply run_fault; assumption.
    + exists []. rewrite app_nil_r. split; [reflexivity|].
      apply run_exit. rewrite <- guard_dec, G. discriminate.
Qed.

Lemma iterations_app (a b : list event) :
  iterations (a ++ b) = iterations a + iterations b.
Proof. unfold iterations. rewrite filter_app, length_app. lia. Qed.

Lemma iterations_checker (cv : list event) :
  Forall (fun e => checker_call (ev_call e) = true) cv -> iterations cv = 0.
Proof.
  induction 1 as [|e cv He _ IH]; [reflexivity|].
  change (e :: cv) with ([e] ++ cv). rewrite iterations_app, IH.
  destruct e as [c r o]. destruct c; cbn in He; try discriminate; reflexivity.
Qed.

Lemma iterations_head (lockfile tmp : string) (l : locals) (hd : list event) :
  body_head lockfile tmp l hd -> iterations hd = 1.
Proof. intros []; reflexivity. Qed.

(** Every iteration calls [link] once. *)
Lemma iteration_links (lockfile tmp : string) (l : locals) (evs : list event)
    (out : res ctl) :
  iteration lockfile tmp l evs out -> iterations evs = 1.
Proof.
  intros H. inversion H; subst;
    repeat rewrite iterations_app;
    rewrite (iterations_head _ _ _ _ ltac:(eassumption));
    try (rewrite (iterations_checker cv) by assumption);
    reflexivity.
Qed.

Lemma loop_iterations (lockfile tmp : string) (l : locals) (evs : list event)
    (out : res (option Z)) :
  loop_run lockfile tmp l evs out -> iterations evs <= remaining l.
Proof.
  induction 1 as [l G|l evs v G Hit|l evs f G Hit|l evs l' evs' out G Hit Hrun IH].
  - change (iterations []) with 0. unfold remaining. lia.
  - rewrite (iteration_links _ _ _ _ _ Hit). destruct G. unfold remaining.
    destruct (Z.eqb_spec (tries l) 1); lia.
  - rewrite (iteration_links _ _ _ _ _ Hit). destruct G. unfold remaining.
    destruct (Z.eqb_spec (tries l) 1); lia.
  - rewrite iterations_app, (iteration_links _ _ _ _ _ Hit).
    pose proof (remaining_next _ _ _ _ _ G Hit). lia.
Qed.

Lemma loop_no_fuel_fault (lockfile tmp : string) (l : locals) (evs : list event)
    (out : res (option Z)) :
  loop_run lockfile tmp l evs out -> out <> Fault NoFuel.
Proof.
  induction 1 as [l G|l evs v G Hit|l evs f G Hit|l evs l' evs' out G Hit Hrun IH];
    try discriminate; [|exact IH].
  inversion Hit; subst. congruence.
Qed.

(** What the loop returns, and the call it makes last. *)
Lemma loop_returns (lockfile tmp : string) (l : locals) (evs : list event) (v : Z) :
  loop_run lockfile tmp l evs (Val (Some v)) ->
  (v = 0 /\ ends_confirmed lockfile tmp evs) \/
  (v = LOCK_ERR_MAXRETRIES /\ ends_with (Unlink tmp) evs) \/
  (v = LOCK_ERR_GENERIC /\
   exists pre r1 st1, evs = pre ++ [Ev (Lstat tmp) r1 (Some st1)] /\ r1 < 0) \/
  (v = LOCK_ERR_RMSTALE /\
   exists pre ru, evs = pre ++ [Ev (Unlink lockfile) ru None] /\ ru < 0).
Proof.
  intros H. remember (Val (Some v)) as out eqn:E.
  induction H as [l G|l evs v' G Hit|l evs f G Hit|l evs l' evs' out G Hit Hrun IH];
    try discriminate.
  - injection E as ->. inversion Hit; subst.
    + right. right. left. split; [reflexivity|]. eauto.
    + right. left. split; [reflexivity|].
      exists (hd ++ [Ev (Lstat tmp) r1 (Some st1); Ev (Lstat lockfile) r (Some st)]), ru.
      rewrite <- app_assoc. reflexivity.
    + left. split; [reflexivity|]. exists hd, r1, st1, r, st, ru. auto.
    + right. right. right. split; [reflexivity|].
      exists (hd ++ [Ev (Lstat tmp) r1 (Some st1); Ev (Lstat lockfile) r (Some st)] ++ cv), ru.
      rewrite <- !app_assoc. split; [reflexivity|assumption].
  - destruct (IH E) as [[-> Hc]|[[-> Hc]|[[-> Hc]|[-> Hc]]]].
    + left. split; [reflexivity|].
      destruct Hc as (pre & r1 & st1 & r & st & ru & -> & ?).
      exists (evs ++ pre), r1, st1, r, st, ru. rewrite app_assoc. auto.
    + right. left. split; [reflexivity|]. destruct Hc as (pre & r & ->).
      exists (evs ++ pre), r. rewrite app_assoc. reflexivity.
    + right. right. left. split; [reflexivity|]. destruct Hc as (pre & r1 & st1 & -> & ?).
      exists (evs ++ pre), r1, st1. rewrite app_assoc. auto.
    + right. right. right. split; [reflexivity|]. destruct Hc as (pre & ru & -> & ?).
      exists (evs ++ pre), ru. rewrite app_assoc. auto.
Qed.

End Loop.

(** ** [lockfile_try_create] *)

Section Create.

Context {os : OS}.

Lemma entry_fuel (n : Z) : remaining (entry n) <= Z.of_nat (try_fuel n).
Proof.
  unfold remaining, entry, try_fuel. cbn [i tries].
  destruct (Z.eqb_spec n 1); lia.
Qed.

Lemma try_create_spec (lockfile : option string) (pid : Z) (buf : option string)
    (size retries : Z) (s : state os) :
  exists evs,
    trace (snd (lockfile_try_create os lockfile pid buf size retries s)) = trace s ++ evs /\
    create_run lockfile (int_add retries 1) evs
      (fst (lockfile_try_create os lockfile pid buf size retries s)).
Proof.
  unfold lockfile_try_create.
  destruct (snprintf 40 _) as [pidlen pidbuf].
  destruct ((pidlen <? 0) || (40 - 1 <? pidlen)).
  { exists []. rewrite app_nil_r. split; [reflexivity|]. apply cr_generic. constructor. }
  unfold tmplock_filename.
  destruct lockfile as [lf|]; [destruct buf as [b|]|]; mred;
    try (exists []; rewrite app_nil_r; split; [reflexivity|];
         apply cr_generic; constructor).
  destruct (size =? 0); mred.
  { exists []. rewrite app_nil_r. split; [reflexivity|]. apply cr_generic. constructor. }
  destruct (sys_getpid os (world s)) as [mypid w1]. mred.
  destruct (sys_time os w1) as [now w2]. mred.
  destruct (snprintf size _) as [r tmp]. mred.
  destruct (Z.ltb_spec r 0) as [Hr|Hr]; mred.
  { rewrite <- !app_assoc. eexists. split; [reflexivity|].
    cbn [app]. apply cr_generic.
    constructor; [left; reflexivity|].
    constructor; [right; reflexivity|]. constructor. }
  change (0 =? 0) with true. cbn [negb]. mred.
  match goal with
  | |- context [sys_open os tmp ?fl 420 w2] =>
      destruct (sys_open os tmp fl 420 w2) as [fd w3]
  end. mred.
  destruct (Z.ltb_spec fd 0) as [Hfd|Hfd]; mred.
  { rewrite <- !app_assoc. eexists. split; [reflexivity|].
    cbn [app]. apply cr_tmplock. assumption. }
  destruct (sys_write os fd (list_ascii_of_string pidbuf) pidlen w3) as [written w4]. mred.
  destruct (sys_close os fd w4) as [rc w5]. mred.
  assert (Hsetup : forall rp rt fl rw rc',
    setup tmp [Ev Getpid rp None; Ev Time rt None; Ev (Open tmp fl 420) fd None;
               Ev (Write fd (list_ascii_of_string pidbuf) pidlen) rw None;
               Ev (Close fd) rc' None]).
  { intros. unfold setup. do 8 eexists. reflexivity. }
  destruct (negb (rc =? 0) || negb (written =? pidlen)); mred.
  { destruct (sys_unlink os tmp w5) as [ru w6]. mred.
    rewrite <- !app_assoc. eexists. split; [reflexivity|]. cbn [app].
    eapply (cr_tmpwrite _ _ tmp [_; _; _; _; _]). apply Hsetup. }
  match goal with
  | |- context [try_loop os ?fuel lf tmp ?l ?sx] =>
      destruct (try_loop_spec lf tmp fuel l sx (entry_fuel _)) as (evs & Ht & Hrun);
      destruct (try_loop os fuel lf tmp l sx) as [[[v|]|f] s6]
  end; cbn [fst snd trace] in Ht, Hrun; mred.
  - rewrite Ht, <- !app_assoc. eexists. split; [reflexivity|]. cbn [app].
    eapply (cr_returned _ _ lf tmp [_; _; _; _; _]); [reflexivity|apply Hsetup|exact Hrun].
  - destruct (sys_unlink os tmp (world s6)) as [ru w7]. mred.
    rewrite Ht, <- !app_assoc. eexists. split; [reflexivity|]. cbn [app].
    eapply (cr_exhausted _ _ lf tmp [_; _; _; _; _]); [reflexivity|apply Hsetup|exact Hrun].
  - rewrite Ht, <- !app_assoc. eexists. split; [reflexivity|]. cbn [app].
    eapply (cr_fault _ _ lf tmp [_; _; _; _; _]); [reflexivity|apply Hsetup|exact Hrun].
Qed.

Lemma iterations_setup (tmp : string) (pre : list event) :
  setup tmp pre -> iterations pre = 0.
Proof. intros (? & ? & ? & ? & ? & ? & ? & ? & ->). reflexivity. Qed.

(** The claim loop of [lockfile_try_create] makes at most [tries]
    iterations, or two when [tries] is 1. *)
Lemma create_iterations (lockfile : option string) (tries : Z) (evs : list event)
    (out : res Z) :
  create_run lockfile tries evs out -> iterations evs <= remaining (entry tries).
Proof.
  intros H. inversion H; subst.
  - assert (iterations evs = 0) as ->.
    { clear H. induction H0 as [|e evs He _ IH]; [reflexivity|].
      change (e :: evs) with ([e] ++ evs). rewrite iterations_app, IH.
      destruct e as [c r o]. cbn in He. destruct He; subst; reflexivity. }
    unfold remaining. lia.
  - change (iterations _) with 0. unfold remaining. lia.
  - rewrite iterations_app, (iterations_setup _ _ H0).
    change (iterations [_]) with 0. unfold remaining. lia.
  - rewrite iterations_app, (iterations_setup _ _ H1).
    apply (loop_iterations _ _ _ _ _ H2).
  - rewrite !iterations_app, (iterations_setup _ _ H1).
    change (iterations [_]) with 0.
    pose proof (loop_iterations _ _ _ _ _ H2). lia.
  - rewrite iterations_app, (iterations_setup _ _ H1).
    apply (loop_iterations _ _ _ _ _ H2).
Qed.

(** The model never runs out of fuel: [lockfile_try_create] is total. *)
Lemma try_create_total (lockfile : option string) (pid : Z) (buf : option string)
    (size retries : Z) (s : state os) :
  fst (lockfile_try_create os lockfile pid buf size retries s) <> Fault NoFuel.
Proof.
  destruct (try_create_spec lockfile pid buf size retries s) as (evs & _ & H).
  inversion H; try discriminate.
  match goal with H : loop_run _ _ _ _ (Fault _) |- _ =>
    apply loop_no_fuel_fault in H end.
  congruence.
Qed.

End Create.

(** ** Ownership is confirmed by [lstat], not by [link] *)

Section Acquire.

Context {os : OS}.

(** [lockfile_try_create] returns 0 only after both [lstat] calls
    succeeded and agreed on [st_rdev] and [st_ino]; the result of [link]
    plays no part. *)
Lemma try_create_confirmed (lockfile : option string) (pid : Z) (buf : option string)
    (size retries : Z) (s : state os) :
  fst (lockfile_try_create os lockfile pid buf size retries s) = Val 0 ->
  exists lf tmp evs,
    lockfile = Some lf /\
    trace (snd (lockfile_try_create os lockfile pid buf size retries s)) = trace s ++ evs /\
    ends_confirmed lf tmp evs.
Proof.
  intros H0.
  destruct (try_create_spec lockfile pid buf size retries s) as (evs & Ht & Hrun).
  rewrite H0 in Hrun. inversion Hrun as [| | |lf tmp pre evs' v Hlf Hpre Hloop| |]; subst.
  exists lf, tmp, (pre ++ evs'). split; [reflexivity|]. split; [exact Ht|].
  apply loop_returns in Hloop as [[_ Hc]|[[? _]|[[? _]|[? _]]]]; try discriminate.
  destruct Hc as (p & r1 & st1 & r & st & ru & -> & Hc).
  exists (pre ++ p), r1, st1, r, st, ru. rewrite app_assoc. auto.
Qed.

(** After the temporary file was created, the outcomes 0,
    LOCK_ERR_TMPWRITE and LOCK_ERR_MAXRETRIES all end in its removal. *)
Lemma try_create_cleanup (lockfile : option string) (pid : Z) (buf : option string)
    (size retries : Z) (s : state os) (v : Z) :
  fst (lockfile_try_create os lockfile pid buf size retries s) = Val v ->
  v = 0 \/ v = LOCK_ERR_TMPWRITE \/ v = LOCK_ERR_MAXRETRIES ->
  exists tmp evs,
    trace (snd (lockfile_try_create os lockfile pid buf size retries s)) = trace s ++ evs /\
    ends_with (Unlink tmp) evs.
Proof.
  intros Hv Hcase.
  destruct (try_create_spec lockfile pid buf size retries s) as (evs & Ht & Hrun).
  rewrite Hv in Hrun.
  inversion Hrun as [| |tmp pre ru Hpre|lf tmp pre evs' v' Hlf Hpre Hloop
                    |lf tmp pre evs' ru Hlf Hpre Hloop|]; subst;
    try (exfalso; unfold LOCK_ERR_GENERIC, LOCK_ERR_TMPLOCK, LOCK_ERR_TMPWRITE,
           LOCK_ERR_MAXRETRIES in *; lia).
  - exists tmp, (pre ++ [Ev (Unlink tmp) ru None]). split; [exact Ht|].
    exists pre, ru. reflexivity.
  - exists tmp, (pre ++ evs'). split; [exact Ht|].
    apply loop_returns in Hloop as [[_ Hc]|[[_ Hc]|[[-> _]|[-> _]]]];
      try (exfalso; unfold LOCK_ERR_GENERIC, LOCK_ERR_RMSTALE, LOCK_ERR_TMPWRITE,
             LOCK_ERR_MAXRETRIES in *; lia).
    + destruct Hc as (p & r1 & st1 & r & st & ru & -> & _).
      exists (pre ++ p ++ [Ev (Lstat tmp) r1 (Some st1); Ev (Lstat lf) r (Some st)]), ru.
      rewrite <- !app_assoc. reflexivity.
    + destruct Hc as (p & ru & ->). exists (pre ++ p), ru. rewrite app_assoc. reflexivity.
  - exists tmp, (pre ++ evs' ++ [Ev (Unlink tmp) ru None]). split; [exact Ht|].
    exists (pre ++ evs'), ru. rewrite app_assoc. reflexivity.
Qed.

Lemma ap_create_spec (lockfile : string) (pid retries : Z) (s : state os) :
  exists evs,
    trace (snd (ap_lockfile_create os (Some lockfile) pid retries s)) = trace s ++ evs /\
    iterations evs <= remaining (entry (int_add (to_int retries) 1)).
Proof.
  unfold ap_lockfile_create.
  destruct (retries =? 0).
  { exists []. rewrite app_nil_r. split; [reflexivity|].
    change (iterations []) with 0. unfold remaining. lia. }
  mred.
  match goal with
  | |- context [sys_malloc os ?n (world s)] =>
      destruct (sys_malloc os n (world s)) as [ok w1]
  end. mred.
  destruct ok; cbn [negb]; mred.
  - match goal with
    | |- context [lockfile_try_create os ?a ?b ?c ?d ?e ?sx] =>
        destruct (try_create_spec a b c d e sx) as (evs & Ht & Hrun)
    end.
    cbn [trace] in Ht. rewrite Ht, <- app_assoc. eexists. split; [reflexivity|].
    rewrite iterations_app. change (iterations [_]) with 0.
    apply create_iterations in Hrun. lia.
  - eexists. split; [reflexivity|]. change (iterations [_]) with 0.
    unfold remaining. lia.
Qed.

(** [ap_lockfile_create] always returns, unless [lockfile_check_valid]
    leaves defined behaviour. *)
Lemma ap_create_total (lockfile : option string) (pid retries : Z) (s : state os) :
  fst (ap_lockfile_create os lockfile pid retries s) <> Fault NoFuel.
Proof.
  unfold ap_lockfile_create. destruct lockfile as [lf|]; [|discriminate].
  destruct (retries =? 0); [discriminate|]. mred.
  match goal with
  | |- context [sys_malloc os ?n (world s)] =>
      destruct (sys_malloc os n (world s)) as [ok w1]
  end. mred.
  destruct ok; cbn [negb]; mred; [|discriminate].
  apply try_create_total.
Qed.

End Acquire.

Lemma tries_of_retries (retries : Z) :
  1 <= retries <= UINT_MAX ->
  remaining (entry (int_add (to_int retries) 1)) <= retries + 1.
Proof.
  intros H. unfold remaining, entry. cbn [i tries]. unfold UINT_MAX in H.
  assert (Hcases : retries < INT_MAX \/ retries = INT_MAX \/ INT_MAX < retries) by lia.
  unfold INT_MAX in Hcases. destruct Hcases as [Hlt|[->|Hgt]].
  - rewrite (to_int_small retries) by (unfold INT_MIN, INT_MAX; lia).
    unfold int_add. rewrite to_int_small by (unfold INT_MIN, INT_MAX; lia).
    destruct (Z.eqb_spec (retries + 1) 1); lia.
  - vm_compute. discriminate.
  - assert (Hr : to_int retries = retries - 4294967296).
    { unfold to_int. change (2 ^ 31) with 2147483648. change (2 ^ 32) with 4294967296.
      Z.to_euclidean_division_equations. lia. }
    rewrite Hr. unfold int_add. rewrite to_int_small by (unfold INT_MIN, INT_MAX; lia).
    destruct (Z.eqb_spec (retries - 4294967296 + 1) 1); lia.
Qed.




(** C1 asks that 0 be returned only when the lock path and the temporary
    path are the same file, of the same device and inode.  The code
    departs from it, comparing [st_rdev] where [st_dev] is meant: the
    lock path is held by process 77 through a file of device 2, inode
    1000; the temporary file is created on device 1 with the same inode
    number.  [link] fails, both files have [st_rdev] 0, and the call
    returns 0 although the two paths name files of different devices:
    the lock path still is the file of process 77. *)
Lemma create_confirms_rdev_not_dev :
  let out := ap_lockfile_create MiniFS.mini (Some Scenario.lock) 4242 1
               (MiniFS.start Scenario.twin) in
  fst out = Val 0 /\
  filter (fun e => is_Some (ev_stat e) \/ is_link e = true) (trace (snd out)) =
    [Ev (Link "/run/lock/ap.lk042424" Scenario.lock) (-1) None;
     Ev (Lstat "/run/lock/ap.lk042424") 0 (Some (Build_struct_stat 1 1000 0 100 100));
     Ev (Lstat Scenario.lock) 0 (Some (Build_struct_stat 2 1000 0 50 50))] /\
  MiniFS.dir (world (snd out)) !! Scenario.lock = Some (2, 1000) /\
  MiniFS.dir (world (snd out)) !! "/run/lock/ap.lk042424" = None.
Proof. cbv zeta. repeat split; vm_compute; reflexivity. Qed.

(** ** Stale locks and the retry budget *)

Section Reclaim.

Context {os : OS}.

Lemma iteration_nonempty (lockfile tmp : string) (l : locals) (evs : list event)
    (out : res ctl) :
  iteration lockfile tmp l evs out -> last evs <> None.
Proof.
  intros H Hl. apply last_None in Hl. subst evs.
  apply iteration_links in H. discriminate H.
Qed.

(** An iteration that goes on after [unlink(lockfile)] is one that
    removed a stale lock. *)
Lemma iteration_reclaimed (lockfile tmp : string) (l l' : locals) (evs : list event)
    (ru : Z) :
  iteration lockfile tmp l evs (Val (Next l')) ->
  last evs = Some (Ev (Unlink lockfile) ru None) ->
  l' = Locals (i l) (if tries l =? 1 then tries l + 1 else tries l) (slept l) 0 1.
Proof.
  intros H Hlast. inversion H as [| |hd r1 st1 r st| |hd r1 st1 r st cv Hhd ? ? ? Hcv| | |];
    subst.
  - exfalso. rewrite last_app in Hlast. cbn in Hlast. discriminate.
  - exfalso. rewrite !last_app in Hlast.
    destruct (last cv) as [c|] eqn:Ec.
    + apply last_Some in Ec as [cv' ->]. apply Forall_app in Hcv as [_ Hc].
      inversion Hc as [|? ? Hcall _]; subst. injection Hlast as ->.
      discriminate Hcall.
    + cbn in Hlast. discriminate.
  - reflexivity.
Qed.

(** An iteration entered with [dontsleep] set starts with [link]. *)
Lemma iteration_starts (lockfile tmp : string) (l : locals) (evs : list event)
    (out : res ctl) :
  iteration lockfile tmp l evs out -> dontsleep l <> 0 ->
  exists rl rest, evs = Ev (Link tmp lockfile) rl None :: rest.
Proof.
  intros H Hd.
  inversion H as [hd ? ? Hhd|hd ? ? ? ? ? Hhd|hd ? ? ? ? Hhd|hd ? ? ? ? ? Hhd
                 |hd ? ? ? ? ? Hhd|hd ? ? ? ? ? ? Hhd|hd ? ? ? ? ? ? Hhd
                 |hd ? ? ? ? ? ? Hhd]; subst;
    (destruct Hhd as [? ? Hz|rl _]; [contradiction|]);
    eexists rl, _; cbn [app]; reflexivity.
Qed.

End Reclaim.

(** C3, as amended: whenever an iteration removes a stale lock and the
    loop goes on, [dontsleep] is set, so that the next iteration starts
    with [link] and not with a sleep, and [tries] is raised by one exactly
    when it is 1: for every other value of [tries] no iteration is added,
    also when the iteration was the last one allowed. *)
Theorem reclaim_then_retry (os : OS) (lockfile tmp : string) (l l' : locals)
    (s : state os) (ru : Z) :
  fst (try_body os lockfile tmp l s) = Val (Next l') ->
  last (trace (snd (try_body os lockfile tmp l s))) = Some (Ev (Unlink lockfile) ru None) ->
  dontsleep l' = 1 /\
  tries l' = (if tries l =? 1 then 2 else tries l) /\
  i l' = i l /\
  forall s2 : state os, exists rl rest,
    trace (snd (try_body os lockfile tmp (incr l') s2))
    = trace s2 ++ Ev (Link tmp lockfile) rl None :: rest.
Proof.
  intros Hout Hlast.
  destruct (try_body_spec lockfile tmp l s) as (evs & Ht & Hit).
  rewrite Hout in Hit. rewrite Ht, last_app in Hlast.
  pose proof (iteration_nonempty _ _ _ _ _ Hit) as Hne.
  destruct (last evs) as [e|] eqn:Ee; [|contradiction]. injection Hlast as ->.
  rewrite (iteration_reclaimed _ _ _ _ _ _ Hit Ee). cbn [dontsleep tries i].
  split; [reflexivity|]. split.
  { destruct (Z.eqb_spec (tries l) 1) as [->|]; reflexivity. }
  split; [reflexivity|]. intros s2.
  destruct (try_body_spec lockfile tmp
              (incr (Locals (i l) (if tries l =? 1 then tries l + 1 else tries l)
                       (slept l) 0 1)) s2) as (evs2 & Ht2 & Hit2).
  apply iteration_starts in Hit2 as (rl & rest & ->); [|cbn; lia].
  exists rl, rest. exact Ht2.
Qed.

Lemma reclaim_then_retry_witness :
  fst (try_body MiniFS.mini Scenario.lock "/run/lock/ap.lk042424" (entry 1)
         (MiniFS.start Scenario.claiming)) = Val (Next (Locals 0 2 0 0 1)) /\
  dontsleep (Locals 0 2 0 0 1) = 1 /\
  tries (Locals 0 2 0 0 1) = (if tries (entry 1) =? 1 then 2 else tries (entry 1)).
Proof.
  assert (Hout : fst (try_body MiniFS.mini Scenario.lock "/run/lock/ap.lk042424" (entry 1)
                        (MiniFS.start Scenario.claiming))
                 = Val (Next (Locals 0 2 0 0 1))) by (vm_compute; reflexivity).
  split; [exact Hout|].
  destruct (reclaim_then_retry MiniFS.mini Scenario.lock "/run/lock/ap.lk042424"
              (entry 1) (Locals 0 2 0 0 1) (MiniFS.start Scenario.claiming) 0 Hout
              ltac:(vm_compute; reflexivity))
    as (Hd & Ht & _).
  split; [exact Hd | exact Ht].
Defined.

(** C3, as stated, fails: with maxRetries = 1 ([tries] = 2) the lock file,
    empty and 297 seconds old, is valid in the first iteration; after the
    sleep of 5 seconds it is stale and the second, last iteration removes
    it.  No third iteration follows: the call returns
    LOCK_ERR_MAXRETRIES with the lock path free. *)
Lemma reclaim_in_last_iteration :
  let out := ap_lockfile_create MiniFS.mini (Some Scenario.lock) 4242 1
               (MiniFS.start Scenario.aging) in
  fst out = Val LOCK_ERR_MAXRETRIES /\
  MiniFS.calls (snd out) =
    [Malloc 22; Getpid; Time; Open "/run/lock/ap.lk042421" 524481 420;
     Write 3 (list_ascii_of_string ("4242" +:+ Scenario.LF)) 5; Close 3;
     Link "/run/lock/ap.lk042421" Scenario.lock;
     Lstat "/run/lock/ap.lk042421"; Lstat Scenario.lock;
     Stat Scenario.lock; Time; Open Scenario.lock 0 0; Fstat 4; Read 4 16; Fstat 4;
     Close 4;
     Sleep 5;
     Link "/run/lock/ap.lk042421" Scenario.lock;
     Lstat "/run/lock/ap.lk042421"; Lstat Scenario.lock;
     Stat Scenario.lock; Time; Open Scenario.lock 0 0; Fstat 5; Read 5 16; Fstat 5;
     Close 5;
     Unlink Scenario.lock;
     Unlink "/run/lock/ap.lk042421"] /\
  iterations (trace (snd out)) = 2 /\
  MiniFS.dir (world (snd out)) !! Scenario.lock = None.
Proof. cbv zeta. repeat split; vm_compute; reflexivity. Qed.

(** ** A failed removal of a stale lock *)

Section NoCleanup.

Context {os : OS}.

Lemma checker_no_unlink (tmp : string) (cv : list event) :
  Forall (fun e => checker_call (ev_call e) = true) cv ->
  Forall (fun e => ev_call e <> Unlink tmp) cv.
Proof.
  intros H. eapply Forall_impl; [exact H|].
  intros [c r o] Hc Hu. cbn in *. subst c. discriminate Hc.
Qed.

Lemma head_no_unlink (lockfile tmp : string) (l : locals) (hd : list event) :
  body_head lockfile tmp l hd -> Forall (fun e => ev_call e <> Unlink tmp) hd.
Proof. intros []; repeat constructor; discriminate. Qed.

(** The iterations that do not end in 0 or LOCK_ERR_MAXRETRIES never
    call [unlink] on the temporary file. *)
Lemma iteration_no_cleanup (lockfile tmp : string) (l : locals) (evs : list event)
    (out : res ctl) :
  iteration lockfile tmp l evs out ->
  out <> Val (Return 0) -> out <> Val (Return LOCK_ERR_MAXRETRIES) ->
  tmp <> lockfile ->
  Forall (fun e => ev_call e <> Unlink tmp) evs.
Proof.
  intros H H0 H4 Hne.
  inversion H; subst; try contradiction;
    repeat (apply Forall_app; split);
    try (eapply head_no_unlink; eassumption);
    try (apply checker_no_unlink; assumption);
    repeat constructor; cbn; congruence.
Qed.

Lemma loop_rmstale_no_cleanup (lockfile tmp : string) (l : locals) (evs : list event) :
  loop_run lockfile tmp l evs (Val (Some LOCK_ERR_RMSTALE)) ->
  tmp <> lockfile ->
  Forall (fun e => ev_call e <> Unlink tmp) evs.
Proof.
  intros H Hne. remember (Val (Some LOCK_ERR_RMSTALE)) as out eqn:E.
  induction H as [l G|l evs v G Hit|l evs f G Hit|l evs l' evs' out G Hit Hrun IH];
    try discriminate.
  - injection E as ->.
    apply (iteration_no_cleanup _ _ _ _ _ Hit); [discriminate|discriminate|exact Hne].
  - apply Forall_app. split; [|exact (IH E)].
    apply (iteration_no_cleanup _ _ _ _ _ Hit); [discriminate|discriminate|exact Hne].
Qed.

(** In every run that returns LOCK_ERR_RMSTALE the temporary file was
    created and no call removes it. *)
Lemma try_create_rmstale (lockfile : option string) (pid : Z) (buf : option string)
    (size retries : Z) (s : state os) :
  fst (lockfile_try_create os lockfile pid buf size retries s) = Val LOCK_ERR_RMSTALE ->
  exists lf tmp pre evs,
    lockfile = Some lf /\ setup tmp pre /\
    trace (snd (lockfile_try_create os lockfile pid buf size retries s))
      = trace s ++ pre ++ evs /\
    (tmp <> lf -> Forall (fun e => ev_call e <> Unlink tmp) (pre ++ evs)).
Proof.
  intros Hv.
  destruct (try_create_spec lockfile pid buf size retries s) as (evs & Ht & Hrun).
  rewrite Hv in Hrun.
  inversion Hrun as [| | |lf tmp pre evs' v Hlf Hpre Hloop| |]; subst.
  exists lf, tmp, pre, evs'. repeat split; try assumption.
  intros Hne. apply Forall_app. split.
  - destruct Hpre as (? & ? & ? & ? & ? & ? & ? & ? & ->).
    repeat constructor; discriminate.
  - apply (loop_rmstale_no_cleanup _ _ _ _ Hloop Hne).
Qed.

End NoCleanup.

(** C7 asks that every failure after the creation of the temporary file
    remove it, LOCK_ERR_RMSTALE included.  The code departs from it: the
    lock names a process that is gone, and its entry cannot be removed;
    the call returns LOCK_ERR_RMSTALE without a call to unlink the
    temporary file, which stays in the directory. *)
Lemma rmstale_leaves_tmplock :
  let out := ap_lockfile_create MiniFS.mini (Some Scenario.lock) 4242 1
               (MiniFS.start Scenario.sticky) in
  fst out = Val LOCK_ERR_RMSTALE /\
  In (Open "/run/lock/ap.lk042424" 524481 420) (MiniFS.calls (snd out)) /\
  ~ In (Unlink "/run/lock/ap.lk042424") (MiniFS.calls (snd out)) /\
  last (trace (snd out)) = Some (Ev (Unlink Scenario.lock) (-1) None) /\
  MiniFS.dir (world (snd out)) !! "/run/lock/ap.lk042424" = Some (1, 1000).
Proof.
  cbv zeta. split; [vm_compute; reflexivity|].
  split; [vm_compute; do 3 right; left; reflexivity|].
  split.
  - vm_compute. intros H. repeat (destruct H as [H|H]; [discriminate H|]). exact H.
  - split; vm_compute; reflexivity.
Qed.

(** ** [ap_lockfile_release] *)

Lemma release_run (os : OS) (lockfile : string) (s : state os) :
  let r := fst (sys_unlink os lockfile (world s)) in
  let w := snd (sys_unlink os lockfile (world s)) in
  fst (ap_lockfile_release os (Some lockfile) s)
    = Val (if (r <? 0) && negb (sys_errno os w =? ENOENT) then UNLOCK_ERR_GENERIC else 0) /\
  world (snd (ap_lockfile_release os (Some lockfile) s)) = w.
Proof.
  unfold ap_lockfile_release. mred.
  destruct (sys_unlink os lockfile (world s)) as [r w]. mred.
  destruct ((r <? 0) && negb (sys_errno os w =? ENOENT)); split; reflexivity.
Qed.

Lemma release_trace (os : OS) (lockfile : string) (s : state os) :
  trace (snd (ap_lockfile_release os (Some lockfile) s))
  = trace s ++ [Ev (Unlink lockfile) (fst (sys_unlink os lockfile (world s))) None].
Proof.
  unfold ap_lockfile_release. mred.
  destruct (sys_unlink os lockfile (world s)) as [r w]. mred.
  destruct ((r <? 0) && negb (sys_errno os w =? ENOENT)); reflexivity.
Qed.

(** A null path is refused. *)
Lemma release_null (os : OS) (s : state os) :
  ap_lockfile_release os None s = (Val UNLOCK_ERR_GENERIC, s).
Proof. reflexivity. Qed.

(** What the file system has to offer: [view] is the part of the world
    that [unlink] depends on.  A failing [unlink] changes nothing there,
    [unlink] is a function of it, and after a successful [unlink] the
    path is gone, so that a second one fails with ENOENT. *)
Section Release.

Variable os : OS.
Variable V : Type.
Variable view : W os -> V.

Hypothesis unlink_failure_keeps : forall p w,
  fst (sys_unlink os p w) < 0 -> view (snd (sys_unlink os p w)) = view w.

Hypothesis unlink_determined : forall p w1 w2,
  view w1 = view w2 ->
  fst (sys_unlink os p w1) = fst (sys_unlink os p w2) /\
  view (snd (sys_unlink os p w1)) = view (snd (sys_unlink os p w2)) /\
  (fst (sys_unlink os p w1) < 0 ->
   sys_errno os (snd (sys_unlink os p w1)) = sys_errno os (snd (sys_unlink os p w2))).

Hypothesis unlink_removes : forall p w,
  0 <= fst (sys_unlink os p w) ->
  fst (sys_unlink os p (snd (sys_unlink os p w))) < 0 /\
  sys_errno os (snd (sys_unlink os p (snd (sys_unlink os p w)))) = ENOENT.

(** C9: [ap_lockfile_release] makes one call, [unlink] of the lock
    path, and leaves the file system as that call left it.  It returns 0
    when [unlink] removes the lock path, which is gone from then on, and
    when the path does not exist (ENOENT), and UNLOCK_ERR_GENERIC for
    every other failure of [unlink]; a second release right after the
    first returns what the first returned and leaves the file system as
    the first left it. *)
Theorem release_idempotent (lockfile : string) (s : state os) :
  let r := fst (sys_unlink os lockfile (world s)) in
  let e := sys_errno os (snd (sys_unlink os lockfile (world s))) in
  let once := ap_lockfile_release os (Some lockfile) s in
  let twice := ap_lockfile_release os (Some lockfile) (snd once) in
  trace (snd once) = trace s ++ [Ev (Unlink lockfile) r None] /\
  world (snd once) = snd (sys_unlink os lockfile (world s)) /\
  (0 <= r ->
   fst once = Val 0 /\
   fst (sys_unlink os lockfile (world (snd once))) < 0 /\
   sys_errno os (snd (sys_unlink os lockfile (world (snd once)))) = ENOENT) /\
  (r < 0 -> e = ENOENT -> fst once = Val 0) /\
  (r < 0 -> e <> ENOENT -> fst once = Val UNLOCK_ERR_GENERIC) /\
  fst twice = fst once /\
  view (world (snd twice)) = view (world (snd once)).
Proof.
  intros r e once twice.
  split; [apply release_trace|].
  destruct (release_run os lockfile s) as [H1 W1]. cbv zeta in H1, W1.
  destruct (release_run os lockfile (snd once)) as [H2 W2]. cbv zeta in H2, W2.
  fold once in H1, W1. fold twice in H2, W2. fold r e in H1.
  split; [exact W1|].
  rewrite W1 in H2, W2. rewrite H2, W2, H1, W1.
  set (w1 := snd (sys_unlink os lockfile (world s))) in *.
  assert (Hfirst :
    (0 <= r -> (r <? 0) && negb (e =? ENOENT) = false) /\
    (r < 0 -> e = ENOENT -> (r <? 0) && negb (e =? ENOENT) = false) /\
    (r < 0 -> e <> ENOENT -> (r <? 0) && negb (e =? ENOENT) = true)).
  { destruct (Z.ltb_spec r 0), (Z.eqb_spec e ENOENT); cbn [andb negb];
      repeat split; intros; try reflexivity; try lia; try contradiction. }
  destruct Hfirst as (F1 & F2 & F3).
  split; [intros H; rewrite (F1 H); split;
            [reflexivity | exact (unlink_removes lockfile (world s) H)]|].
  split; [intros H He; rewrite (F2 H He); reflexivity|].
  split; [intros H He; rewrite (F3 H He); reflexivity|].
  destruct (Z.lt_ge_cases r 0) as [Hneg|Hpos].
  - pose proof (unlink_failure_keeps lockfile (world s) Hneg) as Hkeep. fold w1 in Hkeep.
    destruct (unlink_determined lockfile w1 (world s) Hkeep) as (Hr & Hv & He).
    fold r in Hr. fold w1 in Hv. rewrite Hr in He. specialize (He Hneg).
    fold w1 in He. fold e in He.
    rewrite Hr, He. split; [reflexivity | exact Hv].
  - destruct (unlink_removes lockfile (world s) Hpos) as [Hr He]. fold w1 in Hr, He.
    rewrite He, (F1 Hpos). rewrite Z.eqb_refl. cbn [negb]. rewrite andb_false_r.
    split; [reflexivity|]. apply unlink_failure_keeps. exact Hr.
Qed.

End Release.

(** [MiniFS] is such a file system. *)
Section MiniFSLaws.
Import MiniFS.

Lemma mini_unlink_failure_keeps (p : string) (w : fs) :
  fst (sys_unlink mini p w) < 0 -> view (snd (sys_unlink mini p w)) = view w.
Proof.
  cbn [sys_unlink mini]. unfold mini_unlink.
  destruct (dir w !! p); [destruct (decide (p ∈ protected w))|]; cbn; intros; try lia;
    reflexivity.
Qed.

Lemma mini_unlink_determined (p : string) (w1 w2 : fs) :
  view w1 = view w2 ->
  fst (sys_unlink mini p w1) = fst (sys_unlink mini p w2) /\
  view (snd (sys_unlink mini p w1)) = view (snd (sys_unlink mini p w2)) /\
  (fst (sys_unlink mini p w1) < 0 ->
   sys_errno mini (snd (sys_unlink mini p w1)) = sys_errno mini (snd (sys_unlink mini p w2))).
Proof.
  unfold view. intros [= Hd Hp]. cbn [sys_unlink sys_errno mini]. unfold mini_unlink.
  rewrite Hd, Hp.
  destruct (dir w2 !! p); [destruct (decide (p ∈ protected w2))|]; cbn; unfold view; cbn;
    rewrite ?Hd, ?Hp; repeat split; intros; try reflexivity; lia.
Qed.

Lemma mini_unlink_removes (p : string) (w : fs) :
  0 <= fst (sys_unlink mini p w) ->
  fst (sys_unlink mini p (snd (sys_unlink mini p w))) < 0 /\
  sys_errno mini (snd (sys_unlink mini p (snd (sys_unlink mini p w)))) = ENOENT.
Proof.
  cbn [sys_unlink sys_errno mini].
  destruct (mini_unlink p w) as [r w'] eqn:E. cbn [fst snd]. intros Hr.
  assert (Hgone : dir w' !! p = None).
  { unfold mini_unlink in E.
    destruct (dir w !! p); [destruct (decide (p ∈ protected w))|];
      injection E as <- <-; cbn in Hr; try lia.
    cbn. apply lookup_delete_eq. }
  unfold mini_unlink. rewrite Hgone. cbn. split; [lia|reflexivity].
Qed.

End MiniFSLaws.

Lemma release_idempotent_witness :
  let once := ap_lockfile_release MiniFS.mini (Some Scenario.lock)
                (MiniFS.start Scenario.dead) in
  let twice := ap_lockfile_release MiniFS.mini (Some Scenario.lock) (snd once) in
  MiniFS.dir Scenario.dead !! Scenario.lock = Some (1, 7) /\
  fst once = Val 0 /\
  trace (snd once) = [Ev (Unlink Scenario.lock) 0 None] /\
  MiniFS.dir (world (snd once)) !! Scenario.lock = None /\
  fst twice = Val 0 /\
  MiniFS.view (world (snd twice)) = MiniFS.view (world (snd once)).
Proof.
  intros once twice.
  destruct (release_idempotent MiniFS.mini _ MiniFS.view
              mini_unlink_failure_keeps mini_unlink_determined
              mini_unlink_removes Scenario.lock (MiniFS.start Scenario.dead))
    as (Ht & Hw & H0 & _ & _ & H2 & Hv).
  fold once in Ht, Hw, H0, H2, Hv. fold twice in H2, Hv.
  assert (H1 : fst once = Val 0) by (apply H0; vm_compute; discriminate).
  split; [vm_compute; reflexivity|].
  split; [exact H1|].
  split; [rewrite Ht; vm_compute; reflexivity|].
  split; [rewrite Hw; vm_compute; reflexivity|].
  split; [rewrite H2; exact H1 | exact Hv].
Defined.

(** Releasing a lock that nobody holds succeeds, and releasing a lock
    whose entry is protected fails. *)
Example release_examples :
  fst (ap_lockfile_release MiniFS.mini (Some Scenario.lock) (MiniFS.start Scenario.free))
    = Val 0 /\
  fst (ap_lockfile_release MiniFS.mini (Some Scenario.lock) (MiniFS.start Scenario.sticky))
    = Val UNLOCK_ERR_GENERIC.
Proof. split; vm_compute; reflexivity. Qed.

(** ** The pid record and the temporary name as strings *)

Lemma chars_app (a b : string) :
  list_ascii_of_string (a +:+ b) = list_ascii_of_string a ++ list_ascii_of_string b.
Proof. induction a as [|c a IH]; simpl; [reflexivity|]. f_equal. exact IH. Qed.

Lemma length_chars (s : string) : length (list_ascii_of_string s) = String.length s.
Proof. induction s as [|c s IH]; simpl; [reflexivity|]. f_equal. exact IH. Qed.

Lemma length_append (a b : string) :
  String.length (a +:+ b) = (String.length a + String.length b)%nat.
Proof. rewrite <- !length_chars, chars_app, length_app. reflexivity. Qed.

Lemma chars_inj (a b : string) :
  list_ascii_of_string a = list_ascii_of_string b -> a = b.
Proof.
  intros H. rewrite <- (string_of_list_ascii_of_string a),
    <- (string_of_list_ascii_of_string b), H. reflexivity.
Qed.

Lemma digit_cases (d : Z) :
  0 <= d < 10 ->
  d = 0 \/ d = 1 \/ d = 2 \/ d = 3 \/ d = 4 \/ d = 5 \/ d = 6 \/ d = 7 \/ d = 8 \/ d = 9.
Proof. lia. Qed.

Lemma digit_char_value (d : Z) :
  0 <= d < 10 ->
  isdigit (digit_char d) = true /\
  Z.of_nat (nat_of_ascii (digit_char d)) - 48 = d /\
  digit_char d <> NUL.
Proof.
  intros H. destruct (digit_cases d H) as [->|[->|[->|[->|[->|[->|[->|[->|[->| ->]]]]]]]]];
    repeat split; try reflexivity; discriminate.
Qed.

(** What [atoi] needs to know about a digit. *)
Lemma isdigit_strtol (c : ascii) (s : list ascii) :
  isdigit c = true ->
  strtol10 (c :: s) = Z.max LONG_MIN (Z.min LONG_MAX (digits_val (c :: s) 0)).
Proof.
  destruct c as [[] [] [] [] [] [] [] []]; intros H; try discriminate H; reflexivity.
Qed.

Lemma fmt_digits_acc (fuel : nat) (base n : Z) (acc : string) :
  fmt_digits fuel base n acc = fmt_digits fuel base n "" +:+ acc.
Proof.
  revert n acc. induction fuel as [|fuel IH]; intros n acc; cbn; [reflexivity|].
  destruct (n / base =? 0); [reflexivity|].
  rewrite (IH _ (String _ acc)), (IH _ (String _ "")).
  apply chars_inj. rewrite !chars_app. cbn. rewrite <- app_assoc. reflexivity.
Qed.

(** Reading back the digits that were printed. *)
Lemma fmt_digits_val (fuel : nat) :
  forall (n : Z) (acc : string),
    0 <= n < 10 ^ Z.of_nat fuel ->
    digits_val (list_ascii_of_string (fmt_digits fuel 10 n acc)) 0
    = digits_val (list_ascii_of_string acc) n.
Proof.
  induction fuel as [|fuel IH]; intros n acc Hn.
  - cbn in *. assert (n = 0) as -> by lia. reflexivity.
  - cbn [fmt_digits].
    assert (Hd : 0 <= n mod 10 < 10) by (apply Z.mod_pos_bound; lia).
    destruct (digit_char_value _ Hd) as (Hdig & Hval & _).
    assert (Hstep : digits_val (list_ascii_of_string (String (digit_char (n mod 10)) acc))
                      (n / 10)
                    = digits_val (list_ascii_of_string acc) n).
    { cbn. rewrite Hdig, Hval. f_equal.
      pose proof (Z.div_mod n 10 ltac:(lia)). lia. }
    destruct (Z.eqb_spec (n / 10) 0) as [Hz|Hz].
    + rewrite Hz in Hstep. exact Hstep.
    + rewrite IH; [exact Hstep|].
      rewrite Nat2Z.inj_succ, Z.pow_succ_r in Hn by lia.
      split; [apply Z.div_pos; lia|]. apply Z.div_lt_upper_bound; lia.
Qed.

Lemma fmt_digits_length (fuel : nat) :
  forall (k : nat) (n : Z) (acc : string),
    0 <= n < 10 ^ Z.of_nat k -> (1 <= k <= fuel)%nat ->
    (1 + String.length acc <= String.length (fmt_digits fuel 10 n acc)
     <= k + String.length acc)%nat.
Proof.
  induction fuel as [|fuel IH]; intros k n acc Hn Hk; [lia|].
  cbn [fmt_digits]. destruct (Z.eqb_spec (n / 10) 0) as [Hz|Hz]; [cbn; lia|].
  assert (Hk2 : (2 <= k)%nat).
  { destruct k as [|[|k]]; [lia| |lia]. exfalso. apply Hz.
    apply Z.div_small. change (10 ^ Z.of_nat 1) with 10 in Hn. lia. }
  destruct k as [|k]; [lia|].
  rewrite Nat2Z.inj_succ, Z.pow_succ_r in Hn by lia.
  specialize (IH k (n / 10) (String (digit_char (n mod 10)) acc)).
  cbn [String.length] in IH.
  assert (0 <= n / 10 < 10 ^ Z.of_nat k).
  { split; [apply Z.div_pos; lia|]. apply Z.div_lt_upper_bound; lia. }
  specialize (IH ltac:(assumption) ltac:(lia)). lia.
Qed.

Lemma fmt_digits_chars (P : ascii -> Prop) (fuel : nat) :
  (forall d, 0 <= d < 10 -> P (digit_char d)) ->
  forall (n : Z) (acc : string),
    Forall P (list_ascii_of_string acc) ->
    Forall P (list_ascii_of_string (fmt_digits fuel 10 n acc)).
Proof.
  intros HP. induction fuel as [|fuel IH]; intros n acc Hacc; [exact Hacc|].
  cbn [fmt_digits].
  assert (Hd : 0 <= n mod 10 < 10) by (apply Z.mod_pos_bound; lia).
  assert (Forall P (list_ascii_of_string (String (digit_char (n mod 10)) acc))).
  { cbn. constructor; [apply HP; exact Hd | exact Hacc]. }
  destruct (n / 10 =? 0); [assumption | apply IH; assumption].
Qed.

Lemma fmt_digits_head (fuel : nat) :
  forall (n : Z) (acc : string),
    fuel <> O ->
    exists c r, fmt_digits fuel 10 n acc = String c r /\ isdigit c = true.
Proof.
  induction fuel as [|fuel IH]; intros n acc Hf; [contradiction|].
  cbn [fmt_digits].
  assert (Hd : 0 <= n mod 10 < 10) by (apply Z.mod_pos_bound; lia).
  destruct (digit_char_value _ Hd) as (Hdig & _ & _).
  destruct (n / 10 =? 0); [eauto|].
  destruct fuel as [|fuel]; [cbn; eauto|]. apply IH. discriminate.
Qed.

Lemma zeros_val (k : nat) (s : list ascii) :
  digits_val (list_ascii_of_string (zeros k) ++ s) 0 = digits_val s 0.
Proof. induction k as [|k IH]; [reflexivity|]. cbn. exact IH. Qed.

Lemma zeros_length (k : nat) : String.length (zeros k) = k.
Proof. induction k as [|k IH]; cbn; [reflexivity|]. rewrite IH. reflexivity. Qed.

Lemma fmt_u_val (n : Z) (s : string) :
  0 <= n <= INT_MAX + 1 ->
  digits_val (list_ascii_of_string (fmt_u 10 n +:+ s)) 0
  = digits_val (list_ascii_of_string s) n.
Proof.
  intros Hn. unfold fmt_u. rewrite <- fmt_digits_acc. apply fmt_digits_val.
  unfold INT_MAX in Hn. split; [lia|].
  apply Z.le_lt_trans with (10 ^ 10); [lia|]. apply Z.pow_lt_mono_r; lia.
Qed.

Lemma fmt_u_length (k : nat) (n : Z) :
  0 <= n < 10 ^ Z.of_nat k -> (1 <= k <= 64)%nat ->
  (1 <= String.length (fmt_u 10 n) <= k)%nat.
Proof.
  intros Hn Hk. pose proof (fmt_digits_length 64 k n "" Hn Hk) as H.
  change (String.length "") with O in H. unfold fmt_u. lia.
Qed.

Lemma buf_string_app (data : list ascii) (rest : list (option ascii)) :
  Forall (fun c => c <> NUL) data ->
  buf_string ((Some <$> data) ++ Some NUL :: rest) = Some data.
Proof.
  induction 1 as [|c data Hc _ IH]; [reflexivity|].
  cbn. destruct (Ascii.eqb_spec c NUL); [contradiction|].
  cbn in IH. rewrite IH. reflexivity.
Qed.

(** The bytes of a lock file of at most 15 bytes without a NUL are read
    back as they are: the pid is [atoi] of the content. *)
Lemma parse_record_ok (data : list ascii) :
  (length data <= 15)%nat -> Forall (fun c => c <> NUL) data ->
  parse_record data = Some (atoi data).
Proof.
  intros Hlen Hnul. unfold parse_record, buf_store.
  rewrite take_ge by lia.
  rewrite buf_fill_length by (rewrite length_replicate; lia).
  rewrite length_replicate.
  destruct (Z.leb_spec 0 (Z.of_nat (length data))); [|lia].
  destruct (Z.ltb_spec (Z.of_nat (length data)) (Z.of_nat 16)); [|lia].
  cbn [andb]. rewrite Nat2Z.id. unfold buf_fill.
  rewrite drop_replicate.
  replace (16 - length data)%nat with (S (15 - length data)) by lia.
  cbn [replicate].
  rewrite insert_app_r_alt by (rewrite length_fmap; lia).
  rewrite length_fmap, Nat.sub_diag. cbn [insert list_insert].
  rewrite buf_string_app by assumption. reflexivity.
Qed.

Lemma pid_record_chars (pid : Z) :
  Forall (fun c => c <> NUL) (list_ascii_of_string (pid_record pid)).
Proof.
  unfold pid_record, fmt_d, fmt_u.
  assert (Hd : forall n, Forall (fun c => c <> NUL)
                 (list_ascii_of_string (fmt_digits 64 10 n ""))).
  { intros n. apply fmt_digits_chars; [|constructor].
    intros d Hd. apply (digit_char_value d Hd). }
  destruct (pid <? 0); rewrite !chars_app; repeat (apply Forall_app; split);
    try apply Hd; repeat constructor; discriminate.
Qed.

Lemma pid_record_length (pid : Z) :
  INT_MIN <= pid <= INT_MAX ->
  (2 <= String.length (pid_record pid) <= 12)%nat.
Proof.
  unfold INT_MIN, INT_MAX. intros H. unfold pid_record, fmt_d.
  destruct (Z.ltb_spec pid 0).
  - pose proof (fmt_u_length 10 (- pid)) as Hl.
    rewrite !length_append. cbn [String.length].
    assert (0 <= - pid < 10 ^ Z.of_nat 10) by (change (10 ^ Z.of_nat 10) with 10000000000; lia).
    specialize (Hl ltac:(assumption) ltac:(lia)). lia.
  - pose proof (fmt_u_length 10 pid) as Hl.
    rewrite !length_append. cbn [String.length].
    assert (0 <= pid < 10 ^ Z.of_nat 10) by (change (10 ^ Z.of_nat 10) with 10000000000; lia).
    specialize (Hl ltac:(assumption) ltac:(lia)). lia.
Qed.

Lemma pid_record_atoi (pid : Z) :
  INT_MIN <= pid <= INT_MAX ->
  atoi (list_ascii_of_string (pid_record pid)) = pid.
Proof.
  intros H. unfold atoi, pid_record, fmt_d.
  assert (Hclamp : Z.max LONG_MIN (Z.min LONG_MAX pid) = pid)
    by (unfold INT_MIN, INT_MAX, LONG_MIN, LONG_MAX in *; lia).
  destruct (Z.ltb_spec pid 0) as [Hneg|Hpos].
  - change (("-" +:+ fmt_u 10 (- pid)) +:+ String (ascii_of_nat 10) "")
      with (String "-"%char (fmt_u 10 (- pid) +:+ String (ascii_of_nat 10) "")).
    cbn [list_ascii_of_string].
    match goal with
    | |- context [strtol10 (?c :: ?s)] =>
        change (strtol10 (c :: s))
          with (Z.max LONG_MIN (Z.min LONG_MAX (- digits_val s 0)))
    end.
    rewrite fmt_u_val by (unfold INT_MIN, INT_MAX in *; lia).
    cbn [list_ascii_of_string digits_val]. change (isdigit _) with false. cbv iota.
    rewrite Z.opp_involutive, Hclamp. apply to_int_small. exact H.
  - destruct (fmt_digits_head 64 pid "" ltac:(discriminate)) as (c & r & Hcr & Hc).
    assert (Hval : digits_val (list_ascii_of_string (fmt_u 10 pid +:+ String (ascii_of_nat 10) "")) 0
                   = pid).
    { rewrite fmt_u_val by (unfold INT_MIN, INT_MAX in *; lia). reflexivity. }
    unfold fmt_u in *. rewrite Hcr in *.
    change (String c r +:+ String (ascii_of_nat 10) "")
      with (String c (r +:+ String (ascii_of_nat 10) "")) in *.
    cbn [list_ascii_of_string] in *.
    rewrite (isdigit_strtol c _ Hc), Hval, Hclamp. apply to_int_small. exact H.
Qed.

(** X1: for every pid of type [int], the record ["%d\n"] has between 2
    and 12 bytes: [snprintf] stores it whole in [pidbuf[40]], and the test
    of line 133 never fails. *)
Theorem pid_record_fits (pid : Z) :
  INT_MIN <= pid <= INT_MAX ->
  let pidlen := fst (snprintf 40 (pid_record pid)) in
  snd (snprintf 40 (pid_record pid)) = pid_record pid /\
  pidlen = Z.of_nat (String.length (pid_record pid)) /\
  2 <= pidlen <= 12 /\
  (pidlen <? 0) || (40 - 1 <? pidlen) = false.
Proof.
  intros H pidlen. pose proof (pid_record_length pid H) as Hl.
  assert (Hp : pidlen = Z.of_nat (String.length (pid_record pid))).
  { subst pidlen. unfold snprintf. cbn [fst].
    destruct (Z.ltb_spec INT_MAX (Z.of_nat (String.length (pid_record pid))));
      [unfold INT_MAX in *; lia | reflexivity]. }
  split; [|split; [exact Hp|split; [lia|]]].
  - unfold snprintf. cbn [snd]. apply substring_all.
    change (Z.to_nat (40 - 1)) with 39%nat. lia.
  - destruct (Z.ltb_spec pidlen 0), (Z.ltb_spec (40 - 1) pidlen); try reflexivity; lia.
Qed.

Lemma pid_record_fits_witness :
  snprintf 40 (pid_record 4242) = (5, pid_record 4242).
Proof.
  destruct (pid_record_fits 4242 ltac:(unfold INT_MIN, INT_MAX; lia)) as (Hs & Hl & _).
  cbv zeta in Hl. rewrite (surjective_pairing (snprintf 40 (pid_record 4242))), Hs, Hl.
  reflexivity.
Defined.

(** X2: the round trip of the lock record.  What [lockfile_try_create]
    writes for a pid of type [int], read into [buf[16]], terminated and
    passed to [atoi] as [lockfile_check_valid] does, gives the pid back. *)
Theorem pid_record_round_trip (pid : Z) :
  INT_MIN <= pid <= INT_MAX ->
  parse_record (list_ascii_of_string (pid_record pid)) = Some pid.
Proof.
  intros H. rewrite parse_record_ok.
  - rewrite pid_record_atoi by exact H. reflexivity.
  - rewrite length_chars. pose proof (pid_record_length pid H). lia.
  - apply pid_record_chars.
Qed.

Lemma pid_record_round_trip_witness :
  parse_record (list_ascii_of_string (pid_record 4242)) = Some 4242.
Proof.
  apply (pid_record_round_trip 4242). unfold INT_MIN, INT_MAX. lia.
Defined.

(** ** The temporary name *)

Lemma fmt_0d_nonneg (p : Z) :
  0 <= p -> fmt_0d TMPLOCK_PID_SIZE p
            = zeros (5 - String.length (fmt_u 10 p)) +:+ fmt_u 10 p.
Proof.
  intros H. unfold fmt_0d, zero_pad. destruct (Z.ltb_spec p 0); [lia|]. reflexivity.
Qed.

Lemma fmt_0d_val (p : Z) :
  0 <= p <= INT_MAX ->
  digits_val (list_ascii_of_string (fmt_0d TMPLOCK_PID_SIZE p)) 0 = p.
Proof.
  intros H. rewrite fmt_0d_nonneg by lia. rewrite chars_app, zeros_val.
  pose proof (fmt_u_val p "" ltac:(lia)) as Hv.
  assert (Happ : fmt_u 10 p +:+ "" = fmt_u 10 p).
  { apply chars_inj. rewrite chars_app. apply app_nil_r. }
  rewrite Happ in Hv. exact Hv.
Qed.

Lemma fmt_0d_length (p : Z) :
  0 <= p <= 99999 -> String.length (fmt_0d TMPLOCK_PID_SIZE p) = 5%nat.
Proof.
  intros H. rewrite fmt_0d_nonneg by lia. rewrite length_append, zeros_length.
  pose proof (fmt_u_length 5 p) as Hl.
  assert (0 <= p < 10 ^ Z.of_nat 5) by (change (10 ^ Z.of_nat 5) with 100000; lia).
  specialize (Hl ltac:(assumption) ltac:(lia)). lia.
Qed.

Lemma hex_cases (h : Z) :
  0 <= h < 16 ->
  h = 0 \/ h = 1 \/ h = 2 \/ h = 3 \/ h = 4 \/ h = 5 \/ h = 6 \/ h = 7 \/
  h = 8 \/ h = 9 \/ h = 10 \/ h = 11 \/ h = 12 \/ h = 13 \/ h = 14 \/ h = 15.
Proof. lia. Qed.

(** The time is printed as one character, from which its four low bits
    can be read. *)
Lemma fmt_0x_digit (h : Z) :
  0 <= h < 16 ->
  fmt_0x TMPLOCK_TIME_SIZE h = String (digit_char h) "" /\
  Z.of_nat (nat_of_ascii (digit_char h)) = (if h <? 10 then 48 + h else 87 + h).
Proof.
  intros H.
  destruct (hex_cases h H)
    as [->|[->|[->|[->|[->|[->|[->|[->|[->|[->|[->|[->|[->|[->|[->| ->]]]]]]]]]]]]]]];
    split; reflexivity.
Qed.

Lemma time_digit_range (now : Z) : 0 <= Z.land (to_int now) 15 < 16.
Proof. rewrite time_digit_mod16. apply Z.mod_pos_bound. lia. Qed.

(** The names as composed, before they are stored in a buffer: for one
    lock path, two of them are equal exactly when they were made for the
    same process id and for times equal modulo 16. *)
Lemma tmplock_name_inj (lockfile : string) (pid1 now1 pid2 now2 : Z) :
  0 <= pid1 <= INT_MAX -> 0 <= pid2 <= INT_MAX ->
  (tmplock_name lockfile pid1 now1 = tmplock_name lockfile pid2 now2
   <-> pid1 = pid2 /\ now1 mod 16 = now2 mod 16).
Proof.
  intros H1 H2. unfold tmplock_name.
  rewrite (to_int_small pid1), (to_int_small pid2)
    by (unfold INT_MIN, INT_MAX in *; lia).
  pose proof (time_digit_range now1) as R1. pose proof (time_digit_range now2) as R2.
  destruct (fmt_0x_digit _ R1) as [X1 N1]. destruct (fmt_0x_digit _ R2) as [X2 N2].
  rewrite X1, X2. split.
  - intros Heq. apply (f_equal list_ascii_of_string) in Heq.
    rewrite !chars_app in Heq. do 2 apply app_inv_head in Heq.
    apply app_inj_2 in Heq as [Hp Ht]; [|reflexivity].
    split.
    + rewrite <- (fmt_0d_val pid1 H1), <- (fmt_0d_val pid2 H2), Hp. reflexivity.
    + injection Ht as Ht. apply (f_equal nat_of_ascii) in Ht.
      apply (f_equal Z.of_nat) in Ht. rewrite N1, N2 in Ht.
      rewrite <- !time_digit_mod16.
      destruct (Z.ltb_spec (Z.land (to_int now1) 15) 10),
               (Z.ltb_spec (Z.land (to_int now2) 15) 10); lia.
  - intros [-> Ht]. rewrite !time_digit_mod16, Ht. reflexivity.
Qed.

Example tmplock_name_inj_ex :
  tmplock_name "/run/lock/ap" 4242 100 = tmplock_name "/run/lock/ap" 4242 116 /\
  tmplock_name "/run/lock/ap" 4242 100 <> tmplock_name "/run/lock/ap" 4243 100.
Proof.
  assert (R : 0 <= 4242 <= INT_MAX /\ 0 <= 4243 <= INT_MAX) by (unfold INT_MAX; lia).
  destruct R as [R1 R2]. split.
  - apply (tmplock_name_inj "/run/lock/ap" 4242 100 4242 116 R1 R1).
    split; reflexivity.
  - intros H.
    apply (tmplock_name_inj "/run/lock/ap" 4242 100 4243 100 R1 R2) in H as [H _].
    discriminate H.
Qed.

Lemma tmplock_name_length (lockfile : string) (pid now : Z) :
  0 <= pid <= 99999 ->
  String.length (tmplock_name lockfile pid now) = (String.length lockfile + 9)%nat.
Proof.
  intros H. unfold tmplock_name.
  rewrite to_int_small by (unfold INT_MIN, INT_MAX; lia).
  destruct (fmt_0x_digit _ (time_digit_range now)) as [X _]. rewrite X.
  rewrite !length_append, fmt_0d_length by exact H. cbn. lia.
Qed.

(** X4: for a process id of at most five digits, the buffer that
    [ap_lockfile_create] allocates, of [strlen(lockfile)] +
    TMPLOCK_SUFFIX_SIZE + 1 bytes, holds the temporary name exactly:
    [tmplock_filename] returns 0 with the full name, nine characters
    longer than the lock path. *)
Theorem tmplock_filename_exact (os : OS) (lockfile buf : string) (s : state os) :
  let pid := fst (sys_getpid os (world s)) in
  let now := fst (sys_time os (snd (sys_getpid os (world s)))) in
  0 <= pid <= 99999 ->
  Z.of_nat (String.length lockfile) + 9 <= INT_MAX ->
  fst (tmplock_filename os (Some lockfile) (Some buf)
         (Z.of_nat (String.length lockfile) + TMPLOCK_SUFFIX_SIZE + 1) s)
    = Val (0, Some (tmplock_name lockfile pid now)) /\
  String.length (tmplock_name lockfile pid now) = (String.length lockfile + 9)%nat.
Proof.
  intros pid now Hpid Hlen.
  pose proof (tmplock_name_length lockfile pid now Hpid) as Hl.
  split; [|exact Hl].
  pose proof (tmplock_filename_run os lockfile buf
                (Z.of_nat (String.length lockfile) + TMPLOCK_SUFFIX_SIZE + 1) s) as Hrun.
  cbv zeta in Hrun. fold pid now in Hrun. rewrite Hrun.
  - rewrite Hl. destruct (Z.ltb_spec INT_MAX (Z.of_nat (String.length lockfile + 9))); [lia|].
    rewrite substring_all; [reflexivity|]. rewrite Hl.
    change TMPLOCK_SUFFIX_SIZE with 9. lia.
  - change TMPLOCK_SUFFIX_SIZE with 9. lia.
Qed.

Lemma tmplock_filename_exact_witness :
  fst (tmplock_filename MiniFS.mini (Some Scenario.lock) (Some "") 22
         (MiniFS.start Scenario.free))
  = Val (0, Some (tmplock_name Scenario.lock 4242 100)).
Proof.
  apply (tmplock_filename_exact MiniFS.mini Scenario.lock "" (MiniFS.start Scenario.free)).
  - vm_compute. split; discriminate.
  - vm_compute. discriminate.
Defined.

(** In the buffer of [ap_lockfile_create], the name of a process id of
    at most five digits is the name as composed. *)
Lemma tmplock_filename_full (os : OS) (lockfile buf : string) (s : state os) :
  let pid := fst (sys_getpid os (world s)) in
  let now := fst (sys_time os (snd (sys_getpid os (world s)))) in
  0 <= pid <= 99999 ->
  Z.of_nat (String.length lockfile) + 9 <= INT_MAX ->
  fst (tmplock_filename os (Some lockfile) (Some buf)
         (Z.of_nat (String.length lockfile) + TMPLOCK_SUFFIX_SIZE + 1) s)
    = Val (0, Some (tmplock_name lockfile pid now)).
Proof.
  intros pid now Hpid Hlen.
  pose proof (tmplock_name_length lockfile pid now Hpid) as Hl.
  pose proof (tmplock_filename_run os lockfile buf
                (Z.of_nat (String.length lockfile) + TMPLOCK_SUFFIX_SIZE + 1) s) as Hrun.
  cbv zeta in Hrun. fold pid now in Hrun. rewrite Hrun.
  - rewrite Hl. destruct (Z.ltb_spec INT_MAX (Z.of_nat (String.length lockfile + 9))); [lia|].
    rewrite substring_all; [reflexivity|]. rewrite Hl.
    change TMPLOCK_SUFFIX_SIZE with 9. lia.
  - change TMPLOCK_SUFFIX_SIZE with 9. lia.
Qed.

(** X3: for process ids of at most five digits, the names that
    [tmplock_filename] leaves in the buffer of [ap_lockfile_create] for
    one lock path are equal exactly when the process ids are equal and
    the times are equal modulo 16: two such processes never work on the
    same temporary file. *)
Theorem tmplock_filename_inj (os : OS) (lockfile buf1 buf2 : string)
    (s1 s2 : state os) :
  let size := Z.of_nat (String.length lockfile) + TMPLOCK_SUFFIX_SIZE + 1 in
  let pid1 := fst (sys_getpid os (world s1)) in
  let now1 := fst (sys_time os (snd (sys_getpid os (world s1)))) in
  let pid2 := fst (sys_getpid os (world s2)) in
  let now2 := fst (sys_time os (snd (sys_getpid os (world s2)))) in
  0 <= pid1 <= 99999 -> 0 <= pid2 <= 99999 ->
  Z.of_nat (String.length lockfile) + 9 <= INT_MAX ->
  exists n1 n2,
    fst (tmplock_filename os (Some lockfile) (Some buf1) size s1) = Val (0, Some n1) /\
    fst (tmplock_filename os (Some lockfile) (Some buf2) size s2) = Val (0, Some n2) /\
    (n1 = n2 <-> pid1 = pid2 /\ now1 mod 16 = now2 mod 16).
Proof.
  intros size pid1 now1 pid2 now2 H1 H2 Hlen.
  exists (tmplock_name lockfile pid1 now1), (tmplock_name lockfile pid2 now2).
  split; [apply (tmplock_filename_full os lockfile buf1 s1 H1 Hlen)|].
  split; [apply (tmplock_filename_full os lockfile buf2 s2 H2 Hlen)|].
  apply tmplock_name_inj; unfold INT_MAX; lia.
Qed.

Lemma tmplock_filename_inj_witness :
  exists n1 n2,
    fst (tmplock_filename MiniFS.mini (Some Scenario.lock) (Some "") 22
           (MiniFS.start Scenario.free)) = Val (0, Some n1) /\
    fst (tmplock_filename MiniFS.mini (Some Scenario.lock) (Some "") 22
           (MiniFS.start Scenario.aging)) = Val (0, Some n2) /\
    (n1 = n2 <-> 4242 = 4242 /\ 100 mod 16 = 1297 mod 16).
Proof.
  apply (tmplock_filename_inj MiniFS.mini Scenario.lock "" ""
           (MiniFS.start Scenario.free) (MiniFS.start Scenario.aging)).
  - vm_compute. split; discriminate.
  - vm_compute. split; discriminate.
  - vm_compute. discriminate.
Defined.

(** Longer process ids are cut (see [tmplock_filename_cuts]) and can
    meet: 4194303 and 4194301 leave the same name in the buffer. *)
Example tmplock_filename_meet :
  fst (tmplock_filename MiniFS.mini (Some Scenario.lock) (Some "") 22
         (MiniFS.start Scenario.bigpid))
  = Val (0, Some "/run/lock/ap.lk419430") /\
  fst (tmplock_filename MiniFS.mini (Some Scenario.lock) (Some "") 22
         (MiniFS.start (MiniFS.boot [] 27 4194301 [] [] true)))
  = Val (0, Some "/run/lock/ap.lk419430").
Proof. split; vm_compute; reflexivity. Qed.

(** ** The whole of an acquisition *)

Section Whole.

Context {os : OS}.

(** [ap_lockfile_create] on a path: nothing at all for [retries = 0],
    a failed [malloc], or [malloc] and a run of [lockfile_try_create]. *)
Lemma ap_create_run (lockfile : string) (pid retries : Z) (s : state os) :
  let out := ap_lockfile_create os (Some lockfile) pid retries s in
  (fst out = Val LOCK_ERR_GENERIC /\
   (trace (snd out) = trace s ++ [] \/
    exists n, trace (snd out) = trace s ++ [Ev (Malloc n) 0 None])) \/
  (exists n evs,
     trace (snd out) = trace s ++ Ev (Malloc n) 1 None :: evs /\
     create_run (Some lockfile) (int_add (to_int retries) 1) evs (fst out)).
Proof.
  unfold ap_lockfile_create.
  destruct (retries =? 0).
  { left. split; [reflexivity|]. left. cbn. rewrite app_nil_r. reflexivity. }
  mred.
  match goal with
  | |- context [sys_malloc os ?n (world s)] =>
      destruct (sys_malloc os n (world s)) as [ok w1]
  end. mred.
  destruct ok; cbn [negb]; mred.
  - right.
    match goal with
    | |- context [lockfile_try_create os ?a ?b ?c ?d ?e ?sx] =>
        destruct (try_create_spec a b c d e sx) as (evs & Ht & Hrun)
    end.
    cbn [trace] in Ht. rewrite Ht, <- app_assoc. eexists _, evs.
    split; [reflexivity | exact Hrun].
  - left. split; [reflexivity|]. right. eexists. reflexivity.
Qed.

Lemma loop_no_guard (lockfile tmp : string) (l : locals) (evs : list event)
    (out : res (option Z)) :
  loop_run lockfile tmp l evs out -> ~ guard l -> evs = [] /\ out = Val None.
Proof. intros H G. inversion H; subst; try contradiction. auto. Qed.

Lemma fault_cases (f : fault) : f <> NoFuel -> f = OutOfBounds \/ f = BadString.
Proof. destruct f; auto. contradiction. Qed.

Lemma loop_faults (lockfile tmp : string) (l : locals) (evs : list event) (f : fault) :
  loop_run lockfile tmp l evs (Fault f) -> f = OutOfBounds \/ f = BadString.
Proof.
  intros H. apply fault_cases. intros ->.
  apply loop_no_fuel_fault in H. contradiction.
Qed.

End Whole.

(** X7: [ap_lockfile_create] returns 0, LOCK_ERR_TMPLOCK,
    LOCK_ERR_TMPWRITE, LOCK_ERR_MAXRETRIES, LOCK_ERR_GENERIC or
    LOCK_ERR_RMSTALE, never LOCK_ERR_ORPHANED or another value; the only
    other way out is the undefined string handling of
    [lockfile_check_valid]. *)
Theorem ap_create_codes (os : OS) (lockfile : option string) (pid retries : Z)
    (s : state os) :
  match fst (ap_lockfile_create os lockfile pid retries s) with
  | Val v =>
      v = 0 \/ v = LOCK_ERR_TMPLOCK \/ v = LOCK_ERR_TMPWRITE \/
      v = LOCK_ERR_MAXRETRIES \/ v = LOCK_ERR_GENERIC \/ v = LOCK_ERR_RMSTALE
  | Fault f => f = OutOfBounds \/ f = BadString
  end.
Proof.
  destruct lockfile as [lf|]; [|cbn; tauto].
  destruct (ap_create_run lf pid retries s) as [[Hv _]|(n & evs & _ & Hrun)].
  - rewrite Hv. tauto.
  - destruct (fst (ap_lockfile_create os (Some lf) pid retries s)) as [v|f].
    + inversion Hrun as [| | |? ? ? ? ? ? ? Hloop| |]; subst; try tauto.
      apply loop_returns in Hloop as [[-> _]|[[-> _]|[[-> _]|[-> _]]]]; tauto.
    + inversion Hrun as [| | | | |? ? ? ? ? ? ? Hloop]; subst.
      apply loop_faults in Hloop. exact Hloop.
Qed.

(** X8: [ap_lockfile_create] returns 0 only at the end of a run whose
    last three calls are [lstat] of the temporary file, [lstat] of the
    lock path, both successful and equal in [st_rdev] and [st_ino], and
    [unlink] of the temporary file; what [link] returned is not asked. *)
Theorem ap_create_confirmed (os : OS) (lockfile : string) (pid retries : Z)
    (s : state os) :
  fst (ap_lockfile_create os (Some lockfile) pid retries s) = Val 0 ->
  exists tmp pre r1 st1 r st ru,
    trace (snd (ap_lockfile_create os (Some lockfile) pid retries s))
    = trace s ++ pre ++
        [Ev (Lstat tmp) r1 (Some st1); Ev (Lstat lockfile) r (Some st);
         Ev (Unlink tmp) ru None] /\
    0 <= r1 /\ 0 <= r /\ st_rdev st = st_rdev st1 /\ st_ino st = st_ino st1.
Proof.
  intros H0.
  destruct (ap_create_run lockfile pid retries s) as [[Hv _]|(n & evs & Ht & Hrun)].
  { rewrite H0 in Hv. discriminate Hv. }
  rewrite H0 in Hrun.
  inversion Hrun as [| | |lf tmp pre evs' v Hlf Hpre Hloop| |]; subst.
  injection Hlf as <-.
  apply loop_returns in Hloop as [[_ Hc]|[[? _]|[[? _]|[? _]]]]; try discriminate.
  destruct Hc as (p & r1 & st1 & r & st & ru & -> & Hc).
  exists tmp, (Ev (Malloc n) 1 None :: pre ++ p), r1, st1, r, st, ru.
  split; [|exact Hc]. rewrite Ht. cbn [app]. rewrite <- !app_assoc. reflexivity.
Qed.

Lemma ap_create_confirmed_witness :
  exists tmp pre r1 st1 r st ru,
    trace (snd (ap_lockfile_create MiniFS.mini (Some Scenario.lock) 4242 1
                  (MiniFS.start Scenario.dead)))
    = [] ++ pre ++
        [Ev (Lstat tmp) r1 (Some st1); Ev (Lstat Scenario.lock) r (Some st);
         Ev (Unlink tmp) ru None] /\
    0 <= r1 /\ 0 <= r /\ st_rdev st = st_rdev st1 /\ st_ino st = st_ino st1.
Proof.
  apply (ap_create_confirmed MiniFS.mini Scenario.lock 4242 1 (MiniFS.start Scenario.dead)).
  vm_compute. reflexivity.
Defined.

(** X9: when [ap_lockfile_create] returns 0, LOCK_ERR_TMPWRITE or
    LOCK_ERR_MAXRETRIES, the temporary file it created with [open] is
    the file its last call removes. *)
Theorem ap_create_cleanup (os : OS) (lockfile : string) (pid retries : Z)
    (s : state os) (v : Z) :
  fst (ap_lockfile_create os (Some lockfile) pid retries s) = Val v ->
  v = 0 \/ v = LOCK_ERR_TMPWRITE \/ v = LOCK_ERR_MAXRETRIES ->
  exists tmp n rp rt flags fd mid ru,
    trace (snd (ap_lockfile_create os (Some lockfile) pid retries s))
    = trace s ++
        [Ev (Malloc n) 1 None; Ev Getpid rp None; Ev Time rt None;
         Ev (Open tmp flags 420) fd None] ++ mid ++ [Ev (Unlink tmp) ru None].
Proof.
  intros Hv Hcase.
  assert (Hcodes : v <> LOCK_ERR_GENERIC /\ v <> LOCK_ERR_TMPLOCK /\ v <> LOCK_ERR_RMSTALE)
    by (unfold LOCK_ERR_GENERIC, LOCK_ERR_TMPLOCK, LOCK_ERR_RMSTALE, LOCK_ERR_TMPWRITE,
          LOCK_ERR_MAXRETRIES in *; lia).
  destruct Hcodes as (Hg & Ht2 & Hr8).
  destruct (ap_create_run lockfile pid retries s) as [[Hv' _]|(n & evs & Ht & Hrun)].
  { rewrite Hv in Hv'. injection Hv' as ->. contradiction. }
  rewrite Hv in Hrun. rewrite Ht. clear Ht.
  assert (Hfd : forall tmp pre, setup tmp pre ->
     exists rp rt flags fd w, pre = [Ev Getpid rp None; Ev Time rt None;
                                     Ev (Open tmp flags 420) fd None] ++ w).
  { intros tmp pre (rp & rt & fl & fd & data & k & rw & rc & ->).
    exists rp, rt, fl, fd. eexists. reflexivity. }
  inversion Hrun as [| |tmp pre ru Hpre|lf tmp pre evs' v' Hlf Hpre Hloop
                    |lf tmp pre evs' ru Hlf Hpre Hloop|]; subst; try contradiction.
  - destruct (Hfd _ _ Hpre) as (rp & rt & fl & fd & w & ->).
    exists tmp, n, rp, rt, fl, fd, w, ru. cbn [app]. rewrite <- ?app_assoc. reflexivity.
  - destruct (Hfd _ _ Hpre) as (rp & rt & fl & fd & w & ->).
    apply loop_returns in Hloop as [[_ Hc]|[[_ Hc]|[[-> _]|[-> _]]]]; try contradiction.
    + destruct Hc as (p & r1 & st1 & r & st & ru & -> & _).
      exists tmp, n, rp, rt, fl, fd,
        (w ++ p ++ [Ev (Lstat tmp) r1 (Some st1); Ev (Lstat lf) r (Some st)]), ru.
      cbn [app]. rewrite <- ?app_assoc. reflexivity.
    + destruct Hc as (p & ru & ->).
      exists tmp, n, rp, rt, fl, fd, (w ++ p), ru.
      cbn [app]. rewrite <- ?app_assoc. reflexivity.
  - destruct (Hfd _ _ Hpre) as (rp & rt & fl & fd & w & ->).
    exists tmp, n, rp, rt, fl, fd, (w ++ evs'), ru.
    cbn [app]. rewrite <- ?app_assoc. reflexivity.
Qed.

Lemma ap_create_cleanup_witness :
  exists tmp n rp rt flags fd mid ru,
    trace (snd (ap_lockfile_create MiniFS.mini (Some Scenario.lock) 4242 1
                  (MiniFS.start Scenario.held)))
    = [] ++
        [Ev (Malloc n) 1 None; Ev Getpid rp None; Ev Time rt None;
         Ev (Open tmp flags 420) fd None] ++ mid ++ [Ev (Unlink tmp) ru None].
Proof.
  apply (ap_create_cleanup MiniFS.mini Scenario.lock 4242 1 (MiniFS.start Scenario.held)
           LOCK_ERR_MAXRETRIES).
  - vm_compute. reflexivity.
  - right. right. reflexivity.
Defined.

(** X10: a [retries] above INT_MAX becomes a negative [int]: the claim
    loop is not entered, no [link] is tried, and the call cannot
    succeed. *)
Theorem ap_create_no_try (os : OS) (lockfile : string) (pid retries : Z)
    (s : state os) :
  INT_MAX < retries <= UINT_MAX ->
  iterations (trace (snd (ap_lockfile_create os (Some lockfile) pid retries s)))
    = iterations (trace s) /\
  exists v,
    fst (ap_lockfile_create os (Some lockfile) pid retries s) = Val v /\
    (v = LOCK_ERR_GENERIC \/ v = LOCK_ERR_TMPLOCK \/ v = LOCK_ERR_TMPWRITE \/
     v = LOCK_ERR_MAXRETRIES).
Proof.
  intros H.
  assert (Htries : int_add (to_int retries) 1 <= 0).
  { unfold INT_MAX, UINT_MAX in H.
    assert (Hr : to_int retries = retries - 4294967296).
    { unfold to_int. change (2 ^ 31) with 2147483648. change (2 ^ 32) with 4294967296.
      Z.to_euclidean_division_equations. lia. }
    rewrite Hr. unfold int_add. rewrite to_int_small by (unfold INT_MIN, INT_MAX; lia). lia. }
  assert (Hng : ~ guard (entry (int_add (to_int retries) 1))).
  { unfold guard, entry. cbn [i tries]. lia. }
  destruct (ap_create_run lockfile pid retries s) as [[Hv Ht]|(n & evs & Ht & Hrun)].
  - split; [|exists LOCK_ERR_GENERIC; tauto].
    destruct Ht as [->|[n ->]]; rewrite iterations_app;
      [change (iterations []) with 0 | change (iterations [_]) with 0]; lia.
  - rewrite Ht. change (Ev (Malloc n) 1 None :: evs) with ([Ev (Malloc n) 1 None] ++ evs).
    rewrite !iterations_app. change (iterations [_]) with 0.
    pose proof (create_iterations _ _ _ _ Hrun) as Hit.
    assert (Hrem : remaining (entry (int_add (to_int retries) 1)) = 0).
    { unfold remaining, entry. cbn [i tries].
      destruct (Z.eqb_spec (int_add (to_int retries) 1) 1); lia. }
    assert (Hpos : 0 <= iterations evs) by (unfold iterations; lia).
    split; [lia|].
    destruct (fst (ap_lockfile_create os (Some lockfile) pid retries s)) as [v|f].
    + exists v. split; [reflexivity|].
      inversion Hrun as [| | |? ? ? ? ? ? ? Hloop| |]; subst; try tauto.
      apply loop_no_guard in Hloop as [_ Hn]; [discriminate Hn | exact Hng].
    + inversion Hrun as [| | | | |? ? ? ? ? ? ? Hloop]; subst.
      apply loop_no_guard in Hloop as [_ Hn]; [discriminate Hn | exact Hng].
Qed.

Lemma ap_create_no_try_witness :
  fst (ap_lockfile_create MiniFS.mini (Some Scenario.lock) 4242 UINT_MAX
         (MiniFS.start Scenario.free)) = Val LOCK_ERR_MAXRETRIES /\
  iterations (trace (snd (ap_lockfile_create MiniFS.mini (Some Scenario.lock) 4242 UINT_MAX
                            (MiniFS.start Scenario.free)))) = iterations [].
Proof.
  split; [vm_compute; reflexivity|].
  apply (ap_create_no_try MiniFS.mini Scenario.lock 4242 UINT_MAX (MiniFS.start Scenario.free)).
  unfold INT_MAX, UINT_MAX. lia.
Defined.

(** ** The backoff *)

Section Backoff.

Context {os : OS}.

Lemma sleeps_app (a b : list event) : sleeps (a ++ b) = sleeps a ++ sleeps b.
Proof. unfold sleeps. apply omap_app. Qed.

Lemma sleeps_checker (cv : list event) :
  Forall (fun e => checker_call (ev_call e) = true) cv -> sleeps cv = [].
Proof.
  induction 1 as [|e cv He _ IH]; [reflexivity|].
  change (e :: cv) with ([e] ++ cv). rewrite sleeps_app, IH.
  destruct e as [c r o]. destruct c; cbn in He; try discriminate; reflexivity.
Qed.

Lemma sleeps_head (lockfile tmp : string) (l : locals) (hd : list event) :
  body_head lockfile tmp l hd ->
  sleeps hd = if dontsleep l =? 0 then [slept l] else [].
Proof.
  intros [rs rl Hd|rl Hd].
  - rewrite Hd. reflexivity.
  - destruct (Z.eqb_spec (dontsleep l) 0); [contradiction|reflexivity].
Qed.

(** An iteration sleeps once, unless [dontsleep] is set. *)
Lemma iteration_sleeps (lockfile tmp : string) (l : locals) (evs : list event)
    (out : res ctl) :
  iteration lockfile tmp l evs out ->
  sleeps evs = if dontsleep l =? 0 then [slept l] else [].
Proof.
  intros H. inversion H; subst;
    repeat rewrite sleeps_app;
    rewrite (sleeps_head _ _ _ _ ltac:(eassumption));
    try (rewrite (sleeps_checker cv) by assumption);
    cbn [sleeps omap]; cbn; rewrite ?app_nil_r; reflexivity.
Qed.

Lemma iteration_sleeptime (lockfile tmp : string) (l l' : locals) (evs : list event) :
  iteration lockfile tmp l evs (Val (Next l')) -> sleeptime l' = slept l.
Proof. intros H. inversion H; subst; reflexivity. Qed.

Lemma slept_backoff (l : locals) (k : nat) :
  sleeptime l = backoff k ->
  slept l = if dontsleep l =? 0 then backoff (S k) else backoff k.
Proof.
  intros Hk. unfold slept. rewrite Hk. destruct (dontsleep l =? 0); [|reflexivity].
  unfold backoff. destruct (Z.ltb_spec 60 (Z.min (5 * Z.of_nat k) 60 + 5)); lia.
Qed.

Lemma loop_sleeps (lockfile tmp : string) (l : locals) (evs : list event)
    (out : res (option Z)) :
  loop_run lockfile tmp l evs out ->
  forall k, sleeptime l = backoff k ->
  sleeps evs = schedule (S k) (length (sleeps evs)).
Proof.
  induction 1 as [l G|l evs v G Hit|l evs f G Hit|l evs l' evs' out G Hit Hrun IH];
    intros k Hk.
  - reflexivity.
  - rewrite (iteration_sleeps _ _ _ _ _ Hit), (slept_backoff l k Hk).
    destruct (dontsleep l =? 0); reflexivity.
  - rewrite (iteration_sleeps _ _ _ _ _ Hit), (slept_backoff l k Hk).
    destruct (dontsleep l =? 0); reflexivity.
  - rewrite sleeps_app, (iteration_sleeps _ _ _ _ _ Hit).
    pose proof (iteration_sleeptime _ _ _ _ _ Hit) as Hs.
    rewrite (slept_backoff l k Hk) in *.
    destruct (dontsleep l =? 0).
    + cbn [app length]. unfold schedule. cbn [seq fmap list_fmap]. f_equal.
      apply (IH (S k)). exact Hs.
    + cbn [app]. apply (IH k). exact Hs.
Qed.

Lemma loop_sleep_count (lockfile tmp : string) (l : locals) (evs : list event)
    (out : res (option Z)) :
  loop_run lockfile tmp l evs out ->
  Z.of_nat (length (sleeps evs))
  <= Z.max 0 (iterations evs - (if dontsleep l =? 0 then 0 else 1)).
Proof.
  induction 1 as [l G|l evs v G Hit|l evs f G Hit|l evs l' evs' out G Hit Hrun IH].
  - cbn. lia.
  - rewrite (iteration_sleeps _ _ _ _ _ Hit), (iteration_links _ _ _ _ _ Hit).
    destruct (dontsleep l =? 0); cbn [length]; lia.
  - rewrite (iteration_sleeps _ _ _ _ _ Hit), (iteration_links _ _ _ _ _ Hit).
    destruct (dontsleep l =? 0); cbn [length]; lia.
  - rewrite sleeps_app, length_app, iterations_app,
      (iteration_sleeps _ _ _ _ _ Hit), (iteration_links _ _ _ _ _ Hit).
    assert (0 <= iterations evs') by (unfold iterations; lia).
    destruct (dontsleep l =? 0), (dontsleep (incr l') =? 0); cbn [length]; lia.
Qed.

Lemma sleeps_setup (tmp : string) (pre : list event) : setup tmp pre -> sleeps pre = [].
Proof. intros (? & ? & ? & ? & ? & ? & ? & ? & ->). reflexivity. Qed.

Lemma sleeps_quiet (evs : list event) :
  Forall (fun e => ev_call e = Getpid \/ ev_call e = Time) evs -> sleeps evs = [].
Proof.
  induction 1 as [|e evs He _ IH]; [reflexivity|].
  change (e :: evs) with ([e] ++ evs). rewrite sleeps_app, IH.
  destruct e as [c r o]. cbn in He. destruct He; subst; reflexivity.
Qed.

(** The sleeps of a run of [lockfile_try_create] are those of its loop:
    they follow the schedule, and there is one less than iterations. *)
Lemma create_sleeps (lockfile : option string) (n : Z) (evs : list event)
    (out : res Z) :
  create_run lockfile n evs out ->
  sleeps evs = schedule 1 (length (sleeps evs)) /\
  Z.of_nat (length (sleeps evs)) <= Z.max 0 (remaining (entry n) - 1).
Proof.
  intros H. inversion H as [evs0 Hq| |tmp pre ru Hpre|lf tmp pre evs0 v _ Hpre Hloop
                            |lf tmp pre evs0 ru _ Hpre Hloop|lf tmp pre evs0 f _ Hpre Hloop];
    subst.
  - rewrite (sleeps_quiet _ Hq). split; [reflexivity|cbn [length]; lia].
  - change (sleeps [_; _; _]) with (@nil Z). split; [reflexivity|cbn [length]; lia].
  - rewrite sleeps_app, (sleeps_setup _ _ Hpre).
    change (sleeps [_]) with (@nil Z). split; [reflexivity|cbn [app length]; lia].
  - rewrite sleeps_app, (sleeps_setup _ _ Hpre). cbn [app]. split.
    + apply (loop_sleeps _ _ _ _ _ Hloop 0%nat). reflexivity.
    + pose proof (loop_sleep_count _ _ _ _ _ Hloop) as Hc.
      pose proof (loop_iterations _ _ _ _ _ Hloop) as Hi.
      change (dontsleep (entry n) =? 0) with false in Hc. cbv iota in Hc. lia.
  - rewrite !sleeps_app, (sleeps_setup _ _ Hpre).
    change (sleeps [Ev (Unlink tmp) ru None]) with (@nil Z).
    rewrite app_nil_r. cbn [app]. split.
    + apply (loop_sleeps _ _ _ _ _ Hloop 0%nat). reflexivity.
    + pose proof (loop_sleep_count _ _ _ _ _ Hloop) as Hc.
      pose proof (loop_iterations _ _ _ _ _ Hloop) as Hi.
      change (dontsleep (entry n) =? 0) with false in Hc. cbv iota in Hc. lia.
  - rewrite sleeps_app, (sleeps_setup _ _ Hpre). cbn [app]. split.
    + apply (loop_sleeps _ _ _ _ _ Hloop 0%nat). reflexivity.
    + pose proof (loop_sleep_count _ _ _ _ _ Hloop) as Hc.
      pose proof (loop_iterations _ _ _ _ _ Hloop) as Hi.
      change (dontsleep (entry n) =? 0) with false in Hc. cbv iota in Hc. lia.
Qed.

(** The sleeps of a call of [ap_lockfile_create]. *)
Lemma ap_create_sleeps (lockfile : option string) (pid retries : Z) (s : state os) :
  exists evs,
    trace (snd (ap_lockfile_create os lockfile pid retries s)) = trace s ++ evs /\
    sleeps evs = schedule 1 (length (sleeps evs)) /\
    Z.of_nat (length (sleeps evs))
    <= Z.max 0 (remaining (entry (int_add (to_int retries) 1)) - 1).
Proof.
  destruct lockfile as [lf|].
  2:{ exists []. rewrite app_nil_r. split; [reflexivity|].
      split; [reflexivity|]. change (sleeps []) with (@nil Z). cbn [length]. lia. }
  destruct (ap_create_run lf pid retries s) as [[_ [Ht|[n Ht]]]|(n & evs & Ht & Hrun)].
  - exists []. split; [exact Ht|]. split; [reflexivity|].
    change (sleeps []) with (@nil Z). cbn [length]. lia.
  - eexists. split; [exact Ht|]. split; [reflexivity|].
    change (sleeps [Ev (Malloc n) 0 None]) with (@nil Z). cbn [length]. lia.
  - eexists. split; [exact Ht|].
    change (Ev (Malloc n) 1 None :: evs) with ([Ev (Malloc n) 1 None] ++ evs).
    rewrite sleeps_app. change (sleeps [Ev (Malloc n) 1 None]) with (@nil Z).
    cbn [app]. exact (create_sleeps _ _ _ _ Hrun).
Qed.

Lemma schedule_total (n : nat) (from : nat) :
  total (schedule from n) <= 60 * Z.of_nat n.
Proof.
  revert from. induction n as [|n IH]; intros from; [cbn; lia|].
  change (schedule from (S n)) with (backoff from :: schedule (S from) n).
  change (total (backoff from :: schedule (S from) n))
    with (backoff from + total (schedule (S from) n)).
  specialize (IH (S from)). unfold backoff. lia.
Qed.

End Backoff.

(** X5: the sleeps of a call of [ap_lockfile_create] follow the backoff
    schedule of lines 158 to 165: the k-th sleep of the call, counted from
    1, lasts min(5k, 60) seconds, whatever happens between the sleeps
    (failed [lstat]s and removed stale locks included). *)
Theorem ap_create_backoff (os : OS) (lockfile : option string) (pid retries : Z)
    (s : state os) :
  exists evs,
    trace (snd (ap_lockfile_create os lockfile pid retries s)) = trace s ++ evs /\
    sleeps evs = schedule 1 (length (sleeps evs)).
Proof.
  destruct (ap_create_sleeps lockfile pid retries s) as (evs & Ht & Hs & _).
  exists evs. split; assumption.
Qed.



(** ** What every call of a run satisfies *)

Lemma leak_free_app (a b : list event) :
  leak_free a = true -> leak_free b = true -> leak_free (a ++ b) = true.
Proof.
  intros Ha Hb. induction a as [|e a IH]; [exact Hb|].
  cbn [app leak_free] in *. apply andb_true_iff in Ha as [He Ha].
  rewrite (IH Ha), andb_true_r.
  destruct (ev_call e); try reflexivity.
  apply orb_true_iff in He as [He|He]; [rewrite He; reflexivity|].
  rewrite existsb_app, He, orb_true_r. reflexivity.
Qed.

Lemma sparing_nil (lockfile : string) : sparing lockfile [].
Proof. split; [reflexivity|discriminate]. Qed.

Lemma sparing_app (lockfile : string) (a b : list event) :
  sparing lockfile a -> sparing lockfile b -> sparing lockfile (a ++ b).
Proof.
  intros [Ha Ha'] [Hb Hb']. split.
  - clear Ha'. induction a as [|e a IH]; [exact Hb|].
    cbn [app spares_live] in *. apply andb_true_iff in Ha as [He Ha].
    rewrite (IH Ha), andb_true_r.
    destruct a as [|e' a]; [|exact He].
    cbn [app]. destruct b as [|e' b]; [reflexivity|].
    rewrite (Hb' e' eq_refl), andb_false_r. reflexivity.
  - destruct a as [|e a]; [exact Hb'|exact Ha'].
Qed.

(** A piece without removal of [lockfile]. *)
Lemma sparing_quiet (lockfile : string) (t : list event) :
  Forall (fun e => removes lockfile e = false) t -> sparing lockfile t.
Proof.
  intros H. split.
  - induction H as [|e t He Ht IH]; [reflexivity|].
    cbn [spares_live]. rewrite IH, andb_true_r.
    destruct Ht as [|e' t He' _]; [reflexivity|].
    rewrite He', andb_false_r. reflexivity.
  - intros e He. destruct H as [|e' t He' _]; [discriminate|].
    injection He as <-. exact He'.
Qed.

(** A removal after a piece without it, none of whose probes found the
    process. *)
Lemma sparing_stale (lockfile : string) (e0 : event) (t : list event) (e : event) :
  Forall (fun e => removes lockfile e = false) (e0 :: t) ->
  Forall (fun e => alive e = false) (e0 :: t) ->
  sparing lockfile ((e0 :: t) ++ [e]).
Proof.
  intros Hq Ha. split.
  - remember (e0 :: t) as l eqn:El. clear El.
    induction Ha as [|e1 l He1 Hl IH]; [reflexivity|].
    inversion Hq as [|? ? _ Hq']; subst.
    cbn [app spares_live]. rewrite (IH Hq'), andb_true_r.
    destruct l as [|e2 l]; cbn [app]; rewrite He1; reflexivity.
  - cbn [app head]. intros e' [= <-]. inversion Hq; assumption.
Qed.

Section Checker.

Context {os : OS}.

Ltac probe_events :=
  repeat constructor; cbn [probe_call ev_call];
  rewrite ?String.eqb_refl; try reflexivity.

Ltac close_events :=
  cbn [leak_free ev_call ev_ret existsb is_close];
  rewrite ?Z.eqb_refl; cbn [orb andb]; rewrite ?orb_true_r; try reflexivity.

Lemma check_valid_read_trace (lockfile : string) (st : struct_stat) (s : state os) :
  exists evs,
    trace (snd (check_valid_read os lockfile st s)) = trace s ++ evs /\
    Forall (fun e => probe_call lockfile (ev_call e) = true) evs /\
    leak_free evs = true /\
    Forall (fun e => alive e = false) evs.
Proof.
  destruct s as [w0 t0].
  unfold check_valid_read. mred.
  destruct (sys_time os w0) as [now w2]. mred.
  destruct (sys_open os lockfile O_RDONLY 0 w2) as [fd w3]. mred.
  assert (Hdone : forall l : list event,
    Forall (fun e => probe_call lockfile (ev_call e) = true) l ->
    Forall (fun e => alive e = false) l ->
    leak_free l = true ->
    exists evs,
      t0 ++ l = t0 ++ evs /\
      Forall (fun e => probe_call lockfile (ev_call e) = true) evs /\
      leak_free evs = true /\
      Forall (fun e => alive e = false) evs).
  { intros l Hp Ha Hl. exists l. repeat split; assumption. }
  destruct (Z.leb_spec 0 fd) as [Hfd|Hfd]; mred.
  2:{ rewrite <- ?app_assoc. cbn [app]. apply Hdone.
      - probe_events.
      - repeat constructor.
      - close_events. destruct (Z.ltb_spec fd 0); [reflexivity|lia]. }
  destruct (sys_fstat os fd w3) as [[rf st1] w4]. mred.
  destruct (rf =? 0); mred.
  2:{ destruct (sys_close os fd w4) as [rc w5]. mred. change (0 <? 0) with false. mred.
      rewrite <- ?app_assoc. cbn [app]. apply Hdone;
        [probe_events | repeat constructor | close_events]. }
  destruct (sys_read os fd 16 w4) as [[len data] w5]. mred.
  destruct (0 <=? len); mred.
  - destruct (sys_fstat os fd w5) as [[r2 st2] w6]. mred.
    destruct ((r2 =? 0) && negb (st_atime st1 =? st_atime st2)); mred.
    all: destruct (sys_close os fd w6) as [rc w7]; mred.
    all: destruct (0 <? len); mred.
    all: try destruct (buf_store _ len NUL) as [buf|]; mred.
    all: try destruct (buf_string buf); mred.
    all: rewrite <- ?app_assoc; cbn [app]; apply Hdone;
        [probe_events | repeat constructor | close_events].
  - destruct (sys_close os fd w5) as [rc w7]; mred.
    destruct (0 <? len); mred.
    all: try destruct (buf_store _ len NUL) as [buf|]; mred.
    all: try destruct (buf_string buf); mred.
    all: rewrite <- ?app_assoc; cbn [app]; apply Hdone;
        [probe_events | repeat constructor | close_events].
Qed.

Lemma check_valid_decide_trace (lockfile : string) (now : Z) (st : struct_stat)
    (pid : Z) (s : state os) :
  exists evs,
    trace (snd (check_valid_decide os now st pid s)) = trace s ++ evs /\
    Forall (fun e => probe_call lockfile (ev_call e) = true) evs /\
    leak_free evs = true /\
    (fst (check_valid_decide os now st pid s) = Val false ->
     Forall (fun e => alive e = false) evs).
Proof.
  destruct s as [w0 t0].
  unfold check_valid_decide. mred.
  destruct (0 <? pid) eqn:Hpid; mred.
  2:{ exists []. rewrite app_nil_r. repeat split; constructor. }
  destruct (sys_kill os pid 0 w0) as [r w1]. mred.
  destruct (r =? 0) eqn:Hr; cbn [orb]; mred.
  { eexists. split; [reflexivity|]. repeat split.
    - repeat constructor. cbn [probe_call ev_call]. rewrite Hpid. reflexivity.
    - discriminate. }
  assert (Ha : Forall (fun e => alive e = false) [Ev (Kill pid 0) r None]).
  { repeat constructor. exact Hr. }
  assert (Hp : Forall (fun e => probe_call lockfile (ev_call e) = true)
                 [Ev (Kill pid 0) r None]).
  { repeat constructor. cbn [probe_call ev_call]. rewrite Hpid. reflexivity. }
  destruct ((r <? 0) && (sys_errno os w1 =? EPERM)); mred;
    [|destruct ((r <? 0) && (sys_errno os w1 =? ESRCH)); mred].
  all: eexists; split; [reflexivity|]; repeat split; auto.
Qed.

(** The calls of the checker: probes of [lockfile] only, every descriptor
    closed, and when the answer is that the lock is stale, no probe that
    found the process. *)
Lemma check_valid_trace (lockfile : string) (s : state os) :
  exists e cv,
    trace (snd (lockfile_check_valid os (Some lockfile) s)) = trace s ++ e :: cv /\
    Forall (fun e => probe_call lockfile (ev_call e) = true) (e :: cv) /\
    leak_free (e :: cv) = true /\
    (fst (lockfile_check_valid os (Some lockfile) s) = Val false ->
     Forall (fun e => alive e = false) (e :: cv)).
Proof.
  unfold lockfile_check_valid. mred.
  destruct (sys_stat os lockfile (world s)) as [[r st] w1]. mred.
  assert (Hs : probe_call lockfile (Stat lockfile) = true) by apply String.eqb_refl.
  destruct (r <? 0); mred.
  { eexists _, _. split; [reflexivity|]. repeat split; repeat constructor. exact Hs. }
  match goal with
  | |- context [check_valid_read os lockfile st ?sx] =>
      destruct (check_valid_read_trace lockfile st sx) as (e1 & Ht1 & Hp1 & Hl1 & Ha1);
      destruct (check_valid_read os lockfile st sx) as [[[[now st'] pid]|f] s1]
  end; cbn [fst snd trace] in *.
  - destruct (check_valid_decide_trace lockfile now st' pid s1) as (e2 & Ht2 & Hp2 & Hl2 & Ha2).
    exists (Ev (Stat lockfile) r (Some st)), (e1 ++ e2).
    rewrite Ht2, Ht1, <- !app_assoc. split; [reflexivity|].
    split; [constructor; [exact Hs | apply Forall_app; auto]|].
    split; [change (leak_free (e1 ++ e2) = true); apply leak_free_app; assumption|].
    intros Hv. constructor; [reflexivity|]. apply Forall_app; auto.
  - exists (Ev (Stat lockfile) r (Some st)), e1.
    rewrite Ht1, <- !app_assoc. split; [reflexivity|].
    split; [constructor; [exact Hs | assumption]|].
    split; [exact Hl1|]. discriminate.
Qed.

End Checker.

(** ** Properties of every piece of a run

    [P] is a property of event lists that the empty list has and that
    appending keeps; whatever the nine calls and the checker have, a run
    of the loop, of [lockfile_try_create] and of [ap_lockfile_create]
    has. *)

Section Emits.

Context {os : OS}.
Variable P : list event -> Prop.
Hypothesis P_nil : P [].
Hypothesis P_app : forall a b, P a -> P b -> P (a ++ b).

Lemma emits_ret {A} (a : A) : emits (os := os) P (ret a).
Proof. intros s. exists []. cbn. rewrite app_nil_r. auto. Qed.

Lemma emits_fail {A} (f : fault) : emits (os := os) (A := A) P (fail f).
Proof. intros s. exists []. cbn. rewrite app_nil_r. auto. Qed.

Lemma emits_errno : emits P (errno os).
Proof. intros s. exists []. cbn. rewrite app_nil_r. auto. Qed.

Lemma emits_bind {A B} (m : M os A) (f : A -> M os B) :
  emits P m -> (forall a, emits P (f a)) -> emits P (bind m f).
Proof.
  intros Hm Hf s. destruct (Hm s) as (e1 & Ht1 & Hp1).
  unfold bind. destruct (m s) as [[a|e] s1]; cbn [fst snd] in *.
  - destruct (Hf a s1) as (e2 & Ht2 & Hp2).
    exists (e1 ++ e2). rewrite Ht2, Ht1, app_assoc. auto.
  - exists e1. auto.
Qed.

Lemma emits_syscall {A} (c : call) (h : W os -> A * W os)
    (code : A -> Z) (st : A -> option struct_stat) :
  (forall r o, P [Ev c r o]) -> emits P (syscall os c h code st).
Proof.
  intros Hc s. unfold syscall. destruct (h (world s)) as [a w]. cbn.
  eexists. split; [reflexivity|apply Hc].
Qed.

Section Body.

Variables lockfile tmp : string.
Hypothesis P_sleep : forall n r o, P [Ev (Sleep n) r o].
Hypothesis P_link : forall r o, P [Ev (Link tmp lockfile) r o].
Hypothesis P_lstat_tmp : forall r o, P [Ev (Lstat tmp) r o].
Hypothesis P_lstat : forall r o, P [Ev (Lstat lockfile) r o].
Hypothesis P_unlink_tmp : forall r o, P [Ev (Unlink tmp) r o].
Hypothesis P_check : forall s : state os, exists cv,
  trace (snd (lockfile_check_valid os (Some lockfile) s)) = trace s ++ cv /\
  P cv /\
  (fst (lockfile_check_valid os (Some lockfile) s) = Val false ->
   forall r o, P (cv ++ [Ev (Unlink lockfile) r o])).

Lemma try_body_emits (l : locals) : emits P (try_body os lockfile tmp l).
Proof.
  unfold try_body. cbv zeta.
  apply emits_bind.
  { destruct (dontsleep l =? 0); [|apply emits_ret].
    apply emits_bind; [apply emits_syscall, P_sleep | intros; apply emits_ret]. }
  intros sleeptime.
  apply emits_bind; [apply emits_syscall, P_link|]. intros _.
  apply emits_bind; [apply emits_syscall, P_lstat_tmp|]. intros [r1 st1].
  destruct (r1 <? 0); [apply emits_ret|].
  apply emits_bind; [apply emits_syscall, P_lstat|]. intros [r st].
  destruct (r <? 0).
  { destruct (5 <? statfailed l); [|apply emits_ret].
    apply emits_bind; [apply emits_syscall, P_unlink_tmp | intros; apply emits_ret]. }
  destruct ((st_rdev st =? st_rdev st1) && (st_ino st =? st_ino st1)).
  { apply emits_bind; [apply emits_syscall, P_unlink_tmp | intros; apply emits_ret]. }
  intros s. destruct (P_check s) as (cv & Hcv & Pcv & Pstale).
  unfold bind at 1.
  destruct (lockfile_check_valid os (Some lockfile) s) as [[valid|f] s1];
    cbn [fst snd] in *; [|exists cv; auto].
  destruct valid; cbn [negb]; [exists cv; auto|].
  specialize (Pstale eq_refl). mred.
  destruct (sys_unlink os lockfile (world s1)) as [ru w2]. mred.
  destruct ((ru <? 0) && negb (sys_errno os w2 =? ENOENT)); mred.
  all: rewrite Hcv, <- app_assoc; eexists; split; [reflexivity|apply Pstale].
Qed.

Lemma try_loop_emits (fuel : nat) :
  forall l, emits P (try_loop os fuel lockfile tmp l).
Proof.
  induction fuel as [|fuel IH]; intros l; cbn [try_loop];
    destruct ((i l <? tries l) && (0 <? tries l));
    try apply emits_ret; [apply emits_fail|].
  apply emits_bind; [apply try_body_emits|].
  intros [r|l']; [apply emits_ret | apply IH].
Qed.

End Body.

End Emits.

(** The record that passes the test of line 133 was not cut. *)
Lemma snprintf_record (pid : Z) :
  let '(pidlen, pidbuf) := snprintf 40 (pid_record pid) in
  (pidlen <? 0) || (40 - 1 <? pidlen) = false ->
  list_ascii_of_string pidbuf = list_ascii_of_string (pid_record pid) /\
  pidlen = Z.of_nat (length (list_ascii_of_string (pid_record pid))).
Proof.
  unfold snprintf. rewrite length_chars.
  set (n := String.length (pid_record pid)).
  destruct (Z.ltb_spec INT_MAX (Z.of_nat n)) as [H|H]; [discriminate|].
  intros E. apply orb_false_iff in E as [_ E]. apply Z.ltb_ge in E.
  split; [|reflexivity]. f_equal. apply substring_all. fold n. lia.
Qed.

(** The first [length a + n] characters of [a +:+ b]. *)
Lemma substring_append (a b : string) (n : nat) :
  substring 0 (String.length a + n) (a +:+ b) = a +:+ substring 0 n b.
Proof.
  induction a as [|c a IH]; [reflexivity|].
  cbn [String.length Nat.add]. change (String c a +:+ b) with (String c (a +:+ b)).
  cbn [substring]. rewrite IH. reflexivity.
Qed.

(** In the buffer of [ap_lockfile_create] the temporary name is the lock
    path, ".lk" and at most six characters. *)
Lemma tmplock_cut (lockfile : string) (pid now : Z) :
  exists sfx,
    substring 0 (Z.to_nat (Z.of_nat (String.length lockfile) + TMPLOCK_SUFFIX_SIZE + 1 - 1))
      (tmplock_name lockfile pid now)
    = lockfile +:+ TMPLOCK_EXT +:+ sfx /\
    (String.length sfx <= 6)%nat.
Proof.
  unfold tmplock_name.
  set (rest := fmt_0d _ _ +:+ fmt_0x _ _).
  exists (substring 0 6 rest). split; [|rewrite substring_length; lia].
  replace (Z.to_nat _) with (String.length lockfile + 9)%nat
    by (change TMPLOCK_SUFFIX_SIZE with 9; lia).
  rewrite substring_append. reflexivity.
Qed.

Lemma tmplock_differs (lockfile sfx : string) :
  lockfile +:+ TMPLOCK_EXT +:+ sfx <> lockfile.
Proof.
  intros H. apply (f_equal String.length) in H.
  rewrite !length_append in H. cbn in H. lia.
Qed.

Section Pieces.

Context {os : OS}.
Variables (lockfile : string) (pid : Z).
Variable P : string -> list event -> Prop.

Hypothesis P_nil : forall tmp, P tmp [].
Hypothesis P_app : forall tmp a b, P tmp a -> P tmp b -> P tmp (a ++ b).
Hypothesis P_malloc : forall tmp n r o, P tmp [Ev (Malloc n) r o].
Hypothesis P_getpid : forall tmp r o, P tmp [Ev Getpid r o].
Hypothesis P_time : forall tmp r o, P tmp [Ev Time r o].
Hypothesis P_create_failed : forall tmp fd o,
  fd < 0 ->
  P tmp [Ev (Open tmp (Z.lor (Z.lor (Z.lor O_WRONLY O_CREAT) O_EXCL) O_CLOEXEC) 420)
           fd o].
Hypothesis P_create : forall tmp fd o rw ow rc oc,
  0 <= fd ->
  P tmp [Ev (Open tmp (Z.lor (Z.lor (Z.lor O_WRONLY O_CREAT) O_EXCL) O_CLOEXEC) 420)
           fd o;
         Ev (Write fd (list_ascii_of_string (pid_record pid))
               (Z.of_nat (length (list_ascii_of_string (pid_record pid))))) rw ow;
         Ev (Close fd) rc oc].
Hypothesis P_sleep : forall tmp n r o, P tmp [Ev (Sleep n) r o].
Hypothesis P_link : forall tmp r o, P tmp [Ev (Link tmp lockfile) r o].
Hypothesis P_lstat_tmp : forall tmp r o, P tmp [Ev (Lstat tmp) r o].
Hypothesis P_lstat : forall tmp r o, P tmp [Ev (Lstat lockfile) r o].
Hypothesis P_unlink_tmp : forall tmp r o, P tmp [Ev (Unlink tmp) r o].
Hypothesis P_check : forall tmp (s : state os), exists cv,
  trace (snd (lockfile_check_valid os (Some lockfile) s)) = trace s ++ cv /\
  P tmp cv /\
  (fst (lockfile_check_valid os (Some lockfile) s) = Val false ->
   forall r o, P tmp (cv ++ [Ev (Unlink lockfile) r o])).

Lemma try_create_emits (buf : option string) (size retries : Z) (s : state os) :
  exists tmp evs,
    trace (snd (lockfile_try_create os (Some lockfile) pid buf size retries s))
    = trace s ++ evs /\
    P tmp evs /\
    exists p now,
      tmp = substring 0 (Z.to_nat (size - 1)) (tmplock_name lockfile p now).
Proof.
  assert (Hnone : exists tmp evs,
    trace s = trace s ++ evs /\ P tmp evs /\
    exists p now,
      tmp = substring 0 (Z.to_nat (size - 1)) (tmplock_name lockfile p now)).
  { eexists _, []. rewrite app_nil_r. split; [reflexivity|]. split; [apply P_nil|].
    exists 0, 0. reflexivity. }
  unfold lockfile_try_create.
  pose proof (snprintf_record pid) as Hrec. unfold pid_record in Hrec.
  destruct (snprintf 40 _) as [pidlen pidbuf].
  destruct ((pidlen <? 0) || (40 - 1 <? pidlen)); [exact Hnone|].
  destruct (Hrec eq_refl) as [Hbuf Hlen]. clear Hrec.
  fold (pid_record pid) in Hbuf, Hlen.
  set (record := list_ascii_of_string (pid_record pid)) in *.
  set (flags := Z.lor (Z.lor (Z.lor O_WRONLY O_CREAT) O_EXCL) O_CLOEXEC) in *.
  unfold tmplock_filename.
  destruct buf as [b|]; mred; [|exact Hnone].
  destruct (size =? 0); mred; [exact Hnone|].
  destruct (sys_getpid os (world s)) as [mypid w1]. mred.
  destruct (sys_time os w1) as [now w2]. mred.
  unfold snprintf.
  set (tmp := substring 0 (Z.to_nat (size - 1)) (tmplock_name lockfile mypid now)).
  assert (Htmp : exists p now0,
    tmp = substring 0 (Z.to_nat (size - 1)) (tmplock_name lockfile p now0))
    by (exists mypid, now; reflexivity).
  clearbody tmp.
  assert (Hpre : P tmp [Ev Getpid mypid None; Ev Time now None]).
  { apply (P_app tmp [_] [_]); [apply P_getpid | apply P_time]. }
  match goal with |- context [if ?c then -1 else _] => destruct c end; mred.
  { rewrite <- !app_assoc. exists tmp. eexists. split; [reflexivity|]. auto. }
  match goal with |- context [if ?c <? 0 then _ else _] => destruct (c <? 0) end; mred.
  { rewrite <- !app_assoc. exists tmp. eexists. split; [reflexivity|]. auto. }
  change (0 =? 0) with true. cbn [negb]. mred.
  destruct (sys_open os tmp flags 420 w2) as [fd w3]. mred.
  destruct (Z.ltb_spec fd 0) as [Hfd|Hfd]; mred.
  { rewrite <- !app_assoc. exists tmp. eexists. split; [reflexivity|].
    split; [|exact Htmp]. cbn [app].
    apply (P_app tmp [_; _] [_]); [exact Hpre | apply P_create_failed; exact Hfd]. }
  rewrite Hbuf, Hlen.
  destruct (sys_write os fd record (Z.of_nat (length record)) w3) as [written w4]. mred.
  destruct (sys_close os fd w4) as [rc w5]. mred.
  assert (Hsetup :
    P tmp [Ev Getpid mypid None; Ev Time now None; Ev (Open tmp flags 420) fd None;
           Ev (Write fd record (Z.of_nat (length record))) written None;
           Ev (Close fd) rc None]).
  { apply (P_app tmp [_; _] [_; _; _]); [exact Hpre | apply P_create; exact Hfd]. }
  destruct (negb (rc =? 0) || negb (written =? Z.of_nat (length record))); mred.
  { destruct (sys_unlink os tmp w5) as [ru w6]. mred.
    rewrite <- !app_assoc. exists tmp. eexists. split; [reflexivity|].
    split; [|exact Htmp]. cbn [app].
    apply (P_app tmp [_; _; _; _; _] [_]); [exact Hsetup | apply P_unlink_tmp]. }
  match goal with
  | |- context [try_loop os ?fuel lockfile tmp ?l ?sx] =>
      destruct (try_loop_emits (P tmp) (P_nil tmp) (P_app tmp) lockfile tmp
                  (P_sleep tmp) (P_link tmp) (P_lstat_tmp tmp) (P_lstat tmp)
                  (P_unlink_tmp tmp) (P_check tmp) fuel l sx) as (evs & Ht & Hp);
      destruct (try_loop os fuel lockfile tmp l sx) as [[[v|]|f] s6]
  end; cbn [fst snd trace] in Ht; mred.
  - rewrite Ht, <- !app_assoc. exists tmp. eexists. split; [reflexivity|].
    split; [|exact Htmp]. cbn [app].
    apply (P_app tmp [_; _; _; _; _] evs); assumption.
  - destruct (sys_unlink os tmp (world s6)) as [ru w7]. mred.
    rewrite Ht, <- !app_assoc. exists tmp. eexists. split; [reflexivity|].
    split; [|exact Htmp]. cbn [app].
    apply (P_app tmp [_; _; _; _; _] (evs ++ [_])); [exact Hsetup|].
    apply P_app; [exact Hp | apply P_unlink_tmp].
  - rewrite Ht, <- !app_assoc. exists tmp. eexists. split; [reflexivity|].
    split; [|exact Htmp]. cbn [app].
    apply (P_app tmp [_; _; _; _; _] evs); assumption.
Qed.

(** A run of [ap_lockfile_create]: its temporary file is the lock path,
    ".lk" and at most six characters. *)
Lemma ap_create_emits (retries : Z) (s : state os) :
  exists sfx evs,
    trace (snd (ap_lockfile_create os (Some lockfile) pid retries s)) = trace s ++ evs /\
    P (lockfile +:+ TMPLOCK_EXT +:+ sfx) evs /\
    (String.length sfx <= 6)%nat.
Proof.
  unfold ap_lockfile_create.
  destruct (retries =? 0).
  { exists "", []. rewrite app_nil_r. split; [reflexivity|].
    split; [apply P_nil | cbn; lia]. }
  mred.
  match goal with
  | |- context [sys_malloc os ?n (world s)] =>
      destruct (sys_malloc os n (world s)) as [ok w1]
  end. mred.
  destruct ok; cbn [negb]; mred.
  - match goal with
    | |- context [lockfile_try_create os ?a ?b ?c ?d ?e ?sx] =>
        destruct (try_create_emits c d e sx) as (tmp & evs & Ht & Hp & p & now & Htmp)
    end.
    destruct (tmplock_cut lockfile p now) as (sfx & Hcut & Hsfx).
    rewrite Hcut in Htmp. subst tmp.
    cbn [trace] in Ht. rewrite Ht, <- app_assoc. exists sfx. eexists.
    split; [reflexivity|]. split; [|exact Hsfx].
    apply (P_app _ [_] evs); [apply P_malloc | exact Hp].
  - exists "". eexists. split; [reflexivity|]. split; [apply P_malloc | cbn; lia].
Qed.

End Pieces.

Lemma probe_own (lockfile tmp : string) (record : list ascii) (c : call) :
  probe_call lockfile c = true -> own_call lockfile tmp record c.
Proof. destruct c; cbn; intros H; try discriminate; auto. Qed.

Lemma probe_keeps (lockfile : string) (e : event) :
  probe_call lockfile (ev_call e) = true -> removes lockfile e = false.
Proof. destruct e as [c r o]. destruct c; cbn; intros H; try discriminate; reflexivity. Qed.

(** X11: [lockfile_check_valid] only looks: the calls it makes are
    [stat] and a read-only [open] of the lock path, [time], [fstat],
    [read] of sixteen bytes, [close], and [kill] with signal 0 of one
    process (a positive pid, never a process group); every descriptor
    [open] returned is closed before it returns, also when it stops at
    the undefined store. *)
Theorem check_valid_only_probes (os : OS) (lockfile : string) (s : state os) :
  exists evs,
    trace (snd (lockfile_check_valid os (Some lockfile) s)) = trace s ++ evs /\
    Forall (fun e => probe_call lockfile (ev_call e) = true) evs /\
    leak_free evs = true.
Proof.
  destruct (check_valid_trace lockfile s) as (e & cv & Ht & Hp & Hl & _).
  exists (e :: cv). auto.
Qed.

Lemma ap_create_own (os : OS) (lockfile : string) (pid retries : Z)
    (s : state os) :
  exists sfx evs,
    trace (snd (ap_lockfile_create os (Some lockfile) pid retries s)) = trace s ++ evs /\
    (String.length sfx <= 6)%nat /\
    Forall (fun e => own_call lockfile (lockfile +:+ TMPLOCK_EXT +:+ sfx)
                       (list_ascii_of_string (pid_record pid)) (ev_call e)) evs.
Proof.
  pose (P := fun tmp : string =>
    Forall (fun e => own_call lockfile tmp (list_ascii_of_string (pid_record pid))
                       (ev_call e))).
  destruct (ap_create_emits (os := os) lockfile pid P) with (retries := retries) (s := s)
    as (sfx & evs & Ht & Hp & Hs); subst P; cbv beta.
  1-12: intros; try (apply Forall_app; split; assumption);
        repeat match goal with
               | |- Forall _ (_ :: _) => constructor
               | |- Forall _ [] => constructor
               end; cbn; auto 6.
  - intros tmp s0.
    destruct (check_valid_trace lockfile s0) as (e & cv & Ht & Hp & _).
    assert (Hown : Forall (fun e => own_call lockfile tmp
                       (list_ascii_of_string (pid_record pid)) (ev_call e)) (e :: cv)).
    { eapply Forall_impl; [exact Hp|]. intros x. apply probe_own. }
    exists (e :: cv). split; [exact Ht|]. split; [exact Hown|].
    intros _ r o. apply Forall_app. split; [exact Hown|].
    constructor; [right; reflexivity | constructor].
  - exists sfx, evs. auto.
Qed.

(** X12: whatever the operating system answers, a call of
    [ap_lockfile_create] touches two paths only, the lock path and one
    temporary path made of the lock path, ".lk" and at most six
    characters: it creates the temporary file exclusively with mode 0644,
    writes the pid record to it and nothing else anywhere, links it to
    the lock path, and calls [lstat] and [unlink] on these two paths; the
    other calls are the probes of [lockfile_check_valid], [getpid],
    [malloc] and [sleep]. *)
Theorem ap_create_confined (os : OS) (lockfile : string) (pid retries : Z)
    (s : state os) :
  exists sfx evs,
    trace (snd (ap_lockfile_create os (Some lockfile) pid retries s)) = trace s ++ evs /\
    (String.length sfx <= 6)%nat /\
    Forall (fun e => own_call lockfile (lockfile +:+ TMPLOCK_EXT +:+ sfx)
                       (list_ascii_of_string (pid_record pid)) (ev_call e)) evs.
Proof. apply ap_create_own. Qed.

(** X13: a call of [ap_lockfile_create] leaks no descriptor: every
    descriptor that [open] returned during the call is closed before the
    call returns, on every path, the error returns and the undefined
    store of the checker included. *)
Theorem ap_create_closes (os : OS) (lockfile : string) (pid retries : Z)
    (s : state os) :
  exists evs,
    trace (snd (ap_lockfile_create os (Some lockfile) pid retries s)) = trace s ++ evs /\
    leak_free evs = true.
Proof.
  destruct (ap_create_emits (os := os) lockfile pid (fun _ evs => leak_free evs = true))
    with (retries := retries) (s := s) as (sfx & evs & Ht & Hp & Hs).
  1: reflexivity.
  1: intros _; apply leak_free_app.
  1-10: intros; cbn [leak_free ev_call ev_ret existsb is_close andb orb];
        rewrite ?Z.eqb_refl; cbn [andb orb]; rewrite ?orb_true_r, ?andb_true_r;
        try reflexivity.
  - rewrite orb_false_r. apply Z.ltb_lt. assumption.
  - intros _ s0.
    destruct (check_valid_trace lockfile s0) as (e & cv & Ht & _ & Hl & _).
    exists (e :: cv). split; [exact Ht|]. split; [exact Hl|].
    intros _ r o. apply leak_free_app; [exact Hl | reflexivity].
  - exists evs. auto.
Qed.

(** X14: [ap_lockfile_create] never removes the lock of a process that
    its probe has just found: in no run is a [kill] that returned 0
    followed at once by [unlink] of the lock path. *)
Theorem ap_create_spares_live (os : OS) (lockfile : string) (pid retries : Z)
    (s : state os) :
  exists evs,
    trace (snd (ap_lockfile_create os (Some lockfile) pid retries s)) = trace s ++ evs /\
    spares_live lockfile evs = true.
Proof.
  destruct (ap_create_emits (os := os) lockfile pid
              (fun tmp evs => tmp <> lockfile -> sparing lockfile evs))
    with (retries := retries) (s := s) as (sfx & evs & Ht & Hp & Hs).
  1: intros; apply sparing_nil.
  1: intros tmp a b Ha Hb Hne; apply sparing_app; auto.
  1-10: intros; apply sparing_quiet; repeat constructor; cbn;
        try apply String.eqb_neq; assumption.
  - intros tmp s0.
    destruct (check_valid_trace lockfile s0) as (e & cv & Ht & Hp & _ & Ha).
    assert (Hq : Forall (fun e => removes lockfile e = false) (e :: cv)).
    { eapply Forall_impl; [exact Hp|]. intros x. apply probe_keeps. }
    exists (e :: cv). split; [exact Ht|]. split.
    + intros _. apply sparing_quiet, Hq.
    + intros Hv r o _. apply sparing_stale; auto.
  - exists evs. split; [exact Ht|]. apply Hp, tmplock_differs.
Qed.

(** ** Failures of [lstat] in a row *)

Lemma streak_app (path : string) (a b : list event) :
  forall cur,
    streak_ok path cur (a ++ b)
    = streak_ok path cur a && streak_ok path (streak_after path cur a) b /\
    streak_after path cur (a ++ b) = streak_after path (streak_after path cur a) b.
Proof.
  induction a as [|e a IH]; intros cur; [split; reflexivity|].
  cbn [app streak_ok streak_after].
  destruct (ev_call e); try apply IH.
  destruct (String.eqb path0 path); [|apply IH].
  destruct (ev_ret e <? 0); [|apply IH].
  destruct (IH (cur + 1)) as [-> ->]. rewrite andb_assoc. split; reflexivity.
Qed.

(** Events other than [lstat] of [path] leave the count alone. *)
Lemma streak_quiet (path : string) (t : list event) :
  Forall (fun e => lstat_on path e = false) t ->
  forall cur, streak_ok path cur t = true /\ streak_after path cur t = cur.
Proof.
  induction 1 as [|e t He _ IH]; intros cur; [split; reflexivity|].
  cbn [streak_ok streak_after]. unfold lstat_on in He.
  destruct (ev_call e); try apply IH. rewrite He. apply IH.
Qed.

Lemma checker_quiet (path : string) (cv : list event) :
  Forall (fun e => checker_call (ev_call e) = true) cv ->
  Forall (fun e => lstat_on path e = false) cv.
Proof.
  intros H. eapply Forall_impl; [exact H|].
  intros [c r o]. destruct c; cbn; intros E; try discriminate; reflexivity.
Qed.

Lemma head_quiet (lockfile tmp : string) (l : locals) (hd : list event) :
  body_head lockfile tmp l hd -> Forall (fun e => lstat_on lockfile e = false) hd.
Proof. intros [rs rl Hd|rl Hd]; repeat constructor. Qed.

Lemma streak_head (lockfile tmp : string) (l : locals) (hd rest : list event)
    (cur : Z) :
  body_head lockfile tmp l hd ->
  streak_ok lockfile cur (hd ++ rest) = streak_ok lockfile cur rest /\
  streak_after lockfile cur (hd ++ rest) = streak_after lockfile cur rest.
Proof.
  intros Hhd. destruct (streak_app lockfile hd rest cur) as [-> ->].
  destruct (streak_quiet lockfile hd (head_quiet _ _ _ _ Hhd) cur) as [-> ->].
  split; reflexivity.
Qed.

(** One iteration: a failure of [lstat] on the lock path raises
    [statfailed], up to 6 and to the return at the seventh in a row; a
    success sets it to 0. *)
Lemma iteration_streak (lockfile tmp : string) (l : locals) (evs : list event)
    (out : res ctl) :
  iteration lockfile tmp l evs out ->
  tmp <> lockfile -> statfailed l <= 6 ->
  streak_ok lockfile (statfailed l) evs = true /\
  forall l', out = Val (Next l') ->
    streak_after lockfile (statfailed l) evs = statfailed l' /\ statfailed l' <= 6.
Proof.
  intros H Hne Hsf.
  assert (H7 : (statfailed l <? 7) = true) by (apply Z.ltb_lt; lia).
  apply String.eqb_neq in Hne.
  inversion H as [hd r1 st1 Hhd Hr1
                 |hd r1 st1 r st ru Hhd Hr1 Hr Hs
                 |hd r1 st1 r st Hhd Hr1 Hr Hs
                 |hd r1 st1 r st ru Hhd Hr1 Hr Hd Hi
                 |hd r1 st1 r st cv Hhd Hr1 Hr Hd Hcv
                 |hd r1 st1 r st cv f Hhd Hr1 Hr Hd Hcv Hf
                 |hd r1 st1 r st cv ru Hhd Hr1 Hr Hd Hcv Hru
                 |hd r1 st1 r st cv ru Hhd Hr1 Hr Hd Hcv]; subst.
  all: match goal with
       | Hh : body_head _ _ _ ?h |- context [streak_ok _ _ (?h ++ ?rest)] =>
           destruct (streak_head lockfile tmp l h rest (statfailed l) Hh) as [E E'];
           rewrite E, E'; clear E E'
       end.
  all: cbn [app streak_ok streak_after ev_call ev_ret].
  all: rewrite ?String.eqb_refl, ?Hne.
  all: try (assert (Er : (r <? 0) = true) by (apply Z.ltb_lt; lia); rewrite !Er).
  all: try (assert (Er : (r <? 0) = false) by (apply Z.ltb_ge; lia); rewrite !Er).
  all: rewrite ?H7; cbn [andb].
  all: try (assert (Hq : Forall (fun e => lstat_on lockfile e = false) cv)
              by (apply checker_quiet; assumption)).
  all: try (assert (Hq' : Forall (fun e => lstat_on lockfile e = false)
                            (cv ++ [Ev (Unlink lockfile) ru None]))
              by (apply Forall_app; split; [exact Hq | repeat constructor])).
  all: try (destruct (streak_quiet lockfile _ Hq' 0) as [-> ->]).
  all: try (destruct (streak_quiet lockfile _ Hq 0) as [-> ->]).
  all: (split; [reflexivity|]); intros l' E;
    first [ discriminate E
          | injection E as <-; cbn [statfailed]; (split; [reflexivity|lia]) ].
Qed.

Lemma loop_streak (lockfile tmp : string) (l : locals) (evs : list event)
    (out : res (option Z)) :
  loop_run lockfile tmp l evs out ->
  tmp <> lockfile -> statfailed l <= 6 ->
  streak_ok lockfile (statfailed l) evs = true.
Proof.
  induction 1 as [l G|l evs v G Hit|l evs f G Hit|l evs l' evs' out G Hit Hrun IH];
    intros Hne Hsf.
  - reflexivity.
  - apply (iteration_streak _ _ _ _ _ Hit Hne Hsf).
  - apply (iteration_streak _ _ _ _ _ Hit Hne Hsf).
  - destruct (iteration_streak _ _ _ _ _ Hit Hne Hsf) as [Hok Hnext].
    destruct (Hnext l' eq_refl) as [Hafter Hle].
    destruct (streak_app lockfile evs evs' (statfailed l)) as [-> _].
    rewrite Hok, Hafter. apply IH; [exact Hne | exact Hle].
Qed.

(** A loop that makes a call links the temporary file. *)
Lemma loop_links (lockfile tmp : string) (l : locals) (evs : list event)
    (out : res (option Z)) :
  loop_run lockfile tmp l evs out ->
  evs = [] \/ exists rl, In (Ev (Link tmp lockfile) rl None) evs.
Proof.
  assert (Hit : forall l evs out, iteration lockfile tmp l evs out ->
            exists rl, In (Ev (Link tmp lockfile) rl None) evs).
  { intros l0 evs0 out0 H.
    assert (Hhd : forall hd rest, body_head lockfile tmp l0 hd ->
              exists rl, In (Ev (Link tmp lockfile) rl None) (hd ++ rest)).
    { intros hd rest [rs rl Hd|rl Hd]; exists rl; apply in_or_app; left; cbn; auto. }
    inversion H; subst; apply Hhd; assumption. }
  intros H. destruct H as [l G|l evs v G Hi|l evs f G Hi|l evs l' evs' out G Hi Hrun].
  - left. reflexivity.
  - right. apply (Hit _ _ _ Hi).
  - right. apply (Hit _ _ _ Hi).
  - right. destruct (Hit _ _ _ Hi) as [rl Hin]. exists rl. apply in_or_app. auto.
Qed.

(** X15: [lstat] of the lock path never fails more than seven times in
    a row during a call of [ap_lockfile_create], whatever the retry
    count: at the seventh failure in a row the call gives up (lines 181
    to 195), and a successful [lstat] starts the count again (line
    204). *)
Theorem ap_create_stat_failures (os : OS) (lockfile : string) (pid retries : Z)
    (s : state os) :
  exists evs,
    trace (snd (ap_lockfile_create os (Some lockfile) pid retries s)) = trace s ++ evs /\
    streak_ok lockfile 0 evs = true.
Proof.
  destruct (ap_create_own os lockfile pid retries s) as (sfx & evs & Ht & _ & Hown).
  exists evs. split; [exact Ht|].
  destruct (ap_create_run lockfile pid retries s) as [[_ [Ht'|[n Ht']]]|(n & evs' & Ht' & Hrun)];
    cbv zeta in *; rewrite Ht in Ht'; apply app_inv_head in Ht'; subst evs;
    try reflexivity.
  change (streak_ok lockfile 0 evs' = true).
  apply Forall_cons in Hown as [_ Hown].
  assert (Hsetup : forall tmp pre, setup tmp pre ->
            Forall (fun e => lstat_on lockfile e = false) pre).
  { intros tmp pre (? & ? & ? & ? & ? & ? & ? & ? & ->). repeat constructor. }
  assert (Hloop : forall tmp pre evs0 out tl,
            setup tmp pre -> loop_run lockfile tmp (entry (int_add (to_int retries) 1)) evs0 out ->
            evs' = pre ++ evs0 ++ tl ->
            Forall (fun e => lstat_on lockfile e = false) tl ->
            streak_ok lockfile 0 evs' = true).
  { intros tmp pre evs0 out tl Hpre Hl -> Htl.
    destruct (streak_app lockfile pre (evs0 ++ tl) 0) as [-> _].
    destruct (streak_quiet lockfile pre (Hsetup _ _ Hpre) 0) as [-> ->].
    destruct (streak_app lockfile evs0 tl 0) as [-> _].
    rewrite (proj1 (streak_quiet lockfile tl Htl _)), andb_true_r. cbn [andb].
    destruct (loop_links _ _ _ _ _ Hl) as [->|[rl Hin]]; [reflexivity|].
    apply (loop_streak _ _ _ _ _ Hl); [|cbn; lia].
    rewrite List.Forall_forall in Hown.
    specialize (Hown (Ev (Link tmp lockfile) rl None)).
    cbn in Hown. destruct Hown as [-> _].
    { apply in_or_app. right. apply in_or_app. left. exact Hin. }
    apply tmplock_differs. }
  destruct (fst (ap_lockfile_create os (Some lockfile) pid retries s)) as [v|f].
  - inversion Hrun as [evs0 Hq| |tmp pre ru Hpre|lf tmp pre evs0 v0 Hlf Hpre Hl
                      |lf tmp pre evs0 ru Hlf Hpre Hl|]; subst.
    + apply streak_quiet. eapply Forall_impl; [exact Hq|].
      intros [c r o] [Hc|Hc]; cbn in Hc; subst c; reflexivity.
    + reflexivity.
    + apply streak_quiet. apply Forall_app. split; [apply (Hsetup _ _ Hpre)|].
      repeat constructor.
    + injection Hlf as <-.
      apply (Hloop tmp pre evs0 _ [] Hpre Hl); [rewrite app_nil_r; reflexivity|constructor].
    + injection Hlf as <-.
      apply (Hloop tmp pre evs0 _ [Ev (Unlink tmp) ru None] Hpre Hl);
        [reflexivity | repeat constructor].
  - inversion Hrun as [| | | | |lf tmp pre evs0 f0 Hlf Hpre Hl]; subst.
    injection Hlf as <-.
    apply (Hloop tmp pre evs0 _ [] Hpre Hl); [rewrite app_nil_r; reflexivity|constructor].
Qed.

(** ** Runs on the file system of hard links *)

Section MiniRun.

Import MiniFS.

(** The first iteration on a file system where the temporary file exists
    and the lock path is free. *)
Lemma mini_first_try (lockfile tmp : string) (l : locals) (w : fs) (t : list event)
    (f : Z * Z) (n : inode) :
  tmp <> lockfile -> dontsleep l <> 0 ->
  dir w !! tmp = Some f -> dir w !! lockfile = None -> inodes w !! f = Some n ->
  tmp ∉ protected w ->
  try_body mini lockfile tmp l (St (os := mini) w t)
  = (Val (Return 0),
     St (os := mini) (set_dir (delete tmp (<[lockfile := f]> (dir w))) w)
       (t ++ [Ev (Link tmp lockfile) 0 None; Ev (Lstat tmp) 0 (Some (stat_of f n));
              Ev (Lstat lockfile) 0 (Some (stat_of f n)); Ev (Unlink tmp) 0 None])).
Proof.
  intros Hne Hds Htmp Hfree Hino Hprot.
  unfold try_body. destruct (Z.eqb_spec (dontsleep l) 0) as [|_]; [contradiction|]. mred.
  cbn [sys_link sys_lstat sys_unlink mini].
  unfold mini_link. rewrite Htmp, Hfree. mred.
  assert (Htmp' : <[lockfile := f]> (dir w) !! tmp = Some f)
    by (rewrite lookup_insert_ne by congruence; exact Htmp).
  assert (Hlock : <[lockfile := f]> (dir w) !! lockfile = Some f)
    by apply lookup_insert_eq.
  unfold mini_lstat at 1. cbn [dir inodes set_dir]. rewrite Htmp', Hino. mred.
  change (0 <? 0) with false. mred.
  unfold mini_lstat at 1. cbn [dir inodes set_dir]. rewrite Hlock, Hino. mred.
  change (0 <? 0) with false. mred.
  rewrite !Z.eqb_refl. cbn [andb]. mred.
  unfold mini_unlink. cbn [dir protected set_dir]. rewrite Htmp'.
  destruct (decide (tmp ∈ protected w)) as [Hin|_]; [contradiction|]. mred.
  rewrite <- !app_assoc. reflexivity.
Qed.

(** On a file system where the temporary path is free, a call comes to
    its claim loop with the temporary file in place, holding the pid
    record. *)
Lemma mini_setup_run (lockfile : string) (p retries : Z) (w : fs) (t : list event) :
  let tmp := tmplock_name lockfile (pid w) (clock w) in
  let f := (dev w, next_ino w) in
  let record := list_ascii_of_string (pid_record p) in
  let n := Inode 0 (clock w) (clock w) record in
  1 <= retries < INT_MAX ->
  INT_MIN <= p <= INT_MAX ->
  0 <= pid w <= 99999 -> 0 <= next_fd w ->
  Z.of_nat (String.length lockfile) + 9 <= INT_MAX ->
  dir w !! tmp = None ->
  tmp <> lockfile /\
  exists w5,
    ap_lockfile_create mini (Some lockfile) p retries (St (os := mini) w t)
    = bind (try_loop mini (try_fuel (retries + 1)) lockfile tmp (entry (retries + 1)))
        (fun out =>
           match out with
           | Some r => ret r
           | None => bind (unlink mini tmp) (fun _ => ret LOCK_ERR_MAXRETRIES)
           end)
        (St (os := mini) w5
           (t ++ [Ev (Malloc (Z.of_nat (String.length lockfile) + TMPLOCK_SUFFIX_SIZE + 1))
                    1 None;
                  Ev Getpid (pid w) None; Ev Time (clock w) None;
                  Ev (Open tmp (Z.lor (Z.lor (Z.lor O_WRONLY O_CREAT) O_EXCL) O_CLOEXEC)
                        420) (next_fd w) None;
                  Ev (Write (next_fd w) record (Z.of_nat (length record)))
                    (Z.of_nat (length record)) None;
                  Ev (Close (next_fd w)) 0 None])) /\
    dir w5 = <[tmp := f]> (dir w) /\
    inodes w5 = <[f := n]> (inodes w) /\
    fds w5 = delete (next_fd w) (fds w) /\
    next_fd w5 = next_fd w + 1 /\
    protected w5 = protected w /\ clock w5 = clock w /\
    pid w5 = pid w /\ procs w5 = procs w.
Proof.
  intros tmp f record n Hretries Hp Hpid Hfd Hlen Htmp.
  pose proof (tmplock_name_length lockfile (pid w) (clock w) Hpid) as Hname.
  fold tmp in Hname.
  split; [intros E; rewrite E in Hname; lia|].
  unfold ap_lockfile_create.
  destruct (Z.eqb_spec retries 0) as [|_]; [lia|]. mred.
  cbn [sys_malloc mini]. mred. cbn [negb]. mred.
  rewrite (to_int_small retries) by (unfold INT_MIN, INT_MAX in *; lia).
  unfold lockfile_try_create.
  pose proof (snprintf_record p) as Hrec. unfold pid_record in Hrec.
  pose proof (pid_record_length p Hp) as Hrl. unfold pid_record in Hrl.
  destruct (snprintf 40 _) as [pidlen pidbuf] eqn:Esn.
  assert (Hfit : (pidlen <? 0) || (40 - 1 <? pidlen) = false).
  { unfold snprintf in Esn. injection Esn as <- _.
    destruct (Z.ltb_spec INT_MAX
                (Z.of_nat (String.length (fmt_d p +:+ String (ascii_of_nat 10) ""))));
      [unfold INT_MAX in *; lia|].
    apply orb_false_iff. split; [apply Z.ltb_ge | apply Z.ltb_ge]; lia. }
  rewrite Hfit. destruct (Hrec Hfit) as [Hbuf Hpl]. clear Hrec.
  fold (pid_record p) in Hbuf, Hpl. fold record in Hbuf, Hpl.
  rewrite Hbuf, Hpl.
  unfold tmplock_filename.
  destruct (Z.eqb_spec (Z.of_nat (String.length lockfile) + TMPLOCK_SUFFIX_SIZE + 1) 0)
    as [E|_]; [change TMPLOCK_SUFFIX_SIZE with 9 in E; lia|].
  mred. cbn [sys_getpid sys_time mini]. mred.
  unfold snprintf. fold tmp. rewrite Hname.
  destruct (Z.ltb_spec INT_MAX (Z.of_nat (String.length lockfile + 9))) as [E|_]; [lia|].
  rewrite substring_all
    by (rewrite Hname; change TMPLOCK_SUFFIX_SIZE with 9; lia).
  destruct (Z.ltb_spec (Z.of_nat (String.length lockfile + 9)) 0) as [E|_]; [lia|].
  mred. change (0 =? 0) with true. cbn [negb]. mred.
  cbn [sys_open mini]. unfold mini_open. rewrite Htmp.
  change (Z.land _ O_CREAT =? 0) with false. mred.
  destruct (Z.ltb_spec (next_fd w) 0) as [E|_]; [lia|]. mred.
  cbn [sys_write mini]. unfold mini_write.
  cbn [fds inodes set_next set_fds set_inodes set_dir].
  rewrite lookup_insert_eq. fold f. rewrite lookup_insert_eq. mred.
  cbn [sys_close mini]. unfold mini_close.
  cbn [fds inodes set_next set_fds set_inodes set_dir].
  rewrite lookup_insert_eq. mred.
  rewrite !Z.eqb_refl. cbn [negb orb]. mred.
  unfold int_add. rewrite (to_int_small (retries + 1)) by (unfold INT_MIN, INT_MAX in *; lia).
  eexists. split; [rewrite <- !app_assoc; reflexivity|].
  cbn [dir inodes fds protected clock pid procs next_fd
       set_next set_fds set_inodes set_dir i_rdev i_atime i_mtime i_data app].
  split; [reflexivity|]. split; [|split; [apply delete_insert_eq|repeat split]].
  rewrite Nat2Z.id, firstn_all. apply insert_insert_eq.
Qed.

(** The whole call on a file system where the lock path and the
    temporary path are free. *)
Lemma mini_acquire_run (lockfile : string) (p retries : Z) (w : fs) (t : list event) :
  let tmp := tmplock_name lockfile (pid w) (clock w) in
  let f := (dev w, next_ino w) in
  let record := list_ascii_of_string (pid_record p) in
  let n := Inode 0 (clock w) (clock w) record in
  1 <= retries < INT_MAX ->
  INT_MIN <= p <= INT_MAX ->
  0 <= pid w <= 99999 -> 0 <= next_fd w ->
  Z.of_nat (String.length lockfile) + 9 <= INT_MAX ->
  dir w !! lockfile = None -> dir w !! tmp = None -> tmp ∉ protected w ->
  exists w',
    ap_lockfile_create mini (Some lockfile) p retries (St (os := mini) w t)
    = (Val 0,
       St (os := mini) w'
         (t ++ [Ev (Malloc (Z.of_nat (String.length lockfile) + TMPLOCK_SUFFIX_SIZE + 1))
                  1 None;
                Ev Getpid (pid w) None; Ev Time (clock w) None;
                Ev (Open tmp (Z.lor (Z.lor (Z.lor O_WRONLY O_CREAT) O_EXCL) O_CLOEXEC) 420)
                  (next_fd w) None;
                Ev (Write (next_fd w) record (Z.of_nat (length record)))
                  (Z.of_nat (length record)) None;
                Ev (Close (next_fd w)) 0 None;
                Ev (Link tmp lockfile) 0 None; Ev (Lstat tmp) 0 (Some (stat_of f n));
                Ev (Lstat lockfile) 0 (Some (stat_of f n)); Ev (Unlink tmp) 0 None])) /\
    dir w' = <[lockfile := f]> (dir w) /\
    inodes w' = <[f := n]> (inodes w) /\
    fds w' = delete (next_fd w) (fds w) /\
    protected w' = protected w /\
    clock w' = clock w.
Proof.
  intros tmp f record n Hretries Hp Hpid Hfd Hlen Hfree Htmp Hprot.
  destruct (mini_setup_run lockfile p retries w t Hretries Hp Hpid Hfd Hlen Htmp)
    as (Hne & w5 & Hrun & Hdir & Hino & Hfds & _ & Hpr & Hclk & _).
  fold tmp f record n in Hrun, Hdir, Hino, Hne.
  rewrite Hrun. clear Hrun.
  assert (Hfuel : exists k, try_fuel (retries + 1) = S k).
  { exists (Nat.pred (try_fuel (retries + 1))). unfold try_fuel. lia. }
  destruct Hfuel as [k ->]. cbn [try_loop entry i tries].
  destruct (Z.ltb_spec 0 (retries + 1)) as [_|E]; [|lia]. cbn [andb]. mred.
  rewrite (mini_first_try lockfile tmp (Locals 0 (retries + 1) 0 0 1) w5 _ f n Hne).
  - mred. eexists. split; [rewrite <- !app_assoc; reflexivity|].
    cbn [dir inodes fds protected clock set_dir].
    rewrite Hdir, Hino, Hfds, Hpr, Hclk.
    split; [|repeat split].
    rewrite delete_insert_ne by exact Hne.
    rewrite delete_insert_id by exact Htmp. reflexivity.
  - discriminate.
  - rewrite Hdir. apply lookup_insert_eq.
  - rewrite Hdir, lookup_insert_ne by exact Hne. exact Hfree.
  - rewrite Hino. apply lookup_insert_eq.
  - rewrite Hpr. exact Hprot.
Qed.

End MiniRun.

(** X16: on a file system of hard links where the lock path and the
    temporary path are free, [ap_lockfile_create] succeeds at the first
    try: it returns 0 without sleeping, after one [link]; the lock path
    then names a new file that holds the pid record, the temporary path
    is gone again and no other entry of the directory has changed. *)
Theorem mini_acquire_free (lockfile : string) (p retries : Z) (w : MiniFS.fs)
    (t : list event) :
  let tmp := tmplock_name lockfile (MiniFS.pid w) (MiniFS.clock w) in
  let f := (MiniFS.dev w, MiniFS.next_ino w) in
  let out := ap_lockfile_create MiniFS.mini (Some lockfile) p retries
               (St (os := MiniFS.mini) w t) in
  1 <= retries < INT_MAX ->
  INT_MIN <= p <= INT_MAX ->
  0 <= MiniFS.pid w <= 99999 -> 0 <= MiniFS.next_fd w ->
  Z.of_nat (String.length lockfile) + 9 <= INT_MAX ->
  MiniFS.dir w !! lockfile = None -> MiniFS.dir w !! tmp = None ->
  tmp ∉ MiniFS.protected w ->
  fst out = Val 0 /\
  (exists evs, trace (snd out) = t ++ evs /\ sleeps evs = [] /\ iterations evs = 1) /\
  MiniFS.dir (world (snd out)) = <[lockfile := f]> (MiniFS.dir w) /\
  MiniFS.inodes (world (snd out)) !! f
  = Some (MiniFS.Inode 0 (MiniFS.clock w) (MiniFS.clock w)
            (list_ascii_of_string (pid_record p))).
Proof.
  intros tmp f out H1 H2 H3 H4 H5 H6 H7 H8.
  destruct (mini_acquire_run lockfile p retries w t H1 H2 H3 H4 H5 H6 H7 H8)
    as (w' & Hrun & Hdir & Hino & _).
  subst out. rewrite Hrun. cbn [fst snd world trace].
  split; [reflexivity|]. split; [|split; [exact Hdir|]].
  - eexists. split; [reflexivity|]. split; reflexivity.
  - rewrite Hino. apply lookup_insert_eq.
Qed.

Lemma mini_acquire_free_witness :
  let w := Scenario.free in
  let tmp := tmplock_name Scenario.lock (MiniFS.pid w) (MiniFS.clock w) in
  let f := (MiniFS.dev w, MiniFS.next_ino w) in
  let out := ap_lockfile_create MiniFS.mini (Some Scenario.lock) 4242 1
               (St (os := MiniFS.mini) w []) in
  fst out = Val 0 /\
  (exists evs, trace (snd out) = [] ++ evs /\ sleeps evs = [] /\ iterations evs = 1) /\
  MiniFS.dir (world (snd out)) = <[Scenario.lock := f]> (MiniFS.dir w) /\
  MiniFS.inodes (world (snd out)) !! f
  = Some (MiniFS.Inode 0 (MiniFS.clock w) (MiniFS.clock w)
            (list_ascii_of_string (pid_record 4242))).
Proof.
  apply (mini_acquire_free Scenario.lock 4242 1 Scenario.free []).
  - unfold INT_MAX. lia.
  - unfold INT_MIN, INT_MAX. lia.
  - vm_compute. split; discriminate.
  - vm_compute. discriminate.
  - vm_compute. discriminate.
  - vm_compute. reflexivity.
  - vm_compute. reflexivity.
  - vm_compute. discriminate.
Defined.

(** X17: acquiring and releasing is a round trip: on such a file
    system, [ap_lockfile_release] after [ap_lockfile_create] returns 0
    and leaves the directory as it was before the lock was taken. *)
Theorem mini_acquire_release (lockfile : string) (p retries : Z) (w : MiniFS.fs)
    (t : list event) :
  let tmp := tmplock_name lockfile (MiniFS.pid w) (MiniFS.clock w) in
  let held := snd (ap_lockfile_create MiniFS.mini (Some lockfile) p retries
                     (St (os := MiniFS.mini) w t)) in
  let out := ap_lockfile_release MiniFS.mini (Some lockfile) held in
  1 <= retries < INT_MAX ->
  INT_MIN <= p <= INT_MAX ->
  0 <= MiniFS.pid w <= 99999 -> 0 <= MiniFS.next_fd w ->
  Z.of_nat (String.length lockfile) + 9 <= INT_MAX ->
  MiniFS.dir w !! lockfile = None -> MiniFS.dir w !! tmp = None ->
  tmp ∉ MiniFS.protected w -> lockfile ∉ MiniFS.protected w ->
  fst out = Val 0 /\
  MiniFS.dir (world (snd out)) = MiniFS.dir w.
Proof.
  intros tmp held out H1 H2 H3 H4 H5 H6 H7 H8 H9.
  destruct (mini_acquire_run lockfile p retries w t H1 H2 H3 H4 H5 H6 H7 H8)
    as (w' & Hrun & Hdir & _ & _ & Hprot & _).
  subst out held. rewrite Hrun. cbn [snd].
  unfold ap_lockfile_release. mred.
  cbn [sys_unlink sys_errno MiniFS.mini]. unfold MiniFS.mini_unlink.
  rewrite Hdir, Hprot, lookup_insert_eq.
  destruct (decide (lockfile ∈ MiniFS.protected w)) as [Hin|_]; [contradiction|].
  mred. change (0 <? 0) with false. cbn [andb]. mred.
  split; [reflexivity|]. cbn [MiniFS.dir MiniFS.set_dir].
  apply delete_insert_id. exact H6.
Qed.

Lemma mini_acquire_release_witness :
  let w := Scenario.free in
  let held := snd (ap_lockfile_create MiniFS.mini (Some Scenario.lock) 4242 1
                     (St (os := MiniFS.mini) w [])) in
  let out := ap_lockfile_release MiniFS.mini (Some Scenario.lock) held in
  fst out = Val 0 /\
  MiniFS.dir (world (snd out)) = MiniFS.dir w.
Proof.
  apply (mini_acquire_release Scenario.lock 4242 1 Scenario.free []).
  - unfold INT_MAX. lia.
  - unfold INT_MIN, INT_MAX. lia.
  - vm_compute. split; discriminate.
  - vm_compute. discriminate.
  - vm_compute. discriminate.
  - vm_compute. reflexivity.
  - vm_compute. reflexivity.
  - vm_compute. discriminate.
  - vm_compute. discriminate.
Defined.

(** ** A lock that is taken *)

Section MiniTaken.

Import MiniFS.

Variables (lockfile tmp : string) (g f : Z * Z) (nf : inode) (q : Z).
Hypothesis Hq : 0 < q <= INT_MAX.
Hypothesis Hgf : snd g <> snd f.

(** The checker reads the record and probes its process: the lock is
    valid exactly when the probe finds the process. *)
Lemma mini_check (w : fs) (t : list event) :
  names lockfile tmp g f nf q w ->
  exists w' evs,
    lockfile_check_valid mini (Some lockfile) (St (os := mini) w t)
    = (Val (probes q w), St (os := mini) w' (t ++ evs)) /\
    names lockfile tmp g f nf q w' /\
    dir w' = dir w /\ protected w' = protected w /\
    pid w' = pid w /\ procs w' = procs w /\
    iterations evs = 0 /\ sleeps evs = [].
Proof.
  intros (Hlock & Htmp & (ng & Hng & Hdata) & Hnf & Hfd).
  assert (Hne : g <> f) by (intros ->; contradiction).
  assert (Hint : INT_MIN <= q <= INT_MAX) by (unfold INT_MIN, INT_MAX in *; lia).
  assert (Hlen : (2 <= length (list_ascii_of_string (pid_record q)) <= 12)%nat).
  { rewrite length_chars. apply pid_record_length, Hint. }
  assert (Hparse := parse_record_ok (list_ascii_of_string (pid_record q))).
  specialize (Hparse ltac:(lia) (pid_record_chars q)).
  rewrite (pid_record_atoi q Hint) in Hparse.
  unfold parse_record in Hparse. rewrite take_ge in Hparse by lia.
  set (record := list_ascii_of_string (pid_record q)) in *.
  unfold lockfile_check_valid, check_valid_read, check_valid_decide. mred.
  cbn [sys_stat sys_time sys_open mini]. unfold mini_lstat at 1.
  rewrite Hlock, Hng. mred. change (0 <? 0) with false. mred.
  unfold mini_open. rewrite Hlock. change (Z.land O_RDONLY O_CREAT =? 0) with true. mred.
  destruct (Z.leb_spec 0 (next_fd w)) as [_|E]; [|lia]. mred.
  cbn [sys_fstat sys_read sys_close mini]. unfold mini_fstat at 1.
  cbn [fds inodes set_next set_fds set_inodes].
  rewrite lookup_insert_eq, Hng. mred. change (0 =? 0) with true. mred.
  unfold mini_read. cbn [fds inodes set_next set_fds set_inodes].
  rewrite lookup_insert_eq, Hng. mred. rewrite Hdata.
  assert (Hbytes : take (Z.to_nat 16) (drop 0 record) = record).
  { change (Z.to_nat 16) with 16%nat. cbn [drop]. apply take_ge. lia. }
  rewrite !Hbytes. rewrite (take_ge record 16) by lia.
  destruct (Z.leb_spec 0 (Z.of_nat (length record))) as [_|E]; [|lia]. mred.
  unfold mini_fstat at 1. cbn [fds inodes set_next set_fds set_inodes].
  rewrite !lookup_insert_eq. mred. change (0 =? 0) with true. cbn [andb].
  match goal with |- context [negb ?c] => destruct (negb c) end; mred.
  all: unfold mini_close; cbn [fds inodes set_next set_fds set_inodes].
  all: rewrite lookup_insert_eq; mred.
  all: destruct (Z.ltb_spec 0 (Z.of_nat (length record))) as [_|E]; [|lia].
  all: destruct (buf_store _ _ NUL) as [buf|]; [|discriminate Hparse].
  all: destruct (buf_string buf) as [str|]; [|discriminate Hparse].
  all: cbn in Hparse; injection Hparse as Hatoi; rewrite Hatoi; mred.
  all: destruct (Z.ltb_spec 0 q) as [_|E]; [|lia]; mred.
  all: match goal with
       | |- context [sys_kill mini q 0 ?x] => set (w6 := x)
       end.
  all: assert (Hinv : names lockfile tmp g f nf q w6 /\ dir w6 = dir w /\
                      protected w6 = protected w /\ pid w6 = pid w /\
                      procs w6 = procs w);
    [ (split; [|repeat split]);
      unfold names; subst w6;
      cbn [dir inodes procs pid next_fd set_next set_fds set_inodes];
      (split; [exact Hlock|]); (split; [exact Htmp|]);
      (split; [eexists; split; [apply lookup_insert_eq|reflexivity]|]);
      (split; [rewrite lookup_insert_ne by exact Hne; exact Hnf | lia])
    | clearbody w6; destruct Hinv as (Hinv & Hdir & Hprot & Hpid & Hprocs) ].
  all: cbn [sys_kill sys_errno mini]; unfold mini_kill, probes; rewrite Hpid.
  all: destruct (Z.eqb_spec q (pid w)) as [Eq|Nq]; cbn [orb];
    [|rewrite Hprocs; destruct (procs w !! q) as [[|]|]];
    unfold failing; mred; cbn [err set_err];
    rewrite <- ?app_assoc; cbn [app];
    (eexists _, _; split; [reflexivity|]);
    cbn [dir protected pid procs set_err];
    (split; [|repeat split; assumption]).
  all: try exact Hinv.
  all: destruct Hinv as (? & ? & ? & ? & ?); repeat split; assumption.
Qed.

(** An iteration on a lock whose owner the probe finds: the link fails,
    the two files differ, the checker finds the lock valid, and the loop
    goes on. *)
Lemma mini_body_held (l : locals) (w : fs) (t : list event) :
  names lockfile tmp g f nf q w -> probes q w = true ->
  exists l' w' evs,
    try_body mini lockfile tmp l (St (os := mini) w t)
    = (Val (Next l'), St (os := mini) w' (t ++ evs)) /\
    names lockfile tmp g f nf q w' /\ probes q w' = true /\
    dir w' = dir w /\ protected w' = protected w /\
    i l' = i l /\ tries l' = tries l /\
    iterations evs = 1.
Proof.
  intros Hinv Hlive.
  assert (Hkeep : forall w1, dir w1 = dir w -> inodes w1 = inodes w ->
            procs w1 = procs w -> pid w1 = pid w -> next_fd w1 = next_fd w ->
            names lockfile tmp g f nf q w1 /\ probes q w1 = probes q w).
  { intros w1 E1 E2 E3 E4 E5. unfold names, probes. rewrite E1, E2, E3, E4, E5.
    split; [exact Hinv | reflexivity]. }
  pose proof Hinv as (Hlock & Htmp & (ng & Hng & Hdata) & Hnf & Hfd).
  unfold try_body. mred.
  destruct (dontsleep l =? 0); mred.
  all: cbn [sys_sleep sys_link sys_lstat mini]; unfold mini_sleep, mini_link; mred.
  all: cbn [dir set_clock]; rewrite Htmp, Hlock; unfold failing; mred.
  all: unfold mini_lstat at 1; cbn [dir inodes set_err set_clock]; rewrite Htmp, Hnf; mred.
  all: change (0 <? 0) with false; mred.
  all: unfold mini_lstat at 1; cbn [dir inodes set_err set_clock]; rewrite Hlock, Hng; mred.
  all: change (0 <? 0) with false; mred.
  all: cbn [st_ino st_rdev stat_of].
  all: rewrite (proj2 (Z.eqb_neq (snd g) (snd f)) Hgf), andb_false_r; mred.
  all: match goal with
       | |- context [lockfile_check_valid mini (Some lockfile) (St ?w3 ?t3)] =>
           destruct (Hkeep w3 eq_refl eq_refl eq_refl eq_refl eq_refl) as [Hinv3 Hlive3];
           destruct (mini_check w3 t3 Hinv3)
             as (w' & evs & Heq & Hinv' & Hdir & Hprot & Hpid & Hprocs & Hit & _);
           rewrite Heq, Hlive3, Hlive
       end.
  all: cbn [negb]; mred.
  all: rewrite <- ?app_assoc; cbn [app].
  all: eexists _, w', _; split; [reflexivity|].
  all: split; [exact Hinv'|].
  all: split; [unfold probes; rewrite Hpid, Hprocs; exact Hlive|].
  all: split; [rewrite Hdir; reflexivity|].
  all: split; [rewrite Hprot; reflexivity|].
  all: split; [reflexivity|]; split; [reflexivity|].
  all: change (iterations (?a :: ?b :: ?c :: ?d :: evs))
         with (iterations ([a; b; c; d] ++ evs)) ||
       change (iterations (?a :: ?b :: ?c :: evs))
         with (iterations ([a; b; c] ++ evs)).
  all: rewrite iterations_app, Hit; reflexivity.
Qed.

(** The loop on such a lock uses up its tries. *)
Lemma mini_loop_held (fuel : nat) :
  forall (l : locals) (w : fs) (t : list event),
    names lockfile tmp g f nf q w -> probes q w = true ->
    Z.max 0 (tries l - i l) <= Z.of_nat fuel ->
    exists w' evs,
      try_loop mini fuel lockfile tmp l (St (os := mini) w t)
      = (Val None, St (os := mini) w' (t ++ evs)) /\
      names lockfile tmp g f nf q w' /\
      dir w' = dir w /\ protected w' = protected w /\
      (0 < tries l -> iterations evs = Z.max 0 (tries l - i l)).
Proof.
  assert (Hexit : forall (l : locals) (w : fs) (t : list event),
            names lockfile tmp g f nf q w ->
            ~ (i l < tries l /\ 0 < tries l) ->
            exists w' evs,
              (Val (@None Z), St (os := mini) w t)
              = (Val None, St (os := mini) w' (t ++ evs)) /\
              names lockfile tmp g f nf q w' /\
              dir w' = dir w /\ protected w' = protected w /\
              (0 < tries l -> iterations evs = Z.max 0 (tries l - i l))).
  { intros l w t Hinv Hg. exists w, []. rewrite app_nil_r.
    split; [reflexivity|]. split; [exact Hinv|]. split; [reflexivity|].
    split; [reflexivity|]. intros. change (iterations []) with 0. lia. }
  induction fuel as [|fuel IH]; intros l w t Hinv Hlive Hfuel; cbn [try_loop];
    destruct (Z.ltb_spec (i l) (tries l)) as [Hi|Hi];
    destruct (Z.ltb_spec 0 (tries l)) as [Ht|Ht]; cbn [andb];
    try (apply Hexit; [exact Hinv | lia]).
  { lia. }
  destruct (mini_body_held l w t Hinv Hlive)
    as (l' & w1 & e1 & Hbody & Hinv1 & Hlive1 & Hd1 & Hp1 & Hi1 & Ht1 & Hn1).
  unfold bind. rewrite Hbody.
  match goal with
  | |- context [try_loop mini fuel lockfile tmp ?l2 _] =>
      destruct (IH l2 w1 (t ++ e1) Hinv1 Hlive1)
        as (w2 & e2 & Hloop & Hinv2 & Hd2 & Hp2 & Hn2);
      [cbn [i tries]; lia|]
  end.
  rewrite Hloop. exists w2, (e1 ++ e2). rewrite app_assoc.
  split; [reflexivity|]. split; [exact Hinv2|].
  split; [congruence|]. split; [congruence|].
  intros _. rewrite iterations_app, Hn1, Hn2 by (cbn [tries]; lia).
  cbn [i tries]. lia.
Qed.

(** An iteration on a lock whose owner is gone: the checker finds it
    stale, the lock path is removed, and the next iteration follows at
    once. *)
Lemma mini_body_stale (l : locals) (w : fs) (t : list event) :
  names lockfile tmp g f nf q w -> probes q w = false ->
  lockfile ∉ protected w -> tmp <> lockfile -> dontsleep l <> 0 ->
  exists w' evs,
    try_body mini lockfile tmp l (St (os := mini) w t)
    = (Val (Next (Locals (i l) (if tries l =? 1 then tries l + 1 else tries l)
                    (sleeptime l) 0 1)),
       St (os := mini) w' (t ++ evs)) /\
    dir w' = delete lockfile (dir w) /\ inodes w' !! f = Some nf /\
    protected w' = protected w /\
    iterations evs = 1 /\ sleeps evs = [].
Proof.
  intros Hinv Hdead Hprot Hne Hds.
  assert (Hkeep : forall w1, dir w1 = dir w -> inodes w1 = inodes w ->
            procs w1 = procs w -> pid w1 = pid w -> next_fd w1 = next_fd w ->
            names lockfile tmp g f nf q w1 /\ probes q w1 = probes q w).
  { intros w1 E1 E2 E3 E4 E5. unfold names, probes. rewrite E1, E2, E3, E4, E5.
    split; [exact Hinv | reflexivity]. }
  pose proof Hinv as (Hlock & Htmp & (ng & Hng & Hdata) & Hnf & Hfd).
  unfold try_body. mred.
  destruct (Z.eqb_spec (dontsleep l) 0) as [|_]; [contradiction|]. mred.
  cbn [sys_link sys_lstat mini]. unfold mini_link. mred.
  rewrite Htmp, Hlock. unfold failing. mred.
  unfold mini_lstat at 1. cbn [dir inodes set_err]. rewrite Htmp, Hnf. mred.
  change (0 <? 0) with false. mred.
  unfold mini_lstat at 1. cbn [dir inodes set_err]. rewrite Hlock, Hng. mred.
  change (0 <? 0) with false. mred.
  cbn [st_ino st_rdev stat_of].
  rewrite (proj2 (Z.eqb_neq (snd g) (snd f)) Hgf), andb_false_r. mred.
  match goal with
  | |- context [lockfile_check_valid mini (Some lockfile) (St ?w3 ?t3)] =>
      destruct (Hkeep w3 eq_refl eq_refl eq_refl eq_refl eq_refl) as [Hinv3 Hlive3];
      destruct (mini_check w3 t3 Hinv3)
        as (w' & evs & Heq & Hinv' & Hdir & Hpr & Hpid & Hprocs & Hit & Hsl);
      rewrite Heq, Hlive3, Hdead
  end.
  cbn [negb]. mred.
  destruct Hinv' as (Hlock' & Htmp' & _ & Hnf' & _).
  cbn [sys_unlink sys_errno mini]. unfold mini_unlink. rewrite Hlock', Hpr.
  cbn [protected set_err].
  destruct (decide (lockfile ∈ protected w)) as [Hin|_]; [contradiction|]. mred.
  change (0 <? 0) with false. cbn [andb]. mred.
  rewrite <- ?app_assoc. cbn [app].
  eexists _, _. split; [reflexivity|].
  cbn [dir inodes protected set_dir set_err].
  split; [rewrite Hdir; reflexivity|]. split; [exact Hnf'|].
  split; [rewrite Hpr; reflexivity|].
  change (iterations (?a :: ?b :: ?c :: evs ++ ?tl))
    with (iterations ([a; b; c] ++ evs ++ tl)).
  change (sleeps (?a :: ?b :: ?c :: evs ++ ?tl))
    with (sleeps ([a; b; c] ++ evs ++ tl)).
  rewrite !iterations_app, !sleeps_app, Hit, Hsl. split; reflexivity.
Qed.

End MiniTaken.

(** X18: mutual exclusion on a file system of hard links.  When the
    lock path names a file that holds the record of a process the probe
    finds (running, or of another user), and its inode number is not the
    one the temporary file receives, [ap_lockfile_create] uses up its
    retries + 1 tries and returns LOCK_ERR_MAXRETRIES; the directory is
    then as it was before the call and the lock file still holds the
    record of its owner. *)
Theorem mini_acquire_held (lockfile : string) (p retries q : Z) (g : Z * Z)
    (ng : MiniFS.inode) (w : MiniFS.fs) (t : list event) :
  let tmp := tmplock_name lockfile (MiniFS.pid w) (MiniFS.clock w) in
  let out := ap_lockfile_create MiniFS.mini (Some lockfile) p retries
               (St (os := MiniFS.mini) w t) in
  1 <= retries < INT_MAX ->
  INT_MIN <= p <= INT_MAX ->
  0 <= MiniFS.pid w <= 99999 -> 0 <= MiniFS.next_fd w ->
  Z.of_nat (String.length lockfile) + 9 <= INT_MAX ->
  MiniFS.dir w !! tmp = None -> tmp ∉ MiniFS.protected w ->
  MiniFS.dir w !! lockfile = Some g -> snd g <> MiniFS.next_ino w ->
  MiniFS.inodes w !! g = Some ng ->
  MiniFS.i_data ng = list_ascii_of_string (pid_record q) ->
  0 < q <= INT_MAX ->
  q = MiniFS.pid w \/ is_Some (MiniFS.procs w !! q) ->
  fst out = Val LOCK_ERR_MAXRETRIES /\
  (exists evs, trace (snd out) = t ++ evs /\ iterations evs = retries + 1) /\
  MiniFS.dir (world (snd out)) = MiniFS.dir w /\
  exists ng', MiniFS.inodes (world (snd out)) !! g = Some ng' /\
    MiniFS.i_data ng' = list_ascii_of_string (pid_record q).
Proof.
  intros tmp out Hretries Hp Hpid Hfd Hlen Htmp Hprot Hlock Hino Hng Hdata Hq Hlive.
  destruct (mini_setup_run lockfile p retries w t Hretries Hp Hpid Hfd Hlen Htmp)
    as (Hne & w5 & Hrun & Hdir & Hinodes & _ & Hnfd & Hpr & _ & Hpid5 & Hprocs5).
  fold tmp in Hrun, Hdir, Hne.
  set (f := (MiniFS.dev w, MiniFS.next_ino w)) in *.
  assert (Hgf : g <> f) by (intros ->; apply Hino; reflexivity).
  match type of Hinodes with _ = <[_ := ?n]> _ => set (nf := n) in * end.
  assert (Hinv : names lockfile tmp g f nf q w5).
  { unfold names. rewrite Hdir, Hinodes, Hnfd.
    split; [rewrite lookup_insert_ne by exact Hne; exact Hlock|].
    split; [apply lookup_insert_eq|].
    split; [exists ng; rewrite lookup_insert_ne by congruence; auto|].
    split; [apply lookup_insert_eq | lia]. }
  assert (Hfound : probes q w5 = true).
  { unfold probes. rewrite Hpid5, Hprocs5.
    destruct Hlive as [->|[b Hb]]; [rewrite Z.eqb_refl; reflexivity|].
    rewrite Hb. apply orb_true_r. }
  subst out. rewrite Hrun. clear Hrun. unfold bind.
  match goal with
  | |- context [try_loop MiniFS.mini ?fuel lockfile tmp ?l (St ?w0 ?t0)] =>
      destruct (mini_loop_held lockfile tmp g f nf q Hq Hino fuel l w0 t0 Hinv Hfound)
        as (w6 & evs & Hloop & Hinv6 & Hd6 & Hp6 & Hn6);
      [unfold try_fuel; cbn [tries i entry]; lia|]
  end.
  rewrite Hloop. clear Hloop. mred.
  destruct Hinv6 as (Hlock6 & Htmp6 & (ng6 & Hng6 & Hdata6) & _).
  cbn [sys_unlink MiniFS.mini]. unfold MiniFS.mini_unlink.
  rewrite Htmp6, Hp6, Hpr.
  destruct (decide (tmp ∈ MiniFS.protected w)) as [Hin|_]; [contradiction|].
  mred. split; [reflexivity|].
  split; [|split].
  - rewrite <- !app_assoc. eexists. split; [reflexivity|].
    cbn [app].
    match goal with
    | |- iterations (?a :: ?b :: ?c :: ?d :: ?e :: ?f0 :: evs ++ ?tl) = _ =>
        change (iterations ([a; b; c; d; e; f0] ++ evs ++ tl) = retries + 1)
    end.
    rewrite !iterations_app, Hn6 by (cbn [tries entry]; lia).
    cbn [tries i entry]. change (iterations [_; _; _; _; _; _]) with 0.
    change (iterations [_]) with 0. lia.
  - cbn [MiniFS.dir MiniFS.set_dir]. rewrite Hd6, Hdir.
    apply delete_insert_id. exact Htmp.
  - cbn [MiniFS.inodes MiniFS.set_dir]. exists ng6. auto.
Qed.

Lemma mini_acquire_held_witness :
  let w := Scenario.held in
  let out := ap_lockfile_create MiniFS.mini (Some Scenario.lock) 4242 1
               (St (os := MiniFS.mini) w []) in
  fst out = Val LOCK_ERR_MAXRETRIES /\
  (exists evs, trace (snd out) = [] ++ evs /\ iterations evs = 1 + 1) /\
  MiniFS.dir (world (snd out)) = MiniFS.dir w /\
  exists ng', MiniFS.inodes (world (snd out)) !! (1, 7) = Some ng' /\
    MiniFS.i_data ng' = list_ascii_of_string (pid_record 77).
Proof.
  apply (mini_acquire_held Scenario.lock 4242 1 77 (1, 7)
           (MiniFS.Inode 0 50 50 (list_ascii_of_string (pid_record 77)))
           Scenario.held []).
  - unfold INT_MAX. lia.
  - unfold INT_MIN, INT_MAX. lia.
  - vm_compute. split; discriminate.
  - vm_compute. discriminate.
  - vm_compute. discriminate.
  - vm_compute. reflexivity.
  - vm_compute. discriminate.
  - vm_compute. reflexivity.
  - vm_compute. discriminate.
  - vm_compute. reflexivity.
  - reflexivity.
  - unfold INT_MAX. lia.
  - right. exists true. vm_compute. reflexivity.
Defined.

(** X19: a stale lock is taken over.  When the lock path names a file
    that holds the record of a process that is gone, and we may remove
    it, [ap_lockfile_create] removes it in its first iteration and takes
    the lock in the second, without sleeping: it returns 0 after two
    [link]s, and the lock path then names our file, which holds our pid
    record. *)
Theorem mini_acquire_stale (lockfile : string) (p retries q : Z) (g : Z * Z)
    (ng : MiniFS.inode) (w : MiniFS.fs) (t : list event) :
  let tmp := tmplock_name lockfile (MiniFS.pid w) (MiniFS.clock w) in
  let f := (MiniFS.dev w, MiniFS.next_ino w) in
  let out := ap_lockfile_create MiniFS.mini (Some lockfile) p retries
               (St (os := MiniFS.mini) w t) in
  1 <= retries < INT_MAX ->
  INT_MIN <= p <= INT_MAX ->
  0 <= MiniFS.pid w <= 99999 -> 0 <= MiniFS.next_fd w ->
  Z.of_nat (String.length lockfile) + 9 <= INT_MAX ->
  MiniFS.dir w !! tmp = None -> tmp ∉ MiniFS.protected w ->
  lockfile ∉ MiniFS.protected w ->
  MiniFS.dir w !! lockfile = Some g -> snd g <> MiniFS.next_ino w ->
  MiniFS.inodes w !! g = Some ng ->
  MiniFS.i_data ng = list_ascii_of_string (pid_record q) ->
  0 < q <= INT_MAX ->
  q <> MiniFS.pid w -> MiniFS.procs w !! q = None ->
  fst out = Val 0 /\
  (exists evs, trace (snd out) = t ++ evs /\ sleeps evs = [] /\ iterations evs = 2) /\
  MiniFS.dir (world (snd out)) = <[lockfile := f]> (MiniFS.dir w) /\
  MiniFS.inodes (world (snd out)) !! f
  = Some (MiniFS.Inode 0 (MiniFS.clock w) (MiniFS.clock w)
            (list_ascii_of_string (pid_record p))).
Proof.
  intros tmp f out Hretries Hp Hpid Hfd Hlen Htmp Hprot Hprotl Hlock Hino Hng Hdata
    Hq Hother Hgone.
  destruct (mini_setup_run lockfile p retries w t Hretries Hp Hpid Hfd Hlen Htmp)
    as (Hne & w5 & Hrun & Hdir & Hinodes & _ & Hnfd & Hpr & _ & Hpid5 & Hprocs5).
  fold tmp f in Hrun, Hdir, Hinodes, Hne.
  assert (Hgf : g <> f) by (intros ->; apply Hino; reflexivity).
  match type of Hinodes with _ = <[_ := ?n]> _ => set (nf := n) in * end.
  assert (Hinv : names lockfile tmp g f nf q w5).
  { unfold names. rewrite Hdir, Hinodes, Hnfd.
    split; [rewrite lookup_insert_ne by exact Hne; exact Hlock|].
    split; [apply lookup_insert_eq|].
    split; [exists ng; rewrite lookup_insert_ne by congruence; auto|].
    split; [apply lookup_insert_eq | lia]. }
  assert (Hdead : probes q w5 = false).
  { unfold probes. rewrite Hpid5, Hprocs5, Hgone.
    destruct (Z.eqb_spec q (MiniFS.pid w)); [contradiction|reflexivity]. }
  subst out. rewrite Hrun. clear Hrun. unfold bind.
  assert (Hfuel : exists k, try_fuel (retries + 1) = S (S k)).
  { exists (Nat.pred (Nat.pred (try_fuel (retries + 1)))). unfold try_fuel. lia. }
  destruct Hfuel as [k ->]. cbn [try_loop entry i tries].
  destruct (Z.ltb_spec 0 (retries + 1)) as [_|E]; [|lia]. cbn [andb]. unfold bind.
  match goal with
  | |- context [try_body MiniFS.mini lockfile tmp ?l (St ?w0 ?t0)] =>
      destruct (mini_body_stale lockfile tmp g f nf q Hq Hino l w0 t0 Hinv Hdead)
        as (w6 & e1 & Hbody & Hd6 & Hi6 & Hp6 & Hn1 & Hs1);
      [rewrite Hpr; exact Hprotl | exact Hne | discriminate |]
  end.
  rewrite Hbody. clear Hbody. unfold entry.
  cbn [try_loop i tries sleeptime statfailed dontsleep].
  destruct (Z.eqb_spec (retries + 1) 1) as [E|_]; [lia|].
  destruct (Z.ltb_spec (0 + 1) (retries + 1)) as [_|E]; [|lia].
  destruct (Z.ltb_spec 0 (retries + 1)) as [_|E]; [|lia]. cbn [andb]. unfold bind.
  rewrite (mini_first_try lockfile tmp _ w6 _ f nf Hne).
  - mred. split; [reflexivity|]. split; [|split].
    + rewrite <- !app_assoc. eexists. split; [reflexivity|].
      cbn [app].
      match goal with
      | |- sleeps (?a :: ?b :: ?c :: ?d :: ?e :: ?f0 :: e1 ++ ?tl) = _ /\ _ =>
          change (sleeps ([a; b; c; d; e; f0] ++ e1 ++ tl) = [] /\
                  iterations ([a; b; c; d; e; f0] ++ e1 ++ tl) = 2)
      end.
      rewrite !sleeps_app, !iterations_app, Hs1, Hn1. split; reflexivity.
    + cbn [MiniFS.dir MiniFS.set_dir]. rewrite Hd6, Hdir.
      rewrite insert_delete_eq.
      rewrite delete_insert_ne by exact Hne.
      rewrite delete_insert_id by exact Htmp. reflexivity.
    + cbn [MiniFS.inodes MiniFS.set_dir]. exact Hi6.
  - discriminate.
  - rewrite Hd6, lookup_delete_ne by congruence. rewrite Hdir. apply lookup_insert_eq.
  - rewrite Hd6. apply lookup_delete_eq.
  - exact Hi6.
  - rewrite Hp6, Hpr. exact Hprot.
Qed.

Lemma mini_acquire_stale_witness :
  let w := Scenario.dead in
  let f := (MiniFS.dev w, MiniFS.next_ino w) in
  let out := ap_lockfile_create MiniFS.mini (Some Scenario.lock) 4242 1
               (St (os := MiniFS.mini) w []) in
  fst out = Val 0 /\
  (exists evs, trace (snd out) = [] ++ evs /\ sleeps evs = [] /\ iterations evs = 2) /\
  MiniFS.dir (world (snd out)) = <[Scenario.lock := f]> (MiniFS.dir w) /\
  MiniFS.inodes (world (snd out)) !! f
  = Some (MiniFS.Inode 0 (MiniFS.clock w) (MiniFS.clock w)
            (list_ascii_of_string (pid_record 4242))).
Proof.
  apply (mini_acquire_stale Scenario.lock 4242 1 88 (1, 7)
           (MiniFS.Inode 0 50 50 (list_ascii_of_string (pid_record 88)))
           Scenario.dead []).
  - unfold INT_MAX. lia.
  - unfold INT_MIN, INT_MAX. lia.
  - vm_compute. split; discriminate.
  - vm_compute. discriminate.
  - vm_compute. discriminate.
  - vm_compute. reflexivity.
  - vm_compute. discriminate.
  - vm_compute. discriminate.
  - vm_compute. reflexivity.
  - vm_compute. discriminate.
  - vm_compute. reflexivity.
  - reflexivity.
  - unfold INT_MAX. lia.
  - vm_compute. discriminate.
  - vm_compute. reflexivity.
Defined.

(** The predicates on traces do reject: an [open] without [close], the
    removal of the lock after a probe that found its owner, and eight
    failures of [lstat] in a row. *)
Example trace_predicates_reject :
  leak_free [Ev (Open "/run/lock/ap" O_RDONLY 0) 3 None] = false /\
  spares_live "/run/lock/ap"
    [Ev (Kill 77 0) 0 None; Ev (Unlink "/run/lock/ap") 0 None] = false /\
  streak_ok "/run/lock/ap" 0 (replicate 7 (Ev (Lstat "/run/lock/ap") (-1) None)) = true /\
  streak_ok "/run/lock/ap" 0 (replicate 8 (Ev (Lstat "/run/lock/ap") (-1) None)) = false.
Proof. repeat split; vm_compute; reflexivity. Qed.
